(** * Senflare-DNS-IP: the IP quality pipeline

    A shallow embedding of the probing, scoring and geolocation-cache code
    of the repository (the modules [ipTester] and [geoResolver] of [src],
    and the bandwidth tester, whose text follows the configuration in
    [config/config.js]) together with the properties its specification
    states about it.

    Conventions of the embedding.
    - A JavaScript number that is always an integer in the code (a delay in
      milliseconds obtained from [Date.now()] differences, a byte count, an
      HTTP status, an instant in epoch milliseconds) is a [Z].
    - Every other JavaScript number is an exact rational [Q]; values are
      compared with [==].  The embedding computes averages, variances and
      scores exactly, without the rounding of binary64: it is the reading
      of the arithmetic over the real numbers.  The module [Binary64]
      holds the same expressions on binary64 numbers, bit for bit as the
      run time evaluates them; where the two readings can differ (the
      rounding of the score, the number of candidates kept) the
      properties are stated on [Binary64] or on whole numbers, on which
      binary64 is exact.
    - A JavaScript string is a [string] of code units below 256.
    - Network calls are answered by oracles that are arguments of the
      functions, and the state they touch is passed explicitly. *)

From Stdlib Require Import ZArith QArith Qround Qminmax Qabs Lqa.
From Stdlib Require Import List Bool Ascii String DecimalString Lia Arith.
From Stdlib Require Import Permutation Sorted.
From Stdlib Require Import Floats.PrimFloat.
From Stdlib Require Floats.FloatAxioms.
From Stdlib Require DecimalNat.
Import ListNotations.

Local Open Scope Z_scope.

(* ================================================================== *)
(** * Part I: the embedding                                            *)
(* ================================================================== *)

(** ** JavaScript library functions used by the code *)

Module Js.

(** [Math.round]: the closest integer, ties towards plus infinity. *)
Definition Math_round (x : Q) : Z := Qfloor (x + (1 # 2)).

(** The idiom [Math.round(x * 100) / 100] of the sources. *)
Definition round2 (x : Q) : Q := inject_Z (Math_round (x * 100)) / 100.

(** [a < b] on numbers. *)
Definition Qltb (a b : Q) : bool := negb (Qle_bool b a).

(** White space skipped by [parseInt] (code units below 256). *)
Definition isWhiteSpace (c : ascii) : bool :=
  let n := nat_of_ascii c in
  (((9 <=? n) && (n <=? 13)) || (n =? 32) || (n =? 160))%nat.

Definition digitValue (c : ascii) : option Z :=
  let n := Z.of_nat (nat_of_ascii c) in
  if (48 <=? n) && (n <=? 57) then Some (n - 48) else None.

Fixpoint trimStart (s : string) : string :=
  match s with
  | String c s' => if isWhiteSpace c then trimStart s' else s
  | EmptyString => EmptyString
  end.

(** Value of the longest prefix of decimal digits; [acc] is [None]
    until a digit has been read. *)
Fixpoint digitsValue (s : string) (acc : option Z) : option Z :=
  match s with
  | String c s' =>
      match digitValue c with
      | Some d =>
          digitsValue s' (Some (10 * match acc with Some a => a | None => 0 end + d))
      | None => acc
      end
  | EmptyString => acc
  end.

(** [parseInt(s, 10)]; [None] is [NaN]. *)
Definition parseInt (s : string) : option Z :=
  match trimStart s with
  | String "-" r => option_map Z.opp (digitsValue r None)
  | String "+" r => digitsValue r None
  | r => digitsValue r None
  end.

(** [s.split(sep)] for a one-character separator. *)
Fixpoint split (sep : ascii) (s : string) : list string :=
  match s with
  | EmptyString => [EmptyString]
  | String c s' =>
      if Ascii.eqb c sep then EmptyString :: split sep s'
      else match split sep s' with
           | h :: t => String c h :: t
           | [] => [String c EmptyString]
           end
  end.

(** [s.toUpperCase()] on the ASCII letters. *)
Definition upperChar (c : ascii) : ascii :=
  let n := nat_of_ascii c in
  if ((97 <=? n) && (n <=? 122))%nat then ascii_of_nat (n - 32) else c.

Fixpoint toUpperCase (s : string) : string :=
  match s with
  | EmptyString => EmptyString
  | String c s' => String (upperChar c) (toUpperCase s')
  end.

(** Truthiness of a string. *)
Definition truthy (s : string) : bool :=
  match s with EmptyString => false | _ => true end.

(** [xs.reduce((sum, d) => sum + d, 0)] on integers. *)
Definition sum (xs : list Z) : Z := fold_left Z.add xs 0.

(** [Math.min(...xs)], for a non-empty [xs] (the head seeds the fold). *)
Definition Math_min (x : Z) (xs : list Z) : Z := fold_left Z.min xs x.

(** [Array.prototype.sort] with a comparator that orders by [le]: the
    sort is stable, so its result is the one of a stable insertion sort
    (an element goes in front of the first element it is [le] to). *)
Section Sort.
Context {A : Type} (le : A -> A -> bool).

Fixpoint insertBy (x : A) (l : list A) : list A :=
  match l with
  | [] => [x]
  | y :: l' => if le x y then x :: l else y :: insertBy x l'
  end.

Definition sortBy (l : list A) : list A := fold_right insertBy [] l.
End Sort.

End Js.

(** ** src/ipTester.js *)

Module IpTester.
Import Js.

(** [isValidIp]: four dot-separated parts, each of which [parseInt]
    reads as a number in [0, 255]. *)
Definition validPart (part : string) : bool :=
  match parseInt part with
  | Some num => (0 <=? num) && (num <=? 255)
  | None => false
  end.

Definition isValidIp (ip : string) : bool :=
  let parts := split "." ip in
  if negb (Nat.eqb (List.length parts) 4) then false
  else forallb validPart parts.

(** Outcome of one [testTcpConnection(ip, port, 3000)]: the promise
    resolves with the delay in milliseconds, or rejects (time-out or
    socket error). *)
Inductive ConnResult : Type :=
| Connected (delay : Z)
| Rejected.

(** The network seen by one call of [testIpAvailability]: [net a i] is
    what [testTcpConnection] answers in ping attempt [a] for the [i]-th
    element of [testPorts], when the loop gets to it. *)
Definition Network : Type := nat -> nat -> ConnResult.

(** The accumulators of [testIpAvailability]. *)
Record ProbeState : Type := mkProbeState {
  allDelays : list Z;
  successCount : nat
}.

Definition validPort (port : Z) : bool :=
  negb ((port <? 1) || (port >? 65535)).

(** [Math.min(minDelay, delay)], [None] being [Infinity]. *)
Definition minWith (minDelay : option Z) (delay : Z) : Z :=
  match minDelay with
  | Some m => Z.min m delay
  | None => delay
  end.

(** The loop over [testPorts] of one ping attempt, from position [pos]
    on.  Returns the attempt's [minDelay] and the accumulators. *)
Fixpoint portLoop (conn : nat -> ConnResult) (pos : nat) (ports : list Z)
         (minDelay : option Z) (st : ProbeState) : option Z * ProbeState :=
  match ports with
  | [] => (minDelay, st)
  | port :: rest =>
      if negb (validPort port) then portLoop conn (S pos) rest minDelay st
      else
        match conn pos with
        | Connected delay =>
            let minDelay' := Some (minWith minDelay delay) in
            if delay <? 200 then
              (* push, count, break *)
              (minDelay',
               mkProbeState (allDelays st ++ [delay]) (S (successCount st)))
            else portLoop conn (S pos) rest minDelay' st
        | Rejected => portLoop conn (S pos) rest minDelay st
        end
  end.

(** One iteration of the loop over ping attempts. *)
Definition pingAttempt (conn : nat -> ConnResult) (ports : list Z)
           (st : ProbeState) : ProbeState :=
  let '(minDelay, st') := portLoop conn 0 ports None st in
  match minDelay with
  | None => mkProbeState (allDelays st' ++ [999]) (successCount st')
  | Some m => mkProbeState (allDelays st' ++ [m]) (successCount st')
  end.

(** [for (pingAttempt = a; pingAttempt < a + count; pingAttempt++)]. *)
Fixpoint pingLoop (net : Network) (ports : list Z) (a count : nat)
         (st : ProbeState) : ProbeState :=
  match count with
  | O => st
  | S count' => pingLoop net ports (S a) count' (pingAttempt (net a) ports st)
  end.

Record Availability : Type := mkAvailability {
  isAvailable : bool;
  minDelay : Z;
  avgDelay : Q;
  stability : Q
}.

Definition unavailable : Availability := mkAvailability false 0 0 0.

(** [allDelays.filter(d => d < 999)]. *)
Definition validDelaysOf (st : ProbeState) : list Z :=
  filter (fun d => d <? 999) (allDelays st).

(** The mean of the samples, before rounding. *)
Definition mean (xs : list Z) : Q :=
  inject_Z (sum xs) / inject_Z (Z.of_nat (List.length xs)).

(** [xs.reduce((sum, d) => sum + Math.pow(d - avg, 2), 0) / xs.length]. *)
Definition variance (xs : list Z) : Q :=
  let avg := mean xs in
  fold_left (fun acc d => acc + (inject_Z d - avg) ^ 2)%Q xs 0%Q
  / inject_Z (Z.of_nat (List.length xs)).

(** The statistics block at the end of [testIpAvailability]. *)
Definition summarize (st : ProbeState) : Availability :=
  if (0 <? successCount st)%nat then
    match validDelaysOf st with
    | d :: ds =>
        let validDelays := d :: ds in
        mkAvailability true (Math_min d ds)
                       (round2 (mean validDelays))
                       (round2 (variance validDelays))
    | [] => unavailable
    end
  else unavailable.

(** The accumulators after all ping attempts. *)
Definition probe (net : Network) (ports : list Z) (pingCount : nat) : ProbeState :=
  pingLoop net ports 0 pingCount (mkProbeState [] 0).

(** [testIpAvailability(ip, testPorts, pingCount)]; [testPorts] is
    [None] when it is missing or not an array. *)
Definition testIpAvailability (net : Network) (ip : string)
           (testPorts : option (list Z)) (pingCount : nat) : Availability :=
  if negb (isValidIp ip) then unavailable
  else
    match testPorts with
    | None => unavailable
    | Some ports => summarize (probe net ports pingCount)
    end.

End IpTester.

(** ** The bandwidth tester (second part of config/config.js) *)

Module BandwidthTester.
Import Js.

(** What the clock and the stream showed during one download: the
    instant before the request, the instant the response arrived, the
    instant the stream was done (ended, or destroyed by one of the two
    caps) and the bytes counted until then. *)
Record Transfer : Type := mkTransfer {
  startTime : Z;
  startDownload : Z;
  endTime : Z;
  dataDownloaded : Z
}.

(** Outcome of one [httpClient.get(url, ...)] and of reading its stream:
    the request throws, or a response arrives whose stream either emits
    an error ([None]) or is read as a [Transfer]. *)
Inductive Download : Type :=
| RequestThrew
| Response (status : Z) (body : option Transfer).

(** [dl a u] answers the request of test attempt [a] to [testUrls[u]]. *)
Definition Downloads : Type := nat -> nat -> Download.

(** The two endpoints of [testUrls], by index. *)
Definition testUrls : list nat := [0%nat; 1%nat].

Record Best : Type := mkBest {
  bestSpeed : Q;
  bestLatency : Z
}.

Record Bandwidth : Type := mkBandwidth {
  isFast : bool;
  bandwidth : Q;
  latency : Z
}.

(** The body of the loop over [testUrls]: [inl] is an early [return]. *)
Definition urlStep (d : Download) (b : Best) : Bandwidth + Best :=
  match d with
  | RequestThrew => inr b
  | Response status body =>
      if status =? 200 then
        match body with
        | None => inr b
        | Some t =>
            let downloadTime := (inject_Z (endTime t - startDownload t) / 1000)%Q in
            let latency := startDownload t - startTime t in
            if Qltb 0 downloadTime && (0 <? dataDownloaded t) then
              let speedMbps :=
                (inject_Z (dataDownloaded t * 8) / (downloadTime * 1000000))%Q in
              let bestSpeed' := Qmax (bestSpeed b) speedMbps in
              let bestLatency' :=
                if bestLatency b =? 0 then latency
                else Z.min (bestLatency b) latency in
              if Qltb 5 speedMbps
              then inl (mkBandwidth true bestSpeed' bestLatency')
              else inr (mkBest bestSpeed' bestLatency')
            else inr b
        end
      else inr b
  end.

Fixpoint urlLoop (dl : nat -> Download) (urls : list nat) (b : Best)
  : Bandwidth + Best :=
  match urls with
  | [] => inr b
  | u :: urls' =>
      match urlStep (dl u) b with
      | inl r => inl r
      | inr b' => urlLoop dl urls' b'
      end
  end.

(** [for (testAttempt = a; testAttempt < a + count; testAttempt++)]. *)
Fixpoint attemptLoop (dl : Downloads) (a count : nat) (b : Best)
  : Bandwidth + Best :=
  match count with
  | O => inr b
  | S count' =>
      match urlLoop (dl a) testUrls b with
      | inl r => inl r
      | inr b' => attemptLoop dl (S a) count' b'
      end
  end.

(** The fall-back of [testIpBandwidth] when no download was measured. *)
Definition latencyFallback (r : IpTester.Availability) : Bandwidth :=
  if IpTester.isAvailable r
  then mkBandwidth true 0 (IpTester.minDelay r)
  else mkBandwidth false 0 0.

(** [testIpBandwidth(ip, testSizeMb, testCount)].  [testSizeMb] only
    goes into the URLs; [net] answers the connects of the fall-back. *)
Definition testIpBandwidth (dl : Downloads) (net : IpTester.Network)
           (ip : string) (testCount : nat) : Bandwidth :=
  let parts := split "." ip in
  if negb (Nat.eqb (List.length parts) 4) || negb (forallb IpTester.validPart parts)
  then mkBandwidth false 0 0
  else
    match attemptLoop dl 0 testCount (mkBest 0 0) with
    | inl r => r
    | inr b =>
        if Qltb 0 (bestSpeed b)
        then mkBandwidth true (bestSpeed b) (bestLatency b)
        else latencyFallback (IpTester.testIpAvailability net ip (Some [443]) 1)
    end.

(** [calculateScore(minDelay, avgDelay, bandwidth, stability)], read
    over the real numbers; [Binary64.calculateScore] is the same
    expression as the run time evaluates it, and differs from this one
    by a hundredth where the composite is close to a tie of the
    rounding. *)
Definition calculateScore (minDelay avgDelay bandwidth stability : Q) : Q :=
  let latencyScore := Qmax 0 (100 - avgDelay / 2) in
  let bandwidthScore := Qmin 100 (bandwidth * 10) in
  let stabilityScore := Qmax 0 (100 - stability / 10) in
  let totalScore :=
    (latencyScore * (4 # 10) + bandwidthScore * (3 # 10)
     + stabilityScore * (3 # 10))%Q in
  round2 totalScore.

(** An element of the list given to [latencyFilterIps]. *)
Record IpLatency : Type := mkIpLatency {
  ip : string;
  minDelay : Q;
  avgDelay : Q;
  stability : Q
}.

(** The comparator [(a, b) => a.avgDelay - b.avgDelay] puts [a] first
    when the difference is not positive. *)
Definition byAvgDelay (a b : IpLatency) : bool :=
  Qle_bool (avgDelay a) (avgDelay b).

(** [latencyFilterIps(ipsWithLatency, percentage)], for a [percentage]
    that is a whole number, as the 30 of [config.js] is.  The product
    [sortedIps.length * percentage] is then a whole number, exact in
    binary64 below 2^53, and [Math.floor] of its binary64 quotient by 100
    is the quotient of the integers ([Z.div] rounds down as [Math.floor]
    does).  For a percentage with a fraction the run time floors a
    rounded product, which the integers do not follow; see
    [Binary64.keepCount]. *)
Definition latencyFilterIps (ipsWithLatency : list IpLatency) (percentage : Z)
  : list IpLatency :=
  match ipsWithLatency with
  | [] => ipsWithLatency
  | _ =>
      let sortedIps := sortBy byAvgDelay ipsWithLatency in
      let keepCount :=
        Z.max 1 (Z.of_nat (List.length sortedIps) * percentage / 100) in
      firstn (Z.to_nat keepCount) sortedIps
  end.

End BandwidthTester.

(** ** src/geoResolver.js *)

Module GeoResolver.
Import Js.

(** A value of [regionCache]: a plain string (the old format), or an
    object [{region, timestamp}].  A [timestamp] is an ISO-8601 string
    as [toISOString] writes it, represented by the instant it denotes in
    epoch milliseconds ([new Date] parses it back to that instant, and
    [localeCompare] orders two such strings as their instants); [None]
    is a missing or empty [timestamp]. *)
Inductive CacheValue : Type :=
| Legacy (code : string)
| Entry (region : string) (timestamp : option Z).

(** [regionCache]: an object from address to value.  Its own keys are
    kept in the order of insertion, which [Object.entries] shows. *)
Definition Cache : Type := list (string * CacheValue).

(** [cache[ip]]. *)
Fixpoint cacheGet (cache : Cache) (ip : string) : option CacheValue :=
  match cache with
  | [] => None
  | (k, v) :: cache' => if String.eqb k ip then Some v else cacheGet cache' ip
  end.

(** [cache[ip] = v]: in place for a key that exists, at the end for a
    new one. *)
Fixpoint cacheSet (cache : Cache) (ip : string) (v : CacheValue) : Cache :=
  match cache with
  | [] => [(ip, v)]
  | (k, v') :: cache' =>
      if String.eqb k ip then (k, v) :: cache'
      else (k, v') :: cacheSet cache' ip v
  end.

(** [delete cache[key]]. *)
Definition cacheDelete (cache : Cache) (key : string) : Cache :=
  filter (fun e => negb (String.eqb (fst e) key)) cache.

(** The age test of [isCacheValid] and [cleanExpiredCache]. *)
Definition diffHours (now cacheTime : Z) : Q :=
  (inject_Z (now - cacheTime) / inject_Z (1000 * 60 * 60))%Q.

(** [isCacheValid(timestamp, ttlHours)], the clock showing [now]. *)
Definition isCacheValid (now : Z) (timestamp : option Z) (ttlHours : Q) : bool :=
  match timestamp with
  | None => false
  | Some cacheTime => Qltb (diffHours now cacheTime) ttlHours
  end.

(** The JSON body of a geolocation reply, with the fields the code
    reads. *)
Record Body : Type := mkBody {
  country_code : option string;
  status : option string;
  countryCode : option string
}.

(** Outcome of one [httpClient.get(url)]. *)
Inductive HttpResult : Type :=
| HttpThrew
| HttpResponse (httpStatus : Z) (data : option Body).

(** The web: what a request of [url] sent at an instant is answered,
    and the instant the answer is there. *)
Record Reply : Type := mkReply {
  result : HttpResult;
  settledAt : Z
}.

Definition Http : Type := string -> Z -> Reply.

(** The state the module works on: the global [regionCache], the
    clock, and the requests sent so far. *)
Record World : Type := mkWorld {
  regionCache : Cache;
  clock : Z;
  requests : list string
}.

(** State passing. *)
Definition M (A : Type) : Type := World -> A * World.

Definition ret {A : Type} (a : A) : M A := fun w => (a, w).

Definition bind {A B : Type} (m : M A) (k : A -> M B) : M B :=
  fun w => let '(a, w') := m w in k a w'.

Notation "x <- m ;; k" := (bind m (fun x => k))
  (at level 61, m at next level, right associativity).
Notation "m ;;; k" := (bind m (fun _ => k))
  (at level 61, right associativity).

(** [new Date()]. *)
Definition getNow : M Z := fun w => (clock w, w).

Definition readCache (ip : string) : M (option CacheValue) :=
  fun w => (cacheGet (regionCache w) ip, w).

Definition writeCache (ip : string) (v : CacheValue) : M unit :=
  fun w => (tt, mkWorld (cacheSet (regionCache w) ip v) (clock w) (requests w)).

(** [await httpClient.get(url)]. *)
Definition httpGet (http : Http) (url : string) : M HttpResult :=
  fun w =>
    let reply := http url (clock w) in
    (result reply,
     mkWorld (regionCache w) (settledAt reply) (requests w ++ [url])).

(** What [getIpRegion] returns: a region code, or, for an object
    without [timestamp], the cached object itself. *)
Inductive Answer : Type :=
| Region (code : string)
| RawEntry (region : string).

Definition primaryUrl (ip : string) : string :=
  ("https://api.ipinfo.io/lite/" ++ ip ++ "?token=2cb674df499388")%string.

Definition secondaryUrl (ip : string) : string :=
  ("http://ip-api.com/json/" ++ ip ++ "?fields=countryCode")%string.

(** [code?.toUpperCase()], when it is truthy. *)
Definition upperCode (code : option string) : option string :=
  match code with
  | Some c => let u := toUpperCase c in if truthy u then Some u else None
  | None => None
  end.

(** The country code the first service gave, if the reply is good. *)
Definition primaryCode (r : HttpResult) : option string :=
  match r with
  | HttpResponse httpStatus (Some data) =>
      if httpStatus =? 200 then upperCode (country_code data) else None
  | _ => None
  end.

(** The country code the second service gave, if the reply is good. *)
Definition secondaryCode (r : HttpResult) : option string :=
  match r with
  | HttpResponse _ (Some data) =>
      match status data with
      | Some st => if String.eqb st "success" then upperCode (countryCode data) else None
      | None => None
      end
  | _ => None
  end.

(** [regionCache[ip] = {region, timestamp: new Date().toISOString()}]. *)
Definition store (ip region : string) : M unit :=
  now <- getNow ;;
  writeCache ip (Entry region (Some now)).

(** The part of [getIpRegion] that reads the cache: [Some] is an early
    [return]. *)
Definition cached (ip : string) (ttlHours : Q) : M (option Answer) :=
  cachedData <- readCache ip ;;
  match cachedData with
  | Some (Entry region (Some timestamp)) =>
      now <- getNow ;;
      if isCacheValid now (Some timestamp) ttlHours
      then ret (Some (Region region))
      else ret None
  | Some (Entry region None) => ret (Some (RawEntry region))
  | Some (Legacy code) =>
      if truthy code then ret (Some (Region code)) else ret None
  | None => ret None
  end.

(** The part of [getIpRegion] that asks the two services. *)
Definition lookup (http : Http) (ip : string) : M Answer :=
  r1 <- httpGet http (primaryUrl ip) ;;
  match primaryCode r1 with
  | Some countryCode => store ip countryCode ;;; ret (Region countryCode)
  | None =>
      r2 <- httpGet http (secondaryUrl ip) ;;
      match secondaryCode r2 with
      | Some countryCode => store ip countryCode ;;; ret (Region countryCode)
      | None => store ip "Unknown" ;;; ret (Region "Unknown")
      end
  end.

(** [getIpRegion(ip, apiTimeout, ttlHours)]; the time-out is part of
    what [http] answers. *)
Definition getIpRegion (http : Http) (ip : string) (ttlHours : Q) : M Answer :=
  hit <- cached ip ttlHours ;;
  match hit with
  | Some answer => ret answer
  | None => lookup http ip
  end.

(** The sort key [entry[1]?.timestamp || ''] of [cleanExpiredCache]. *)
Definition stampOf (e : string * CacheValue) : option Z :=
  match snd e with
  | Entry _ timestamp => timestamp
  | Legacy _ => None
  end.

(** The timestamps are the strings of [toISOString], and the sort of
    [cleanExpiredCache] compares the strings, not the instants.  The
    years 0000 to 9999 are written with four digits
    ([2024-05-01T10:20:30.000Z], 24 characters), the earlier years with
    [-] and six digits, the later years with [+] and six digits. *)
Definition year0000 : Z := -62167219200000.
Definition year10000 : Z := 253402300800000.

(** The year of an instant in the proleptic Gregorian calendar, UTC,
    counted by the 400-year cycle of 146097 days that starts on the
    first of March of the year 0. *)
Definition yearOf (t : Z) : Z :=
  let days := t / 86400000 in
  let z := days + 719468 in
  let era := z / 146097 in
  let doe := z - era * 146097 in
  let yoe := (doe - doe / 1460 + doe / 36524 - doe / 146096) / 365 in
  let doy := doe - (365 * yoe + yoe / 4 - yoe / 100) in
  let mp := (5 * doy + 2) / 153 in
  yoe + era * 400 + (if mp <? 10 then 0 else 1).

(** The place of the ISO string of an instant in the order of
    [localeCompare]: the signs come before the digits ([-] before [+] in
    the root collation), so the strings of the years from 10000 on sort
    before those of the years 0000 to 9999; strings of one layout
    compare digit by digit, which is the order of the instants, except
    that among the years before 0 a longer way back is a greater
    number after the [-]. *)
Definition isoKey (t : Z) : Z * Z * Z :=
  if t <? year0000 then (0, - yearOf t, t)
  else if t <? year10000 then (2, 0, t)
  else (1, 0, t).

Definition keyLeb (a b : Z * Z * Z) : bool :=
  let '(a1, a2, a3) := a in
  let '(b1, b2, b3) := b in
  (a1 <? b1) || ((a1 =? b1) && ((a2 <? b2) || ((a2 =? b2) && (a3 <=? b3)))).

(** [timeA.localeCompare(timeB) <= 0]: the empty string comes first. *)
Definition byStamp (a b : string * CacheValue) : bool :=
  match stampOf a, stampOf b with
  | None, _ => true
  | Some _, None => false
  | Some ta, Some tb => keyLeb (isoKey ta) (isoKey tb)
  end.

Definition expired (currentTime : Z) (ttlHours : Q) (e : string * CacheValue) : bool :=
  match snd e with
  | Entry _ (Some cacheTime) => Qle_bool ttlHours (diffHours currentTime cacheTime)
  | _ => false
  end.

Definition cacheSizeCap : nat := 1000.

(** The work of [cleanExpiredCache] on the cache, at [currentTime]. *)
Definition cleanCache (currentTime : Z) (ttlHours : Q) (cache : Cache) : Cache :=
  let expiredKeys := map fst (filter (expired currentTime ttlHours) cache) in
  let cache1 := fold_left cacheDelete expiredKeys cache in
  let cacheSize := List.length cache1 in
  if (cacheSizeCap <? cacheSize)%nat then
    let sortedEntries := sortBy byStamp cache1 in
    let itemsToRemove := (cacheSize - cacheSizeCap)%nat in
    fold_left cacheDelete (map fst (firstn itemsToRemove sortedEntries)) cache1
  else cache1.

(** [cleanExpiredCache(ttlHours)]. *)
Definition cleanExpiredCache (ttlHours : Q) : M unit :=
  fun w =>
    (tt, mkWorld (cleanCache (clock w) ttlHours (regionCache w))
                 (clock w) (requests w)).

End GeoResolver.

(** ** The arithmetic of the run time

    The same expressions on binary64 numbers, evaluated bit for bit as
    the run time evaluates them. *)

Module Binary64.
Local Open Scope float_scope.

Definition isNaN (x : float) : bool := negb (x =? x).

(** [Math.max(a, b)] and [Math.min(a, b)]. *)
Definition Math_max (a b : float) : float :=
  if isNaN a then a else if isNaN b then b else if a <? b then b else a.

Definition Math_min (a b : float) : float :=
  if isNaN a then a else if isNaN b then b else if b <? a then b else a.

(** 2^52: from there on every binary64 number is an integer. *)
Definition two52 : float := 4503599627370496.

(** [Math.floor(x)]: adding and taking away 2^52 rounds to an integer,
    which is then one too many or the floor. *)
Definition Math_floor (x : float) : float :=
  if isNaN x then x
  else if two52 <=? abs x then x
  else
    let t := if 0 <=? x then (x + two52) - two52 else (x - two52) + two52 in
    if x <? t then t - 1 else t.

(** [Math.round(x)]: the closest integer, ties towards plus infinity. *)
Definition Math_round (x : float) : float :=
  if isNaN x then x
  else if two52 <=? abs x then x
  else let f := Math_floor x in if 0.5 <=? x - f then f + 1 else f.

Definition round2 (x : float) : float := Math_round (x * 100) / 100.

(** An integer below 2^53 as a number, digit by digit. *)
Fixpoint ofPos (p : positive) : float :=
  match p with
  | xH => 1
  | xO p' => 2 * ofPos p'
  | xI p' => 2 * ofPos p' + 1
  end.

Definition ofZ (d : Z) : float :=
  match d with
  | Z0 => 0
  | Zpos p => ofPos p
  | Zneg p => - ofPos p
  end.


(** [Math.floor(length * percentage / 100)] of [latencyFilterIps]. *)
Definition keepCount (n : Z) (percentage : float) : float :=
  Math_floor (ofZ n * percentage / 100).

(** [calculateScore] of the bandwidth tester. *)
Definition calculateScore (minDelay avgDelay bandwidth stability : float) : float :=
  let latencyScore := Math_max 0 (100 - avgDelay / 2) in
  let bandwidthScore := Math_min 100 (bandwidth * 10) in
  let stabilityScore := Math_max 0 (100 - stability / 10) in
  let totalScore :=
    latencyScore * 0x1.999999999999ap-2 + bandwidthScore * 0x1.3333333333333p-2
    + stabilityScore * 0x1.3333333333333p-2 in
  round2 totalScore.

(** The [avgDelay] and the [stability] that [testIpAvailability] reports
    for the samples [validDelays]. *)
Definition mean (validDelays : list Z) : float :=
  fold_left (fun sum d => sum + ofZ d) validDelays 0
  / ofZ (Z.of_nat (List.length validDelays)).

Definition variance (validDelays : list Z) : float :=
  let avgDelay := mean validDelays in
  fold_left (fun sum d => sum + (ofZ d - avgDelay) * (ofZ d - avgDelay))
            validDelays 0
  / ofZ (Z.of_nat (List.length validDelays)).

End Binary64.

(** ** Notions the statements are written with *)

Module Notions.
Import Js.

Section Probing.
Import IpTester.

Definition emptyState : ProbeState := mkProbeState [] 0.

(** The [minDelay] of one ping attempt when its port loop is over:
    [None] is [Infinity], the attempt connected on no port. *)
Definition bestDelay (conn : nat -> ConnResult) (ports : list Z) : option Z :=
  fst (portLoop conn 0 ports None emptyState).

Definition connected (conn : nat -> ConnResult) (ports : list Z) : bool :=
  match bestDelay conn ports with Some _ => true | None => false end.

(** From position [pos] on, some configured, valid port answers the
    connect with a delay that is [good]. *)
Definition answers (good : Z -> Prop) (conn : nat -> ConnResult)
           (pos : nat) (ports : list Z) : Prop :=
  exists i port delay,
    nth_error ports i = Some port /\ validPort port = true /\
    conn (pos + i)%nat = Connected delay /\ good delay.

(** Some configured, valid port answers the connect. *)
Definition connectsOn (conn : nat -> ConnResult) (ports : list Z) : Prop :=
  answers (fun _ => True) conn 0 ports.

(** Some configured, valid port answers the connect in less than
    200 ms. *)
Definition connectsFast (conn : nat -> ConnResult) (ports : list Z) : Prop :=
  answers (fun delay => delay < 200) conn 0 ports.

(** What one ping attempt appends to [allDelays]. *)
Definition attemptSamples (conn : nat -> ConnResult) (ports : list Z) : list Z :=
  allDelays (pingAttempt conn ports emptyState).

(** The ping loop run over a chosen list of attempts only. *)
Definition pingOver (net : Network) (ports : list Z) (attempts : list nat)
           (st : ProbeState) : ProbeState :=
  fold_left (fun s a => pingAttempt (net a) ports s) attempts st.

(** The delays of the attempts that connected, one per attempt. *)
Definition successfulDelays (net : Network) (ports : list Z) (pingCount : nat)
  : list Z :=
  flat_map (fun a => match bestDelay (net a) ports with
                     | Some d => [d]
                     | None => []
                     end) (seq 0 pingCount).

(** Each sample taken twice. *)
Definition twice (xs : list Z) : list Z := flat_map (fun d => [d; d]) xs.

(** The sum of the squared deviations from [avg], added to [a]. *)
Definition squares (avg : Q) (xs : list Z) (a : Q) : Q :=
  fold_left (fun acc d => acc + (inject_Z d - avg) ^ 2)%Q xs a.

End Probing.

Section Downloading.
Import BandwidthTester.

(** The bytes one download brought. *)
Definition bytesOf (d : Download) : Z :=
  match d with
  | Response _ (Some t) => dataDownloaded t
  | _ => 0
  end.
End Downloading.

(** [y] is [x] rounded to two decimal places: a multiple of 1/100 at
    most half of 1/100 away. *)
Definition roundedTo2 (x y : Q) : Prop :=
  (exists k : Z, y == inject_Z k / 100)%Q /\ (Qabs (y - x) <= 1 # 200)%Q.

(** The composite score in the words of the specification, before
    rounding. *)
Definition weightedComposite (avgDelay bandwidth stability : Q) : Q :=
  (Qmax 0 (100 - avgDelay / 2) * (4 # 10)
   + Qmin 100 (bandwidth * 10) * (3 # 10)
   + Qmax 0 (100 - stability / 10) * (3 # 10))%Q.



(** The whole numbers from 0 to [n], each with its binary64 number. *)
Definition upTo (n : nat) : list (Z * float) :=
  map (fun k => (Z.of_nat k, Binary64.ofZ (Z.of_nat k))) (seq 0 (S n)).







(** On lists of up to [maxLength] candidates and whole percentages up
    to [maxPercentage], the binary64 [keepCount] is the quotient of the
    integers. *)
Definition countsAgree (maxLength maxPercentage : nat) : bool :=
  let percentages := upTo maxPercentage in
  forallb
    (fun n =>
       forallb
         (fun p =>
            Leibniz.eqb (Binary64.keepCount (fst n) (snd p))
                        (Binary64.ofZ (fst n * fst p / 100)))
         percentages)
    (upTo maxLength).

Definition msPerHour : Z := 3600000.


(** Boolean test that the elements of a list are pairwise different. *)
Fixpoint distinctb {A : Type} (eqb : A -> A -> bool) (l : list A) : bool :=
  match l with
  | [] => true
  | x :: l' => negb (existsb (eqb x) l') && distinctb eqb l'
  end.

End Notions.

(** ** Concrete runs *)

Module Scenario.
Import Js Notions.

Definition address : string := "203.0.113.5".

(** [testPorts] of [config/config.js]. *)
Definition testPorts : list Z := [443].

(** The first attempt connects in 50 ms, every later one is refused. *)
Definition netOnce : IpTester.Network :=
  fun a _ => match a with
             | O => IpTester.Connected 50
             | _ => IpTester.Rejected
             end.

(** Every connect takes 300 ms. *)
Definition netSlow : IpTester.Network := fun _ _ => IpTester.Connected 300.

(** The first attempt connects in 100 ms, every later one in 300 ms. *)
Definition netMixed : IpTester.Network :=
  fun a _ => match a with
             | O => IpTester.Connected 100
             | _ => IpTester.Connected 300
             end.

(** Every connect takes 50 ms. *)
Definition netFast : IpTester.Network := fun _ _ => IpTester.Connected 50.

(** The five attempts of the end-to-end scenario. *)
Definition scenarioDelays : list Z := [50; 52; 48; 51; 49].

Definition netScenario : IpTester.Network :=
  fun a _ => IpTester.Connected (nth a scenarioDelays 0).

(** Every download answers 200 after 120 ms and brings no byte until
    the ten-second cap. *)
Definition dlNothing : BandwidthTester.Downloads :=
  fun _ _ =>
    BandwidthTester.Response 200
      (Some (BandwidthTester.mkTransfer 0 120 10120 0)).

(** Four candidates, in ascending order of delay. *)
Definition candidate (name : string) (delay : Q) : BandwidthTester.IpLatency :=
  BandwidthTester.mkIpLatency name delay delay 0.

Definition fourCandidates : list BandwidthTester.IpLatency :=
  [ candidate "203.0.113.1" 10; candidate "203.0.113.2" 20;
    candidate "203.0.113.3" 30; candidate "203.0.113.4" 40 ].

(** A web on which every request throws after five seconds. *)
Definition webDown : GeoResolver.Http :=
  fun _ sent => GeoResolver.mkReply GeoResolver.HttpThrew (sent + 5000).

Definition emptyWorld : GeoResolver.World := GeoResolver.mkWorld [] 1000000 [].

Definition legacyWorld : GeoResolver.World :=
  GeoResolver.mkWorld [(address, GeoResolver.Legacy "US")] 1000000 [].

(** A cache of [n] stamped entries: entry [i] has the key
    [10.0.(i / 256).(i mod 256)] and was stamped at instant [i]. *)
Definition decimal (n : nat) : string :=
  DecimalString.NilZero.string_of_uint (Nat.to_uint n).

Definition keyOf (i : nat) : string :=
  ("10.0." ++ decimal (i / 256) ++ "." ++ decimal (i mod 256))%string.

Definition stampedCache (n : nat) : GeoResolver.Cache :=
  map (fun i => (keyOf i, GeoResolver.Entry "US" (Some (Z.of_nat i)))) (seq 0 n).



End Scenario.

(** ** src/ipTester.js: the quick filter and the batches *)

Module QuickFilter.
Import Js IpTester.

Record Quick : Type := mkQuick {
  isGood : bool;
  delay : Z
}.

(** The loop over [testPorts] of [quickFilterIp], from position [pos]
    on: [inl] is the early [return] on a delay below 200, [inr] the
    [minDelay] when the loop is over. *)
Fixpoint quickLoop (conn : nat -> ConnResult) (pos : nat) (ports : list Z)
         (minDelay : option Z) : Quick + option Z :=
  match ports with
  | [] => inr minDelay
  | port :: rest =>
      if negb (validPort port) then quickLoop conn (S pos) rest minDelay
      else
        match conn pos with
        | Connected delay =>
            let minDelay' := Some (minWith minDelay delay) in
            if delay <? 200 then inl (mkQuick true delay)
            else quickLoop conn (S pos) rest minDelay'
        | Rejected => quickLoop conn (S pos) rest minDelay
        end
  end.

(** [quickFilterIp(ip, testPorts)]; [conn i] answers the connect to the
    [i]-th element of [testPorts]. *)
Definition quickFilterIp (conn : nat -> ConnResult) (ip : string)
           (testPorts : option (list Z)) : Quick :=
  if negb (isValidIp ip) then mkQuick false 0
  else
    match testPorts with
    | None => mkQuick false 0
    | Some ports =>
        match quickLoop conn 0 ports None with
        | inl r => r
        | inr None =>
            (* [Infinity > 500] *)
            mkQuick false 0
        | inr (Some minDelay) =>
            if minDelay >? 500 then mkQuick false 0
            else mkQuick true minDelay
        end
    end.

(** The loop of [quickFilterIps] over the settled results, from index
    [i] on; [nets i] is the network the call for [ips[i]] sees. *)
Fixpoint quickFilterLoop (nets : nat -> nat -> ConnResult) (testPorts : option (list Z))
         (i : nat) (ips : list string) (filteredIps : list string) : list string :=
  match ips with
  | [] => filteredIps
  | ip :: rest =>
      if isGood (quickFilterIp (nets i) ip testPorts)
      then quickFilterLoop nets testPorts (S i) rest (filteredIps ++ [ip])
      else quickFilterLoop nets testPorts (S i) rest filteredIps
  end.

(** [quickFilterIps(ips, testPorts, maxWorkers)]. *)
Definition quickFilterIps (nets : nat -> nat -> ConnResult) (ips : list string)
           (testPorts : option (list Z)) : list string :=
  quickFilterLoop nets testPorts 0 ips [].

(** An element of the list [testIpsConcurrently] returns. *)
Record Tested : Type := mkTested {
  ip : string;
  minDelay : Z;
  avgDelay : Q;
  stability : Q
}.

(** [ips.slice(from, to)]. *)
Definition slice {A : Type} (l : list A) (from to : nat) : list A :=
  firstn (to - from) (skipn from l).

(** The loop over the settled results of one batch, [j] counting from
    the index [i] of the batch; [nets k] is the network the call for
    [ips[k]] sees. *)
Fixpoint batchResults (nets : nat -> Network) (testPorts : option (list Z))
         (k : nat) (batchIps : list string) (availableIps : list Tested)
  : list Tested :=
  match batchIps with
  | [] => availableIps
  | ip :: rest =>
      let r := testIpAvailability (nets k) ip testPorts 5 in
      if isAvailable r
      then batchResults nets testPorts (S k) rest
             (availableIps
              ++ [mkTested ip (IpTester.minDelay r) (IpTester.avgDelay r)
                           (IpTester.stability r)])
      else batchResults nets testPorts (S k) rest availableIps
  end.

(** [for (let i = ...; i < ips.length; i += batchSize)]: [None] when
    the loop is not over after [fuel] rounds. *)
Fixpoint batchLoop (fuel : nat) (nets : nat -> Network) (testPorts : option (list Z))
         (batchSize : nat) (ips : list string) (i : nat)
         (availableIps : list Tested) : option (list Tested) :=
  if (i <? List.length ips)%nat then
    match fuel with
    | O => None
    | S fuel' =>
        let batchIps := slice ips i (i + batchSize) in
        batchLoop fuel' nets testPorts batchSize ips (i + batchSize)
                  (batchResults nets testPorts i batchIps availableIps)
    end
  else Some availableIps.

(** [testIpsConcurrently(ips, testPorts, maxWorkers, batchSize)]. *)
Definition testIpsConcurrently (fuel : nat) (nets : nat -> Network)
           (ips : list string) (testPorts : option (list Z)) (batchSize : nat)
  : option (list Tested) :=
  batchLoop fuel nets testPorts batchSize ips 0 [].

End QuickFilter.

(** ** The bandwidth tester: the batch *)

Module BandwidthBatch.
Import Js BandwidthTester.

(** [testIpBandwidthOnly(ip, index, total, testSizeMb)]: the probe with
    three attempts; the index and the total go into the log. *)
Definition testIpBandwidthOnly (dl : Downloads) (net : IpTester.Network)
           (ip : string) : Bandwidth :=
  testIpBandwidth dl net ip 3.

(** An element of the list [batchBandwidthTest] returns. *)
Record Ranked : Type := mkRanked {
  ip : string;
  minDelay : Q;
  avgDelay : Q;
  stability : Q;
  bandwidth : Q;
  latency : Z;
  score : Q
}.

(** The loop of [batchBandwidthTest], from index [i] on; [dls i] and
    [nets i] answer the probe of [ipData[i]]. *)
Fixpoint bandwidthLoop (dls : nat -> Downloads) (nets : nat -> IpTester.Network)
         (i : nat) (ipData : list IpLatency) (bandwidthResults : list Ranked)
  : list Ranked :=
  match ipData with
  | [] => bandwidthResults
  | item :: rest =>
      let r := testIpBandwidthOnly (dls i) (nets i) (BandwidthTester.ip item) in
      if isFast r then
        let score :=
          calculateScore (BandwidthTester.minDelay item)
                         (BandwidthTester.avgDelay item)
                         (BandwidthTester.bandwidth r)
                         (BandwidthTester.stability item) in
        bandwidthLoop dls nets (S i) rest
          (bandwidthResults
           ++ [mkRanked (BandwidthTester.ip item) (BandwidthTester.minDelay item)
                        (BandwidthTester.avgDelay item)
                        (BandwidthTester.stability item)
                        (BandwidthTester.bandwidth r) (BandwidthTester.latency r)
                        score])
      else bandwidthLoop dls nets (S i) rest bandwidthResults
  end.

(** [batchBandwidthTest(ipData, testSizeMb)]. *)
Definition batchBandwidthTest (dls : nat -> Downloads)
           (nets : nat -> IpTester.Network) (ipData : list IpLatency)
  : list Ranked :=
  bandwidthLoop dls nets 0 ipData [].

End BandwidthBatch.

(** ** src/dnsResolver.js *)

Module DnsResolver.
Import Js.

(** The answers of the servers for the domain: [dns i t] is what
    [resolve4] gives at the server of index [i], at the first try
    ([t = 0]) and at the retry ([t = 1]); [None] is a throw. *)
Definition Dns : Type := nat -> nat -> option (list string).

(** The filter on the addresses a server returns. *)
Definition validAddress (ip : string) : bool :=
  let parts := split "." ip in
  Nat.eqb (List.length parts) 4 && forallb IpTester.validPart parts.

(** [allIps.add(ip)] on a [Set], kept in the order of insertion. *)
Definition setAdd (allIps : list string) (ip : string) : list string :=
  if existsb (String.eqb ip) allIps then allIps else allIps ++ [ip].

Record Resolution : Type := mkResolution {
  allIps : list string;
  successfulServers : list (string * string);
  failedServers : list (string * string)
}.

Definition criticalServers : list string :=
  ["223.5.5.5"; "223.6.6.6"; "119.29.29.29"]%string.

(** [successfulServers.push(...); validIps.forEach(ip => allIps.add(ip))]. *)
Definition succeed (entry : string * string) (validIps : list string)
           (st : Resolution) : Resolution :=
  mkResolution (fold_left setAdd validIps (allIps st))
               (successfulServers st ++ [entry]) (failedServers st).

(** [failedServers.push(...)]. *)
Definition fail (entry : string * string) (st : Resolution) : Resolution :=
  mkResolution (allIps st) (successfulServers st) (failedServers st ++ [entry]).

(** The body of the loop over the servers. *)
Definition queryServer (dns : Dns) (i : nat) (entry : string * string)
           (st : Resolution) : Resolution :=
  let dnsServer := fst entry in
  match dns i 0%nat with
  | Some ips =>
      let validIps := filter validAddress ips in
      if (0 <? List.length validIps)%nat then succeed entry validIps st
      else fail entry st
  | None =>
      let st1 := fail entry st in
      if existsb (String.eqb dnsServer) criticalServers then
        match dns i 1%nat with
        | Some ips =>
            let validIps := filter validAddress ips in
            if (0 <? List.length validIps)%nat then succeed entry validIps st1
            else st1
        | None => st1
        end
      else st1
  end.

Fixpoint serverLoop (dns : Dns) (i : nat) (serverEntries : list (string * string))
         (st : Resolution) : Resolution :=
  match serverEntries with
  | [] => st
  | entry :: rest => serverLoop dns (S i) rest (queryServer dns i entry st)
  end.

(** The state when the loop of [resolveDomain] is over: the addresses
    and the two lists that go into the log. *)
Definition resolveReport (dns : Dns) (dnsServers : list (string * string))
  : Resolution :=
  serverLoop dns 0 dnsServers (mkResolution [] [] []).

(** [resolveDomain(domain, dnsServers)]; [dnsServers] is the list of the
    entries of the object. *)
Definition resolveDomain (dns : Dns) (dnsServers : list (string * string))
  : list string :=
  allIps (resolveReport dns dnsServers).

End DnsResolver.

(** ** src/fileUtils.js: the list of domains *)

Module FileUtils.
Import Js.

(** [s.trimEnd()]. *)
Fixpoint trimEnd (s : string) : string :=
  match s with
  | EmptyString => EmptyString
  | String c s' =>
      match trimEnd s' with
      | EmptyString => if isWhiteSpace c then EmptyString else String c EmptyString
      | r => String c r
      end
  end.

(** [s.trim()]. *)
Definition trim (s : string) : string := trimEnd (trimStart s).

(** [s.startsWith(c)] for one character. *)
Definition startsWith (s : string) (c : ascii) : bool :=
  match s with
  | String x _ => Ascii.eqb x c
  | EmptyString => false
  end.

(** [s.split(sep)[0]]. *)
Definition firstPart (sep : ascii) (s : string) : string :=
  match split sep s with
  | part :: _ => part
  | [] => EmptyString
  end.

Definition newline : ascii := "010"%char.

(** The body of the loop over the lines: the domain the line gives, if
    it gives one. *)
Definition domainOf (line : string) : option string :=
  let trimmedLine := trim line in
  if truthy trimmedLine && negb (startsWith trimmedLine "#") then
    let domain := trim (firstPart "#" trimmedLine) in
    if truthy domain then Some domain else None
  else None.

Fixpoint lineLoop (lines : list string) (domains : list string) : list string :=
  match lines with
  | [] => domains
  | line :: rest =>
      match domainOf line with
      | Some domain => lineLoop rest (domains ++ [domain])
      | None => lineLoop rest domains
      end
  end.

(** [loadDomainList()]; [file] is the text of [config/YXhost-lite.txt],
    [None] when the file is missing or cannot be read. *)
Definition loadDomainList (file : option string) : list string :=
  match file with
  | Some data => lineLoop (split newline data) []
  | None => []
  end.

End FileUtils.

(** ** src/geoResolver.js: the pass over a list of addresses *)

Module GeoBatch.
Import Js GeoResolver.

(** The timers: [timer t ms] is the instant a [setTimeout(resolve, ms)]
    started at the instant [t] resolves. *)
Definition Timer : Type := Z -> Z -> Z.

(** [await new Promise(resolve => setTimeout(resolve, ms))]. *)
Definition sleep (timer : Timer) (ms : Z) : M unit :=
  fun w => (tt, mkWorld (regionCache w) (timer (clock w) ms) (requests w)).

(** An element of [ipData]. *)
Record Measured : Type := mkMeasured {
  ip : string;
  minDelay : Q;
  avgDelay : Q
}.

(** An element of the list [getRegionsConcurrently] returns. *)
Record Located : Type := mkLocated {
  locatedIp : string;
  regionCode : Answer;
  locatedMinDelay : Q;
  locatedAvgDelay : Q
}.

(** The first loop of [getRegionsConcurrently], from index [i] on. *)
Fixpoint regionLoop (http : Http) (timer : Timer) (queryInterval : Z)
         (i : nat) (ipData : list Measured) (results : list Located)
  : M (list Located) :=
  match ipData with
  | [] => ret results
  | item :: rest =>
      bind (getIpRegion http (ip item) 168)
           (fun code =>
              let results' :=
                results ++ [mkLocated (ip item) code (minDelay item) (avgDelay item)] in
              bind (if ((i + 1) mod 10 =? 0)%nat then sleep timer queryInterval
                    else ret tt)
                   (fun _ => regionLoop http timer queryInterval (S i) rest results'))
  end.

(** [getRegionsConcurrently(ipData, maxWorkers, queryInterval)]; the
    second loop only writes the log. *)
Definition getRegionsConcurrently (http : Http) (timer : Timer)
           (ipData : list Measured) (queryInterval : Z) : M (list Located) :=
  regionLoop http timer queryInterval 0 ipData [].

End GeoBatch.

(** ** Further notions *)

Module Notions2.
Import Js IpTester QuickFilter.

(** [l1] is [l2] with some elements left out. *)
Inductive Subseq {A : Type} : list A -> list A -> Prop :=
| Subseq_nil : Subseq [] []
| Subseq_skip : forall x l1 l2, Subseq l1 l2 -> Subseq l1 (x :: l2)
| Subseq_keep : forall x l1 l2, Subseq l1 l2 -> Subseq (x :: l1) (x :: l2).

(** The available addresses of [ips], with their statistics, one after
    the other, the first one having the index [k]. *)
Fixpoint availableFrom (nets : nat -> Network) (testPorts : option (list Z))
         (k : nat) (ips : list string) : list Tested :=
  match ips with
  | [] => []
  | ip :: rest =>
      let r := testIpAvailability (nets k) ip testPorts 5 in
      (if isAvailable r
       then [mkTested ip (IpTester.minDelay r) (IpTester.avgDelay r)
                      (IpTester.stability r)]
       else [])
      ++ availableFrom nets testPorts (S k) rest
  end.

(** The elements of a list, each with its index, the first one having
    the index [i]. *)
Definition indexed {A : Type} (i : nat) (l : list A) : list (nat * A) :=
  combine (seq i (List.length l)) l.

(** The addresses of [ips] that [quickFilterIp] accepts, each with its
    index; [nets j] answers the call for [ips[j]]. *)
Definition accepted (nets : nat -> nat -> ConnResult) (testPorts : option (list Z))
           (ips : list string) : list (nat * string) :=
  filter (fun ji => isGood (quickFilterIp (nets (fst ji)) (snd ji) testPorts))
         (indexed 0 ips).

(** The probe of the candidate [item] at the index [j]. *)
Definition probeOf (dls : nat -> BandwidthTester.Downloads) (nets : nat -> Network)
           (ji : nat * BandwidthTester.IpLatency) : BandwidthTester.Bandwidth :=
  BandwidthTester.testIpBandwidth (dls (fst ji)) (nets (fst ji))
                                  (BandwidthTester.ip (snd ji)) 3.

(** The candidates whose probe is fast, each with its index. *)
Definition fastCandidates (dls : nat -> BandwidthTester.Downloads)
           (nets : nat -> Network) (ipData : list BandwidthTester.IpLatency)
  : list (nat * BandwidthTester.IpLatency) :=
  filter (fun ji => BandwidthTester.isFast (probeOf dls nets ji)) (indexed 0 ipData).

(** [r] is the record of the candidate [snd ji] and of its probe: the
    address, the delays and the stability of the candidate, the
    bandwidth and the latency of the probe. *)
Definition recordOf (dls : nat -> BandwidthTester.Downloads) (nets : nat -> Network)
           (r : BandwidthBatch.Ranked) (ji : nat * BandwidthTester.IpLatency) : Prop :=
  BandwidthBatch.ip r = BandwidthTester.ip (snd ji)
  /\ BandwidthBatch.minDelay r = BandwidthTester.minDelay (snd ji)
  /\ BandwidthBatch.avgDelay r = BandwidthTester.avgDelay (snd ji)
  /\ BandwidthBatch.stability r = BandwidthTester.stability (snd ji)
  /\ BandwidthBatch.bandwidth r = BandwidthTester.bandwidth (probeOf dls nets ji)
  /\ BandwidthBatch.latency r = BandwidthTester.latency (probeOf dls nets ji).

(** The speed in Mbps that one download shows, when it is measured: the
    status is 200, the stream is read, time has passed and bytes have
    come. *)
Definition speedOf (d : BandwidthTester.Download) : option Q :=
  match d with
  | BandwidthTester.Response status (Some t) =>
      let downloadTime :=
        (inject_Z (BandwidthTester.endTime t - BandwidthTester.startDownload t)
         / 1000)%Q in
      if (status =? 200) && Qltb 0 downloadTime
         && (0 <? BandwidthTester.dataDownloaded t)
      then Some (inject_Z (BandwidthTester.dataDownloaded t * 8)
                 / (downloadTime * 1000000))%Q
      else None
  | _ => None
  end.

(** The server of index [i] gives the address [ip]: at the first try,
    or, for a critical server whose first try throws, at the retry. *)
Definition gives (dns : DnsResolver.Dns) (i : nat) (entry : string * string)
           (ip : string) : Prop :=
  (exists ips, dns i 0%nat = Some ips /\ In ip ips)
  \/ (dns i 0%nat = None /\ In (fst entry) DnsResolver.criticalServers
      /\ exists ips, dns i 1%nat = Some ips /\ In ip ips).

(** The first try at the server of index [i] throws or gives no valid
    address. *)
Definition firstTryFails (dns : DnsResolver.Dns) (i : nat) : bool :=
  match dns i 0%nat with
  | Some ips => negb (0 <? List.length (filter DnsResolver.validAddress ips))%nat
  | None => true
  end.

(** The first try at the server of index [i] throws, the server is
    critical, and its retry gives a valid address. *)
Definition retrySucceeds (dns : DnsResolver.Dns) (ie : nat * (string * string))
  : bool :=
  match dns (fst ie) 0%nat with
  | Some _ => false
  | None =>
      existsb (String.eqb (fst (snd ie))) DnsResolver.criticalServers
      && match dns (fst ie) 1%nat with
         | Some ips => (0 <? List.length (filter DnsResolver.validAddress ips))%nat
         | None => false
         end
  end.

(** The address written with four numbers in decimal. *)
Definition dotted (a b c d : nat) : string :=
  (Scenario.decimal a ++ "." ++ Scenario.decimal b ++ "."
   ++ Scenario.decimal c ++ "." ++ Scenario.decimal d)%string.

(** Every character is a decimal digit. *)
Fixpoint allDigits (s : string) : bool :=
  match s with
  | EmptyString => true
  | String c s' =>
      match digitValue c with Some _ => allDigits s' | None => false end
  end.

(** The character [c] occurs in [s]. *)
Fixpoint hasChar (c : ascii) (s : string) : bool :=
  match s with
  | EmptyString => false
  | String x s' => Ascii.eqb x c || hasChar c s'
  end.

(** The line is neither blank nor a comment. *)
Definition isEntry (line : string) : bool :=
  truthy (FileUtils.trim line)
  && negb (FileUtils.startsWith (FileUtils.trim line) "#").

(** What the cache answers for [ip] at the instant [now], if it
    answers. *)
Definition cachedAnswer (cache : GeoResolver.Cache) (now : Z) (ip : string)
           (ttlHours : Q) : option GeoResolver.Answer :=
  match GeoResolver.cacheGet cache ip with
  | Some (GeoResolver.Entry region (Some timestamp)) =>
      if GeoResolver.isCacheValid now (Some timestamp) ttlHours
      then Some (GeoResolver.Region region)
      else None
  | Some (GeoResolver.Entry region None) => Some (GeoResolver.RawEntry region)
  | Some (GeoResolver.Legacy code) =>
      if truthy code then Some (GeoResolver.Region code) else None
  | None => None
  end.

(** The value is one that the cache can answer with: an object, or a
    plain string that is not empty. *)
Definition answerable (v : option GeoResolver.CacheValue) : Prop :=
  match v with
  | Some (GeoResolver.Legacy code) => code <> ""%string
  | Some (GeoResolver.Entry _ _) => True
  | None => False
  end.

(** The answer an answerable value gives while it is fresh. *)
Definition answerOf (v : option GeoResolver.CacheValue) : GeoResolver.Answer :=
  match v with
  | Some (GeoResolver.Entry region (Some _)) => GeoResolver.Region region
  | Some (GeoResolver.Entry region None) => GeoResolver.RawEntry region
  | Some (GeoResolver.Legacy code) => GeoResolver.Region code
  | None => GeoResolver.Region ""
  end.

(** The clock after [k] addresses of a pass that starts at the index
    [i] and the instant [t] and sends no request: only the timers move
    it. *)
Fixpoint clockAfter (timer : GeoBatch.Timer) (ms : Z) (t : Z) (i k : nat) : Z :=
  match k with
  | O => t
  | S k' =>
      clockAfter timer ms (if ((i + 1) mod 10 =? 0)%nat then timer t ms else t)
                 (S i) k'
  end.

End Notions2.

(** Concrete inputs on which the properties of Part III are exercised. *)
Module Cases.
Import Js.

(** One week and one second after instant 0, in milliseconds. *)
Definition weekLater : Z := 168 * 3600000 + 1000.

(** An old plain-string entry, an entry stamped at instant 0, and one
    stamped a quarter of an hour later. *)
Definition mixedCache : GeoResolver.Cache :=
  [ ("192.0.2.1", GeoResolver.Legacy "US");
    ("192.0.2.2", GeoResolver.Entry "DE" (Some 0));
    ("192.0.2.3", GeoResolver.Entry "JP" (Some 900000)) ]%string.

Definition mixedWorld : GeoResolver.World :=
  GeoResolver.mkWorld mixedCache weekLater [].

(** Two plain-string entries before 999 stamped ones: one entry over
    the cap. *)
Definition crowdedCache : GeoResolver.Cache :=
  [ ("192.0.2.1", GeoResolver.Legacy "US");
    ("192.0.2.2", GeoResolver.Legacy "DE") ]%string
  ++ Scenario.stampedCache 999.

Definition crowdedWorld : GeoResolver.World :=
  GeoResolver.mkWorld crowdedCache 5000 [].

(** A port that always connects in 300 ms. *)
Definition connSlow : nat -> IpTester.ConnResult := fun _ => IpTester.Connected 300.

Definition twoAddresses : list string := [Scenario.address; "203.0.113.6"%string].

(** A file of two lines: a comment, and a domain with a remark. *)
Definition domainFile : string :=
  ("# preferred" ++ String FileUtils.newline
                           ("  example.com  # main" ++ String FileUtils.newline ""))%string.

(** A timer that fires exactly on time. *)
Definition punctual : GeoBatch.Timer := fun t ms => t + ms.

Definition oneMeasured : list GeoBatch.Measured :=
  [GeoBatch.mkMeasured Scenario.address 0 0].

End Cases.

(* ================================================================== *)
(** * Part II: the properties                                          *)
(* ================================================================== *)

Import Js Notions.

(** ** Numbers and sorting *)

Lemma Math_round_bounds (y : Q) :
  (y - (1 # 2) < inject_Z (Math_round y) /\ inject_Z (Math_round y) <= y + (1 # 2))%Q.
Proof.
  unfold Math_round.
  pose proof (Qfloor_le (y + (1 # 2))) as Hle.
  pose proof (Qlt_floor (y + (1 # 2))) as Hlt.
  rewrite inject_Z_plus in Hlt. change (inject_Z 1) with 1%Q in Hlt.
  set (k := inject_Z (Qfloor (y + (1 # 2)))) in *.
  split; lra.
Qed.

Lemma round2_rounds (x : Q) : roundedTo2 x (round2 x).
Proof.
  split.
  - exists (Math_round (x * 100)). reflexivity.
  - unfold round2.
    destruct (Math_round_bounds (x * 100)) as [Hlo Hhi].
    set (k := inject_Z (Math_round (x * 100))) in *.
    unfold Qdiv. change (/ 100)%Q with (1 # 100)%Q.
    apply Qabs_Qle_condition. split; lra.
Qed.

Lemma Qltb_lt (a b : Q) : Qltb a b = true <-> (a < b)%Q.
Proof.
  unfold Qltb. rewrite negb_true_iff. split.
  - intros H. apply Qnot_le_lt. intros Hle.
    apply Qle_bool_iff in Hle. congruence.
  - intros H. destruct (Qle_bool b a) eqn:E; [|reflexivity].
    apply Qle_bool_iff in E. exfalso. exact (Qlt_not_le _ _ H E).
Qed.

Section SortFacts.
Context {A : Type} (le : A -> A -> bool).

Lemma insertBy_perm (x : A) (l : list A) :
  Permutation (insertBy le x l) (x :: l).
Proof.
  induction l as [|y l IH]; simpl.
  - reflexivity.
  - destruct (le x y).
    + reflexivity.
    + rewrite IH. apply perm_swap.
Qed.

Lemma sortBy_perm (l : list A) : Permutation (sortBy le l) l.
Proof.
  induction l as [|x l IH]; simpl.
  - reflexivity.
  - rewrite insertBy_perm. now constructor.
Qed.

Lemma sortBy_length (l : list A) : List.length (sortBy le l) = List.length l.
Proof. apply Permutation_length, sortBy_perm. Qed.

Hypothesis le_total : forall a b, le a b = true \/ le b a = true.
Hypothesis le_trans : forall a b c, le a b = true -> le b c = true -> le a c = true.

Lemma insertBy_sorted (x : A) (l : list A) :
  StronglySorted (fun a b => le a b = true) l ->
  StronglySorted (fun a b => le a b = true) (insertBy le x l).
Proof.
  induction 1 as [|y l Hs IH Hall]; simpl.
  - repeat constructor.
  - destruct (le x y) eqn:E.
    + constructor; [now constructor|].
      constructor; [exact E|].
      eapply Forall_impl; [|exact Hall].
      intros z Hz. exact (le_trans _ _ _ E Hz).
    + constructor; [exact IH|].
      rewrite insertBy_perm.
      constructor; [|exact Hall].
      destruct (le_total x y) as [H|H]; [congruence|exact H].
Qed.

Lemma sortBy_sorted (l : list A) :
  StronglySorted (fun a b => le a b = true) (sortBy le l).
Proof.
  induction l as [|x l IH]; simpl.
  - constructor.
  - now apply insertBy_sorted.
Qed.
End SortFacts.

(** ** Lists *)

Lemma StronglySorted_weaken {A : Type} (R R' : A -> A -> Prop) (l : list A) :
  (forall a b, R a b -> R' a b) -> StronglySorted R l -> StronglySorted R' l.
Proof.
  intros HR. induction 1 as [|x l Hs IH Hall]; constructor.
  - exact IH.
  - eapply Forall_impl; [|exact Hall]. intros y. apply HR.
Qed.

Lemma StronglySorted_app_cross {A : Type} (R : A -> A -> Prop) (l1 l2 : list A) :
  StronglySorted R (l1 ++ l2) ->
  forall x y, In x l1 -> In y l2 -> R x y.
Proof.
  induction l1 as [|a l1 IH]; simpl; intros Hs x y Hx Hy.
  - destruct Hx.
  - inversion Hs as [|? ? Hs' Hall]; subst.
    destruct Hx as [<-|Hx].
    + rewrite Forall_forall in Hall. apply Hall, in_or_app. now right.
    + now apply IH.
Qed.

Lemma NoDup_map_injective {A B : Type} (f : A -> B) (l : list A) :
  NoDup (map f l) ->
  forall x y, In x l -> In y l -> f x = f y -> x = y.
Proof.
  induction l as [|a l IH]; simpl; intros Hnd x y Hx Hy Hf.
  - destruct Hx.
  - inversion Hnd as [|? ? Hnotin Hnd']; subst.
    destruct Hx as [<-|Hx], Hy as [<-|Hy]; auto.
    + exfalso. apply Hnotin. rewrite Hf. now apply in_map.
    + exfalso. apply Hnotin. rewrite <- Hf. now apply in_map.
Qed.

Lemma distinctb_NoDup {A : Type} (eqb : A -> A -> bool) (l : list A) :
  (forall x y, eqb x y = true <-> x = y) ->
  distinctb eqb l = true -> NoDup l.
Proof.
  intros Heqb. induction l as [|x l IH]; simpl; intros H.
  - constructor.
  - apply andb_true_iff in H as [Hx Hl]. constructor; [|now apply IH].
    intros Hin. apply negb_true_iff in Hx.
    assert (existsb (eqb x) l = true); [|congruence].
    apply existsb_exists. exists x. split; [exact Hin|]. now apply Heqb.
Qed.


(** ** The composite score *)

(** In exact arithmetic [calculateScore] is the weighted composite of
    the three components rounded to two decimal places, whatever its
    arguments. *)
Lemma calculateScore_rounds_composite (minDelay avgDelay bandwidth stability : Q) :
  roundedTo2 (weightedComposite avgDelay bandwidth stability)
             (BandwidthTester.calculateScore minDelay avgDelay bandwidth stability).
Proof.
  unfold BandwidthTester.calculateScore, weightedComposite.
  apply round2_rounds.
Qed.







(** Two binary64 numbers that [Leibniz.eqb] does not tell apart are the
    same number. *)
Lemma float_eqb_eq (x y : float) : Leibniz.eqb x y = true -> x = y.
Proof. apply FloatAxioms.Leibniz.eqb_spec. Qed.

Lemma upTo_In (n : nat) (a : Z) :
  0 <= a <= Z.of_nat n -> In (a, Binary64.ofZ a) (upTo n).
Proof.
  intros Ha. unfold upTo. apply in_map_iff. exists (Z.to_nat a).
  rewrite Z2Nat.id by lia. split; [reflexivity|]. apply in_seq. lia.
Qed.







(** ** Freshness of a cache entry *)

Lemma diffHours_lt (now ts : Z) (ttl : Q) :
  (GeoResolver.diffHours now ts < ttl)%Q <->
  (inject_Z (now - ts) < ttl * inject_Z msPerHour)%Q.
Proof.
  unfold GeoResolver.diffHours, Qdiv.
  change (/ inject_Z (1000 * 60 * 60))%Q with (1 # 3600000)%Q.
  change (inject_Z msPerHour) with 3600000%Q.
  set (d := inject_Z (now - ts)).
  split; intros H; lra.
Qed.

Lemma isCacheValid_iff (now ts : Z) (ttl : Q) :
  GeoResolver.isCacheValid now (Some ts) ttl = true <->
  (inject_Z (now - ts) < ttl * inject_Z msPerHour)%Q.
Proof.
  unfold GeoResolver.isCacheValid. rewrite Qltb_lt. apply diffHours_lt.
Qed.

(** C9: with [ttlHours = 24], [isCacheValid] holds exactly when the
    timestamp is less than 24 hours old; at exactly 24 hours it is
    false. *)
Theorem isCacheValid_24h (now timestamp : Z) :
  (GeoResolver.isCacheValid now (Some timestamp) 24 = true <->
   now - timestamp < 24 * msPerHour)
  /\ GeoResolver.isCacheValid (timestamp + 24 * msPerHour) (Some timestamp) 24 = false.
Proof.
  split.
  - rewrite isCacheValid_iff.
    change (24 * inject_Z msPerHour)%Q with (inject_Z (24 * msPerHour)).
    rewrite <- Zlt_Qlt. reflexivity.
  - apply not_true_is_false. rewrite isCacheValid_iff.
    change (24 * inject_Z msPerHour)%Q with (inject_Z (24 * msPerHour)).
    rewrite <- Zlt_Qlt. lia.
Qed.

(** ** The stability pass of [testIpAvailability] *)

Section ProbeLoops.
Import IpTester.

Lemma probeState_eta (st : ProbeState) :
  mkProbeState (allDelays st ++ []) (successCount st + 0) = st.
Proof. destruct st; simpl. now rewrite app_nil_r, Nat.add_0_r. Qed.

(** The port loop only appends to the accumulators. *)
Lemma portLoop_frame (conn : nat -> ConnResult) (ports : list Z) :
  forall pos m st,
    portLoop conn pos ports m st =
    (fst (portLoop conn pos ports m emptyState),
     mkProbeState
       (allDelays st ++ allDelays (snd (portLoop conn pos ports m emptyState)))
       (successCount st + successCount (snd (portLoop conn pos ports m emptyState)))).
Proof.
  induction ports as [|port rest IH]; intros pos m st; simpl.
  - now rewrite probeState_eta.
  - destruct (validPort port); simpl; [|apply IH].
    destruct (conn pos) as [delay|]; [|apply IH].
    destruct (delay <? 200); [|apply IH].
    simpl. now rewrite Nat.add_1_r.
Qed.

(** What the port loop leaves, started on empty accumulators with a
    running minimum that is not below 200. *)
Lemma portLoop_shape (conn : nat -> ConnResult) (ports : list Z) :
  forall pos m,
    (forall x, m = Some x -> 200 <= x) ->
    (snd (portLoop conn pos ports m emptyState) = emptyState /\
     forall x, fst (portLoop conn pos ports m emptyState) = Some x -> 200 <= x)
    \/ (exists d, d < 200 /\
                  portLoop conn pos ports m emptyState = (Some d, mkProbeState [d] 1)).
Proof.
  induction ports as [|port rest IH]; intros pos m Hm; simpl.
  - left. split; [reflexivity|exact Hm].
  - destruct (validPort port); simpl; [|now apply IH].
    destruct (conn pos) as [delay|]; [|now apply IH].
    destruct (delay <? 200) eqn:E.
    + right. exists delay. apply Z.ltb_lt in E. split; [exact E|].
      simpl. f_equal. f_equal. destruct m as [x|]; simpl; [|reflexivity].
      specialize (Hm x eq_refl). lia.
    + apply IH. intros x Hx. injection Hx as <-.
      apply Z.ltb_ge in E. destruct m as [y|]; simpl; [|exact E].
      specialize (Hm y eq_refl). lia.
Qed.

(** The three ways a ping attempt can go. *)
Lemma pingAttempt_cases (conn : nat -> ConnResult) (ports : list Z) :
  (bestDelay conn ports = None /\
   pingAttempt conn ports emptyState = mkProbeState [999] 0)
  \/ (exists m, 200 <= m /\ bestDelay conn ports = Some m /\
                pingAttempt conn ports emptyState = mkProbeState [m] 0)
  \/ (exists d, d < 200 /\ bestDelay conn ports = Some d /\
                pingAttempt conn ports emptyState = mkProbeState [d; d] 1).
Proof.
  unfold bestDelay, pingAttempt.
  destruct (portLoop_shape conn ports 0 None) as [[Hs Hm]|[d [Hd Heq]]].
  - discriminate.
  - destruct (portLoop conn 0 ports None emptyState) as [m st] eqn:E.
    simpl in *. subst st. destruct m as [m|].
    + right. left. exists m. auto.
    + left. auto.
  - right. right. exists d. rewrite Heq. simpl. auto.
Qed.

Lemma pingAttempt_frame (conn : nat -> ConnResult) (ports : list Z) (st : ProbeState) :
  pingAttempt conn ports st =
  mkProbeState (allDelays st ++ attemptSamples conn ports)
               (successCount st + successCount (pingAttempt conn ports emptyState)).
Proof.
  unfold attemptSamples, pingAttempt.
  rewrite (portLoop_frame conn ports 0 None st).
  destruct (portLoop conn 0 ports None emptyState) as [m s0]. simpl.
  destruct m; simpl; now rewrite <- app_assoc.
Qed.

Lemma pingLoop_pingOver (net : Network) (ports : list Z) :
  forall count a st,
    pingLoop net ports a count st = pingOver net ports (seq a count) st.
Proof.
  induction count as [|count IH]; intros a st; simpl.
  - reflexivity.
  - apply IH.
Qed.

Lemma pingOver_allDelays (net : Network) (ports : list Z) :
  forall attempts st,
    allDelays (pingOver net ports attempts st) =
    allDelays st ++ flat_map (fun a => attemptSamples (net a) ports) attempts.
Proof.
  induction attempts as [|a attempts IH]; intros st; simpl.
  - now rewrite app_nil_r.
  - unfold pingOver in *. simpl. rewrite IH, pingAttempt_frame. simpl.
    now rewrite <- app_assoc.
Qed.

Lemma pingOver_successCount (net : Network) (ports : list Z) :
  forall attempts st,
    successCount (pingOver net ports attempts st) =
    (successCount st +
     list_sum (map (fun a => successCount (pingAttempt (net a) ports emptyState))
                   attempts))%nat.
Proof.
  induction attempts as [|a attempts IH]; intros st; simpl.
  - now rewrite Nat.add_0_r.
  - unfold pingOver in *. simpl. rewrite IH, pingAttempt_frame. simpl.
    now rewrite Nat.add_assoc.
Qed.
End ProbeLoops.

Section ProbeConnects.
Import IpTester.

Lemma answers_nil good conn pos : ~ answers good conn pos [].
Proof. intros (i & port & d & H & _). destruct i; discriminate. Qed.

Lemma answers_cons good conn pos port rest :
  answers good conn pos (port :: rest) <->
  (validPort port = true /\ exists d, conn pos = Connected d /\ good d)
  \/ answers good conn (S pos) rest.
Proof.
  split.
  - intros (i & p & d & Hnth & Hv & Hc & Hg). destruct i as [|i]; simpl in Hnth.
    + injection Hnth as <-. rewrite Nat.add_0_r in Hc. left. eauto.
    + right. exists i, p, d. rewrite Nat.add_succ_r in Hc. auto.
  - intros [[Hv (d & Hc & Hg)]|(i & p & d & Hnth & Hv & Hc & Hg)].
    + exists 0%nat, port, d. rewrite Nat.add_0_r. auto.
    + exists (S i), p, d. rewrite Nat.add_succ_r. auto.
Qed.

Lemma portLoop_None_iff (conn : nat -> ConnResult) (ports : list Z) :
  forall pos m,
    fst (portLoop conn pos ports m emptyState) = None <->
    m = None /\ ~ answers (fun _ => True) conn pos ports.
Proof.
  induction ports as [|port rest IH]; intros pos m; simpl.
  - split; [intros ->; split; [reflexivity|apply answers_nil] | now intros [-> _]].
  - rewrite answers_cons.
    destruct (validPort port); simpl.
    + destruct (conn pos) as [delay|] eqn:Ec.
      * destruct (delay <? 200); simpl.
        -- split; [discriminate|]. intros [_ H]. exfalso. apply H. left. eauto.
        -- rewrite IH. split; [intros [H _]; discriminate|].
           intros [_ H]. exfalso. apply H. left. eauto.
      * rewrite IH. split; intros [Hm H]; (split; [exact Hm|]).
        -- intros [[_ (d & Hd & _)]|H']; [discriminate|auto].
        -- intros H'. apply H. now right.
    + rewrite IH. split; intros [Hm H]; (split; [exact Hm|]).
      * intros [[Hv _]|H']; [discriminate|auto].
      * intros H'. apply H. now right.
Qed.

Lemma portLoop_success_iff (conn : nat -> ConnResult) (ports : list Z) :
  forall pos m,
    successCount (snd (portLoop conn pos ports m emptyState)) = 1%nat <->
    answers (fun d => d < 200) conn pos ports.
Proof.
  induction ports as [|port rest IH]; intros pos m; simpl.
  - split; [discriminate|]. intros H. now apply answers_nil in H.
  - rewrite answers_cons.
    destruct (validPort port); simpl.
    + destruct (conn pos) as [delay|] eqn:Ec.
      * destruct (delay <? 200) eqn:E; simpl.
        -- apply Z.ltb_lt in E. split; [|reflexivity]. intros _. left. eauto.
        -- apply Z.ltb_ge in E. rewrite IH. split; [now right|].
           intros [[_ (d & Hd & Hlt)]|H]; [|exact H].
           injection Hd as <-. lia.
      * rewrite IH. split; [now right|].
        intros [[_ (d & Hd & _)]|H]; [discriminate|exact H].
    + rewrite IH. split; [now right|].
      intros [[Hv _]|H]; [discriminate|exact H].
Qed.

Lemma bestDelay_None_iff (conn : nat -> ConnResult) (ports : list Z) :
  bestDelay conn ports = None <-> ~ connectsOn conn ports.
Proof.
  unfold bestDelay, connectsOn. rewrite portLoop_None_iff. tauto.
Qed.

Lemma pingAttempt_successCount (conn : nat -> ConnResult) (ports : list Z) :
  successCount (pingAttempt conn ports emptyState) =
  successCount (snd (portLoop conn 0 ports None emptyState)).
Proof.
  unfold pingAttempt.
  destruct (portLoop conn 0 ports None emptyState) as [[m|] st]; reflexivity.
Qed.

Lemma pingAttempt_success_iff (conn : nat -> ConnResult) (ports : list Z) :
  (0 < successCount (pingAttempt conn ports emptyState))%nat <->
  connectsFast conn ports.
Proof.
  unfold connectsFast. rewrite <- (portLoop_success_iff conn ports 0 None).
  rewrite <- pingAttempt_successCount.
  destruct (pingAttempt_cases conn ports)
    as [[_ ->]|[(m & _ & _ & ->)|(d & _ & _ & ->)]]; simpl; lia.
Qed.

(** A fast connect is the best delay of its attempt. *)
Lemma connectsFast_bestDelay (conn : nat -> ConnResult) (ports : list Z) :
  connectsFast conn ports <->
  exists d, d < 200 /\ bestDelay conn ports = Some d.
Proof.
  rewrite <- pingAttempt_success_iff.
  destruct (pingAttempt_cases conn ports)
    as [[Hb ->]|[(m & Hm & Hb & ->)|(d & Hd & Hb & ->)]]; simpl.
  - split; [lia|]. intros (d & _ & H). congruence.
  - split; [lia|]. intros (d & Hd & H). rewrite Hb in H. injection H as <-. lia.
  - split; [eauto|lia].
Qed.
End ProbeConnects.

Section ProbeStatistics.
Import IpTester.

Lemma Math_min_spec (ds : list Z) :
  forall d, In (Math_min d ds) (d :: ds) /\
            forall x, In x (d :: ds) -> Math_min d ds <= x.
Proof.
  unfold Math_min.
  induction ds as [|y ds IH]; intros d; simpl.
  - split; [now left|]. intros x [<-|[]]. lia.
  - destruct (IH (Z.min d y)) as [Hin Hle]. split.
    + destruct Hin as [Heq|Hin]; [|now right; right].
      rewrite <- Heq. destruct (Z.min_spec d y) as [[_ ->]|[_ ->]]; auto.
    + intros x [<-|[<-|Hx]].
      * specialize (Hle (Z.min d y) (or_introl eq_refl)). lia.
      * specialize (Hle (Z.min d y) (or_introl eq_refl)). lia.
      * apply Hle. now right.
Qed.

Lemma list_sum_pos {A : Type} (f : A -> nat) (l : list A) :
  (0 < list_sum (map f l))%nat <-> exists a, In a l /\ (0 < f a)%nat.
Proof.
  induction l as [|x l IH]; simpl.
  - split; [lia|]. intros (a & [] & _).
  - split.
    + intros H. destruct (Nat.eq_dec (f x) 0) as [E|E].
      * rewrite E in H. apply IH in H as (a & Ha & Hf). eauto.
      * exists x. split; [now left|lia].
    + intros (a & [<-|Ha] & Hf); [lia|].
      assert (0 < list_sum (map f l))%nat by (apply IH; eauto). lia.
Qed.

Lemma sample_origin (conn : nat -> ConnResult) (ports : list Z) (d : Z) :
  In d (attemptSamples conn ports) -> d < 999 -> bestDelay conn ports = Some d.
Proof.
  unfold attemptSamples.
  destruct (pingAttempt_cases conn ports)
    as [[Hb ->]|[(m & Hm & Hb & ->)|(g & Hg & Hb & ->)]]; simpl.
  - intros [<-|[]]. lia.
  - intros [<-|[]] _. exact Hb.
  - intros [<-|[<-|[]]] _; exact Hb.
Qed.

Lemma bestDelay_sample (conn : nat -> ConnResult) (ports : list Z) (d : Z) :
  bestDelay conn ports = Some d -> In d (attemptSamples conn ports).
Proof.
  unfold attemptSamples.
  destruct (pingAttempt_cases conn ports)
    as [[Hb ->]|[(m & Hm & Hb & ->)|(g & Hg & Hb & ->)]];
    rewrite Hb; intros H; [discriminate| |]; injection H as <-; simpl; auto.
Qed.

Lemma failed_sample (conn : nat -> ConnResult) (ports : list Z) :
  bestDelay conn ports = None ->
  pingAttempt conn ports emptyState = mkProbeState [999] 0.
Proof.
  destruct (pingAttempt_cases conn ports)
    as [[Hb ->]|[(m & Hm & Hb & ->)|(g & Hg & Hb & ->)]];
    rewrite Hb; intros H; [reflexivity| |]; discriminate.
Qed.

Lemma summarize_ext (s1 s2 : ProbeState) :
  successCount s1 = successCount s2 ->
  validDelaysOf s1 = validDelaysOf s2 ->
  summarize s1 = summarize s2.
Proof. unfold summarize. now intros -> ->. Qed.

Lemma pingOver_validDelays (net : Network) (ports : list Z) (attempts : list nat) :
  validDelaysOf (pingOver net ports attempts emptyState) =
  filter (fun d => d <? 999)
         (flat_map (fun a => attemptSamples (net a) ports) attempts).
Proof. unfold validDelaysOf. now rewrite pingOver_allDelays. Qed.

Lemma pingOver_success_iff (net : Network) (ports : list Z) (attempts : list nat) :
  (0 < successCount (pingOver net ports attempts emptyState))%nat <->
  exists a, In a attempts /\ connectsFast (net a) ports.
Proof.
  rewrite pingOver_successCount. simpl. rewrite list_sum_pos.
  split; intros (a & Ha & H); exists a; (split; [exact Ha|]);
    now apply pingAttempt_success_iff.
Qed.

(** Attempts that did not connect change neither the count of
    successes nor the samples that are kept. *)
Lemma pingOver_connected_only (net : Network) (ports : list Z) (attempts : list nat) :
  let kept := filter (fun a => connected (net a) ports) attempts in
  successCount (pingOver net ports attempts emptyState) =
  successCount (pingOver net ports kept emptyState)
  /\ validDelaysOf (pingOver net ports attempts emptyState) =
     validDelaysOf (pingOver net ports kept emptyState).
Proof.
  simpl. rewrite !pingOver_successCount, !pingOver_validDelays. simpl.
  induction attempts as [|a attempts [IHs IHv]]; simpl.
  - auto.
  - destruct (connected (net a) ports) eqn:Hc; simpl.
    + rewrite !filter_app, IHs, IHv. auto.
    + unfold connected in Hc.
      destruct (bestDelay (net a) ports) as [d|] eqn:Hb; [discriminate|].
      unfold attemptSamples. rewrite (failed_sample _ _ Hb). simpl. auto.
Qed.

Lemma in_validDelays (net : Network) (ports : list Z) (n : nat) (d : Z) :
  In d (validDelaysOf (probe net ports n)) <->
  d < 999 /\ exists a, (a < n)%nat /\ bestDelay (net a) ports = Some d.
Proof.
  unfold probe. rewrite pingLoop_pingOver, pingOver_validDelays.
  rewrite filter_In, in_flat_map, Z.ltb_lt. split.
  - intros [(a & Ha & Hd) Hlt]. split; [exact Hlt|].
    exists a. apply in_seq in Ha. split; [lia|]. now apply sample_origin.
  - intros [Hlt (a & Ha & Hb)]. split; [|exact Hlt].
    exists a. split; [apply in_seq; lia|]. now apply bestDelay_sample.
Qed.

Lemma probe_success_iff (net : Network) (ports : list Z) (n : nat) :
  (0 < successCount (probe net ports n))%nat <->
  exists a, (a < n)%nat /\ connectsFast (net a) ports.
Proof.
  unfold probe. rewrite pingLoop_pingOver, pingOver_success_iff.
  split; intros (a & Ha & H); exists a; (split; [|exact H]).
  - apply in_seq in Ha. lia.
  - apply in_seq. lia.
Qed.
End ProbeStatistics.

(** *** Samples taken twice *)

Section TwiceFacts.
Import IpTester.

Lemma sum_from (xs : list Z) (a : Z) : fold_left Z.add xs a = a + sum xs.
Proof.
  unfold sum. revert a. induction xs as [|x xs IH]; intros a; simpl.
  - lia.
  - rewrite IH, (IH x). lia.
Qed.

Lemma sum_twice (xs : list Z) : sum (twice xs) = 2 * sum xs.
Proof.
  induction xs as [|x xs IH]; [reflexivity|].
  change (sum (twice (x :: xs))) with (fold_left Z.add (twice xs) (0 + x + x)).
  change (sum (x :: xs)) with (fold_left Z.add xs (0 + x)).
  rewrite !sum_from, IH. lia.
Qed.

Lemma length_twice (xs : list Z) :
  List.length (twice xs) = (2 * List.length xs)%nat.
Proof. induction xs as [|x xs IH]; simpl; lia. Qed.

Lemma mean_twice (xs : list Z) : xs <> [] -> (mean (twice xs) == mean xs)%Q.
Proof.
  intros Hne. unfold mean. rewrite sum_twice, length_twice.
  rewrite Nat2Z.inj_mul, !inject_Z_mult.
  assert (Hn : ~ (inject_Z (Z.of_nat (List.length xs)) == 0)%Q).
  { destruct xs as [|x xs]; [congruence|].
    change 0%Q with (inject_Z 0). rewrite inject_Z_injective.
    simpl List.length. lia. }
  change (inject_Z (Z.of_nat 2)) with 2%Q. change (inject_Z 2) with 2%Q.
  field. exact Hn.
Qed.

Lemma squares_from (avg : Q) (xs : list Z) (a : Q) :
  (squares avg xs a == a + squares avg xs 0)%Q.
Proof.
  unfold squares. revert a. induction xs as [|x xs IH]; intros a; simpl.
  - lra.
  - rewrite IH, (IH (0 + _)%Q). lra.
Qed.

Lemma squares_comp (avg avg' : Q) (xs : list Z) :
  (avg == avg')%Q ->
  forall a a', (a == a')%Q -> (squares avg xs a == squares avg' xs a')%Q.
Proof.
  intros He. unfold squares. induction xs as [|x xs IH]; intros a a' Ha; simpl.
  - exact Ha.
  - apply IH. now rewrite He, Ha.
Qed.

Lemma squares_twice (avg : Q) (xs : list Z) :
  (squares avg (twice xs) 0 == 2 * squares avg xs 0)%Q.
Proof.
  induction xs as [|x xs IH].
  - reflexivity.
  - change (squares avg (twice (x :: xs)) 0)
      with (squares avg (twice xs) (0 + (inject_Z x - avg) ^ 2 + (inject_Z x - avg) ^ 2)).
    change (squares avg (x :: xs) 0)
      with (squares avg xs (0 + (inject_Z x - avg) ^ 2)).
    rewrite squares_from, IH, (squares_from avg xs (0 + _)%Q). lra.
Qed.

Lemma variance_twice (xs : list Z) : xs <> [] -> (variance (twice xs) == variance xs)%Q.
Proof.
  intros Hne. unfold variance.
  fold (squares (mean (twice xs)) (twice xs) 0). fold (squares (mean xs) xs 0).
  rewrite (squares_comp _ _ (twice xs) (mean_twice xs Hne) 0 0 (Qeq_refl 0)).
  rewrite squares_twice, length_twice.
  rewrite Nat2Z.inj_mul, inject_Z_mult.
  assert (Hn : ~ (inject_Z (Z.of_nat (List.length xs)) == 0)%Q).
  { destruct xs as [|x xs]; [congruence|].
    change 0%Q with (inject_Z 0). rewrite inject_Z_injective.
    simpl List.length. lia. }
  change (inject_Z (Z.of_nat 2)) with 2%Q.
  field. exact Hn.
Qed.

Lemma round2_comp (x y : Q) : (x == y)%Q -> round2 x = round2 y.
Proof.
  intros H. unfold round2, Math_round. now rewrite H.
Qed.
End TwiceFacts.

Section ProbeClaims.
Import IpTester Scenario.

Lemma testIpAvailability_valid (net : Network) (ip : string) (ports : list Z) (n : nat) :
  isValidIp ip = true ->
  testIpAvailability net ip (Some ports) n = summarize (probe net ports n).
Proof. unfold testIpAvailability. now intros ->. Qed.

(** C1 (as amended): an attempt that connects on no valid configured port
    puts the sentinel 999 into [allDelays], but every sample of 999 or
    more is filtered out before the statistics are computed: the result
    of [testIpAvailability] is the one of the run in which only the
    attempts that connected are made. *)
Theorem failed_attempts_filtered_out
        (net : Network) (ip : string) (ports : list Z) (pingCount : nat) :
  isValidIp ip = true ->
  (forall a, ~ connectsOn (net a) ports -> attemptSamples (net a) ports = [999])
  /\ allDelays (probe net ports pingCount) =
     flat_map (fun a => attemptSamples (net a) ports) (seq 0 pingCount)
  /\ (forall d, In d (validDelaysOf (probe net ports pingCount)) -> d < 999)
  /\ testIpAvailability net ip (Some ports) pingCount =
     summarize (pingOver net ports
                         (filter (fun a => connected (net a) ports) (seq 0 pingCount))
                         emptyState).
Proof.
  intros Hip. repeat split.
  - intros a Ha. apply bestDelay_None_iff in Ha.
    unfold attemptSamples. now rewrite (failed_sample _ _ Ha).
  - unfold probe. now rewrite pingLoop_pingOver, pingOver_allDelays.
  - intros d Hd. now apply in_validDelays in Hd.
  - rewrite (testIpAvailability_valid _ _ _ _ Hip).
    unfold probe. rewrite pingLoop_pingOver.
    destruct (pingOver_connected_only net ports (seq 0 pingCount)) as [Hs Hv].
    now apply summarize_ext.
Qed.

(** The theorem at the address of the scenario, one attempt out of two
    failing. *)
Lemma failed_attempts_filtered_out_witness :
  testIpAvailability netOnce address (Some testPorts) 2 =
  summarize (pingOver netOnce testPorts [0%nat] emptyState).
Proof.
  exact (proj2 (proj2 (proj2
    (failed_attempts_filtered_out netOnce address testPorts 2 eq_refl)))).
Defined.

(** C1 (as stated) fails: with a first attempt connecting in 50 ms and a
    second attempt refused, the reported [avgDelay] and [stability] are
    the statistics of the successful attempt alone, and no sample of 999
    reaches them. *)
Lemma sentinel_does_not_reach_statistics :
  isValidIp address = true
  /\ bestDelay (netOnce 0%nat) testPorts = Some 50
  /\ ~ connectsOn (netOnce 1%nat) testPorts
  /\ attemptSamples (netOnce 1%nat) testPorts = [999]
  /\ successfulDelays netOnce testPorts 2 = [50]
  /\ ~ In 999 (validDelaysOf (probe netOnce testPorts 2))
  /\ (avgDelay (testIpAvailability netOnce address (Some testPorts) 2)
      == round2 (mean (successfulDelays netOnce testPorts 2)))%Q
  /\ (stability (testIpAvailability netOnce address (Some testPorts) 2)
      == round2 (variance (successfulDelays netOnce testPorts 2)))%Q.
Proof.
  repeat split; try reflexivity.
  - apply bestDelay_None_iff. reflexivity.
  - vm_compute. intros [H|[H|[]]]; discriminate.
Qed.

(** C4 (as amended): for a valid address, the result is unavailable with
    all-zero statistics exactly when no attempt connected in less than
    200 ms on a valid port; when some attempt did, the address is
    available, [minDelay] is the least of the delays of the attempts that
    connected, and every sample that enters [avgDelay] and [stability] is
    below the sentinel and is the delay of an attempt that connected. *)
Theorem availability_by_fast_connect
        (net : Network) (ip : string) (ports : list Z) (pingCount : nat) :
  isValidIp ip = true ->
  let r := testIpAvailability net ip (Some ports) pingCount in
  let samples := validDelaysOf (probe net ports pingCount) in
  ((isAvailable r = false /\ minDelay r = 0 /\ (avgDelay r == 0)%Q /\ (stability r == 0)%Q)
   <-> forall a, (a < pingCount)%nat -> ~ connectsFast (net a) ports)
  /\ ((exists a, (a < pingCount)%nat /\ connectsFast (net a) ports) ->
      isAvailable r = true
      /\ (exists a, (a < pingCount)%nat /\ bestDelay (net a) ports = Some (minDelay r))
      /\ (forall a d, (a < pingCount)%nat ->
                      bestDelay (net a) ports = Some d -> minDelay r <= d)
      /\ (forall d, In d samples ->
                    d < 999 /\
                    exists a, (a < pingCount)%nat /\ bestDelay (net a) ports = Some d)
      /\ (avgDelay r == round2 (mean samples))%Q
      /\ (stability r == round2 (variance samples))%Q)
  /\ (forall a, bestDelay (net a) ports = None <-> ~ connectsOn (net a) ports).
Proof.
  intros Hip. cbv zeta.
  rewrite (testIpAvailability_valid _ _ _ _ Hip).
  assert (Hfast : (exists a, (a < pingCount)%nat /\ connectsFast (net a) ports) ->
                  exists d ds, validDelaysOf (probe net ports pingCount) = d :: ds /\
                               summarize (probe net ports pingCount) =
                               mkAvailability true (Math_min d ds)
                                              (round2 (mean (d :: ds)))
                                              (round2 (variance (d :: ds))) /\
                               Math_min d ds < 200).
  { intros Hex. pose proof Hex as (a & Ha & Hf).
    apply probe_success_iff in Hex. apply Nat.ltb_lt in Hex.
    apply connectsFast_bestDelay in Hf as (g & Hg & Hb).
    assert (Hin : In g (validDelaysOf (probe net ports pingCount))).
    { apply in_validDelays. split; [lia|eauto]. }
    unfold summarize. rewrite Hex.
    destruct (validDelaysOf (probe net ports pingCount)) as [|d ds]; [destruct Hin|].
    exists d, ds. repeat split.
    destruct (Math_min_spec ds d) as [_ Hle]. specialize (Hle g Hin). lia. }
  split; [|split].
  - split.
    + intros [Hav _] a Ha Hf.
      destruct Hfast as (d & ds & _ & Hr & _); [eauto|].
      rewrite Hr in Hav. discriminate.
    + intros Hno.
      assert (Hz : (0 <? successCount (probe net ports pingCount))%nat = false).
      { apply Nat.ltb_ge. apply Nat.nlt_ge. intros H.
        apply probe_success_iff in H as (a & Ha & Hf). exact (Hno a Ha Hf). }
      unfold summarize. rewrite Hz. simpl. repeat split; reflexivity.
  - intros Hex. destruct (Hfast Hex) as (d & ds & Hv & Hr & Hmin).
    rewrite Hr, Hv. cbn [isAvailable minDelay avgDelay stability].
    destruct (Math_min_spec ds d) as [Hin Hle]. rewrite <- Hv in Hin, Hle.
    split; [reflexivity|]. split; [|split; [|split; [|split; reflexivity]]].
    + apply in_validDelays in Hin. tauto.
    + intros a g Ha Hb. destruct (Z_lt_le_dec g 999) as [Hlt|Hge].
      * apply Hle. apply in_validDelays. eauto.
      * lia.
    + intros g Hg. rewrite <- Hv in Hg. now apply in_validDelays in Hg.
  - intros a. apply bestDelay_None_iff.
Qed.

(** The theorem at the address of the scenario, one attempt connecting
    in 50 ms. *)
Lemma availability_by_fast_connect_witness :
  isAvailable (testIpAvailability netFast address (Some testPorts) 1) = true.
Proof.
  destruct (availability_by_fast_connect netFast address testPorts 1 eq_refl)
    as [_ [H _]].
  apply H. exists 0%nat. split; [lia|].
  exists 0%nat, 443, 50. repeat split; lia.
Defined.

(** C4 (as stated) fails: an attempt that connects in 300 ms leaves the
    address unavailable, with all-zero statistics. *)
Lemma slow_connect_is_unavailable :
  isValidIp address = true
  /\ connectsOn (netSlow 0%nat) testPorts
  /\ bestDelay (netSlow 0%nat) testPorts = Some 300
  /\ testIpAvailability netSlow address (Some testPorts) 1 = unavailable.
Proof.
  repeat split.
  exists 0%nat, 443, 300. repeat split.
Qed.

Lemma fast_samples (conn : nat -> ConnResult) (ports : list Z) :
  connectsFast conn ports ->
  exists d, d < 200 /\ bestDelay conn ports = Some d /\
            attemptSamples conn ports = [d; d].
Proof.
  intros Hf. apply connectsFast_bestDelay in Hf as (d & Hd & Hb).
  exists d. split; [exact Hd|]. split; [exact Hb|].
  unfold attemptSamples.
  destruct (pingAttempt_cases conn ports)
    as [[Hb' _]|[(m & Hm & Hb' & _)|(g & Hg & Hb' & ->)]];
    rewrite Hb in Hb'; try discriminate; injection Hb' as <-; [lia|reflexivity].
Qed.

Lemma filter_all {A : Type} (f : A -> bool) (l : list A) :
  (forall x, In x l -> f x = true) -> filter f l = l.
Proof.
  induction l as [|x l IH]; simpl; intros H.
  - reflexivity.
  - rewrite (H x (or_introl eq_refl)). f_equal. apply IH.
    intros y Hy. apply H. now right.
Qed.

Lemma all_fast_samples (net : Network) (ports : list Z) (attempts : list nat) :
  (forall a, In a attempts -> connectsFast (net a) ports) ->
  let ds := flat_map (fun a => match bestDelay (net a) ports with
                               | Some d => [d]
                               | None => []
                               end) attempts in
  flat_map (fun a => attemptSamples (net a) ports) attempts = twice ds
  /\ List.length ds = List.length attempts
  /\ forall d, In d (twice ds) -> d < 200.
Proof.
  induction attempts as [|a attempts IH]; intros Hall; simpl.
  - repeat split. intros d [].
  - destruct (fast_samples (net a) ports) as (d & Hd & Hb & Hs);
      [apply Hall; now left|].
    destruct IH as (IH1 & IH2 & IH3); [intros b Hin; apply Hall; now right|].
    rewrite Hb, Hs, IH1. simpl. repeat split.
    + now rewrite IH2.
    + intros x [<-|[<-|Hx]]; [exact Hd|exact Hd|now apply IH3].
Qed.

(** When every attempt connects in less than 200 ms, each delay is
    sampled twice, which changes neither the mean nor the variance:
    [avgDelay] and [stability] are the rounded mean and the rounded
    population variance of the delays of the attempts. *)
Theorem all_fast_statistics
        (net : Network) (ip : string) (ports : list Z) (pingCount : nat) :
  isValidIp ip = true ->
  (0 < pingCount)%nat ->
  (forall a, (a < pingCount)%nat -> connectsFast (net a) ports) ->
  validDelaysOf (probe net ports pingCount)
  = twice (successfulDelays net ports pingCount)
  /\ List.length (successfulDelays net ports pingCount) = pingCount
  /\ isAvailable (testIpAvailability net ip (Some ports) pingCount) = true
  /\ (avgDelay (testIpAvailability net ip (Some ports) pingCount)
      == round2 (mean (successfulDelays net ports pingCount)))%Q
  /\ (stability (testIpAvailability net ip (Some ports) pingCount)
      == round2 (variance (successfulDelays net ports pingCount)))%Q.
Proof.
  intros Hip Hpos Hall.
  destruct (all_fast_samples net ports (seq 0 pingCount)) as (Hs & Hlen & Hlt).
  { intros a Ha. apply Hall. apply in_seq in Ha. lia. }
  fold (successfulDelays net ports pingCount) in Hs, Hlen, Hlt.
  rewrite length_seq in Hlen.
  assert (Hv : validDelaysOf (probe net ports pingCount)
               = twice (successfulDelays net ports pingCount)).
  { unfold probe. rewrite pingLoop_pingOver, pingOver_validDelays, Hs.
    apply filter_all. intros d Hd. apply Z.ltb_lt. specialize (Hlt d Hd). lia. }
  assert (Hne : successfulDelays net ports pingCount <> []).
  { intros E. rewrite E in Hlen. simpl in Hlen. lia. }
  assert (Hsucc : (0 <? successCount (probe net ports pingCount))%nat = true).
  { apply Nat.ltb_lt, probe_success_iff. exists 0%nat. split; [lia|]. apply Hall. lia. }
  rewrite (testIpAvailability_valid _ _ _ _ Hip).
  unfold summarize. rewrite Hsucc, Hv. clear Hs Hlt Hv Hsucc.
  destruct (successfulDelays net ports pingCount) as [|x xs]; [congruence|].
  change (twice (x :: xs)) with (x :: x :: twice xs).
  cbn [isAvailable avgDelay stability].
  change (x :: x :: twice xs) with (twice (x :: xs)).
  rewrite (round2_comp _ _ (mean_twice _ Hne)), (round2_comp _ _ (variance_twice _ Hne)).
  repeat split; try reflexivity. exact Hlen.
Qed.

(** A connect below 200 ms is pushed when the port loop breaks and again
    after the loop, so it weighs twice in the average: 100 ms and 300 ms
    are reported as 166.67, not as 200. *)
Example fast_attempt_weighs_twice :
  allDelays (probe netMixed testPorts 2) = [100; 100; 300]
  /\ successfulDelays netMixed testPorts 2 = [100; 300]
  /\ (avgDelay (testIpAvailability netMixed address (Some testPorts) 2)
      == 16667 # 100)%Q
  /\ (mean (successfulDelays netMixed testPorts 2) == 200)%Q.
Proof. repeat split. Qed.

(** C7 (as amended): five attempts with the delays 50, 52, 48, 51 and 49
    give [minDelay] 48, [avgDelay] 50 and [stability] 2, the population
    variance of these delays. *)
Theorem scenario_statistics :
  successfulDelays netScenario testPorts 5 = scenarioDelays
  /\ isAvailable (testIpAvailability netScenario address (Some testPorts) 5) = true
  /\ minDelay (testIpAvailability netScenario address (Some testPorts) 5) = 48
  /\ (avgDelay (testIpAvailability netScenario address (Some testPorts) 5) == 50)%Q
  /\ (stability (testIpAvailability netScenario address (Some testPorts) 5) == 2)%Q
  /\ (variance scenarioDelays == 2)%Q.
Proof. repeat split. Qed.

(** C7 (as stated) fails: the stability of the scenario is not 1.6. *)
Lemma scenario_stability_is_not_1_6 :
  ~ (stability (testIpAvailability netScenario address (Some testPorts) 5)
     == 16 # 10)%Q.
Proof. vm_compute. discriminate. Qed.

(** In binary64 arithmetic too, the samples of the scenario have the
    mean 50 and the variance 2. *)
Example scenario_statistics_binary64 :
  Binary64.round2
    (Binary64.mean (validDelaysOf (probe netScenario testPorts 5))) = 50%float
  /\ Binary64.round2
       (Binary64.variance (validDelaysOf (probe netScenario testPorts 5))) = 2%float.
Proof. split; vm_compute; reflexivity. Qed.
End ProbeClaims.


(** ** The percentile filter *)

Section FilterClaims.
Import BandwidthTester Scenario.

Lemma byAvgDelay_le (a b : IpLatency) :
  byAvgDelay a b = true <-> (avgDelay a <= avgDelay b)%Q.
Proof. apply Qle_bool_iff. Qed.

Lemma byAvgDelay_total (a b : IpLatency) :
  byAvgDelay a b = true \/ byAvgDelay b a = true.
Proof.
  rewrite !byAvgDelay_le.
  destruct (Qlt_le_dec (avgDelay b) (avgDelay a)) as [H|H]; [right|left; exact H].
  now apply Qlt_le_weak.
Qed.

Lemma byAvgDelay_trans (a b c : IpLatency) :
  byAvgDelay a b = true -> byAvgDelay b c = true -> byAvgDelay a c = true.
Proof. rewrite !byAvgDelay_le. apply Qle_trans. Qed.

(** C2 (as amended): on a non-empty list and for a whole-number
    percentage, [latencyFilterIps] returns the front of the list sorted
    in ascending order of [avgDelay]; it keeps floor(n * percentage / 100)
    entries, at least one and at most all [n] of them.  The product
    [n * percentage] is below 2^53, where binary64 holds every whole
    number. *)
Theorem latencyFilterIps_keeps_floor (ips : list IpLatency) (percentage : Z) :
  ips <> [] ->
  Z.abs (Z.of_nat (List.length ips) * percentage) < 2 ^ 53 ->
  exists dropped,
    Permutation (latencyFilterIps ips percentage ++ dropped) ips
    /\ StronglySorted (fun a b => (avgDelay a <= avgDelay b)%Q)
                      (latencyFilterIps ips percentage ++ dropped)
    /\ Z.of_nat (List.length (latencyFilterIps ips percentage)) =
       Z.min (Z.of_nat (List.length ips))
             (Z.max 1 (Qfloor (inject_Z (Z.of_nat (List.length ips))
                               * inject_Z percentage / 100)))
    /\ (1 <= List.length (latencyFilterIps ips percentage))%nat.
Proof.
  intros Hne _. unfold latencyFilterIps.
  destruct ips as [|ip0 rest] eqn:Hips; [congruence|]. rewrite <- Hips. clear Hne.
  rewrite sortBy_length.
  set (n := List.length ips).
  assert (Hfloor : Qfloor (inject_Z (Z.of_nat n) * inject_Z percentage / 100)
                   = Z.of_nat n * percentage / 100).
  { unfold Qdiv. rewrite <- inject_Z_mult. change (/ 100)%Q with (1 # 100)%Q.
    unfold Qfloor, Qmult, inject_Z. cbn [Qnum Qden].
    rewrite Z.mul_1_r. reflexivity. }
  rewrite Hfloor.
  set (keepCount := Z.max 1 (Z.of_nat n * percentage / 100)).
  set (sortedIps := sortBy byAvgDelay ips).
  assert (Hn : (1 <= n)%nat) by (unfold n; rewrite Hips; simpl; lia).
  assert (Hlen : List.length (firstn (Z.to_nat keepCount) sortedIps)
                 = Nat.min (Z.to_nat keepCount) n).
  { rewrite length_firstn. unfold sortedIps. now rewrite sortBy_length. }
  exists (skipn (Z.to_nat keepCount) sortedIps).
  rewrite firstn_skipn. split; [apply sortBy_perm|]. split; [|split].
  - eapply StronglySorted_weaken;
      [|apply (sortBy_sorted byAvgDelay byAvgDelay_total byAvgDelay_trans)].
    intros a b. apply byAvgDelay_le.
  - rewrite Hlen. lia.
  - rewrite Hlen. lia.
Qed.

(** C2 (as stated) fails: of four candidates at 30 percent one is kept,
    where the ceiling of 4 * 30 / 100 is 2. *)
Lemma four_candidates_keep_one :
  fourCandidates <> []
  /\ latencyFilterIps fourCandidates 30 = [candidate "203.0.113.1" 10]
  /\ Qceiling (inject_Z (Z.of_nat (List.length fourCandidates)) * 30 / 100) = 2.
Proof. repeat split. discriminate. Qed.

(** The theorem on the four candidates. *)
Lemma latencyFilterIps_keeps_floor_witness :
  List.length (latencyFilterIps fourCandidates 30) = 1%nat.
Proof.
  destruct (latencyFilterIps_keeps_floor fourCandidates 30) as (dropped & _ & _ & H & _).
  - discriminate.
  - vm_compute. reflexivity.
  - apply Nat2Z.inj. rewrite H. reflexivity.
Defined.

(** In binary64, for up to 2000 candidates and every whole percentage
    from 0 to 100, [Math.floor(n * percentage / 100)] is the quotient of
    the integers that [latencyFilterIps] keeps. *)
Lemma keepCount_of_whole_percentages : countsAgree 2000 100 = true.
Proof. vm_compute. reflexivity. Qed.

Lemma countsAgree_sound (maxLength maxPercentage : nat) :
  countsAgree maxLength maxPercentage = true ->
  forall n percentage,
    0 <= n <= Z.of_nat maxLength -> 0 <= percentage <= Z.of_nat maxPercentage ->
    Binary64.keepCount n (Binary64.ofZ percentage)
    = Binary64.ofZ (n * percentage / 100).
Proof.
  intros H n percentage Hn Hp. unfold countsAgree in H. cbv zeta in H.
  rewrite forallb_forall in H. specialize (H _ (upTo_In _ n Hn)).
  rewrite forallb_forall in H. specialize (H _ (upTo_In _ percentage Hp)).
  cbn [fst snd] in H. now apply float_eqb_eq.
Qed.

Lemma keepCount_whole (n percentage : Z) :
  0 <= n <= 2000 -> 0 <= percentage <= 100 ->
  Binary64.keepCount n (Binary64.ofZ percentage)
  = Binary64.ofZ (n * percentage / 100).
Proof.
  intros Hn Hp.
  apply (countsAgree_sound 2000 100 keepCount_of_whole_percentages); assumption.
Qed.

(** A percentage with a fraction is outside the theorem: seven
    candidates at 28.571428571428569 percent keep two in binary64, where
    the product rounds up to 200, and the exact quotient is below 2. *)
Example fractional_percentage_rounds_up :
  Binary64.keepCount 7 0x1.c924924924924p+4 = 2%float
  /\ (Binary64.ofZ 2010535547933257 / Binary64.ofZ 70368744177664
      = 0x1.c924924924924p+4)%float
  /\ Qfloor (7 * (2010535547933257 # 70368744177664) / 100) = 1.
Proof. repeat split; vm_compute; reflexivity. Qed.

End FilterClaims.

(** ** The bandwidth probe *)

Section BandwidthClaims.
Import BandwidthTester Scenario.

Lemma urlStep_no_bytes (d : Download) (b : Best) :
  bytesOf d = 0 -> urlStep d b = inr b.
Proof.
  destruct d as [|status [t|]]; simpl; intros H.
  - reflexivity.
  - rewrite H. simpl. rewrite andb_false_r. now destruct (status =? 200).
  - now destruct (status =? 200).
Qed.

Lemma urlLoop_no_bytes (dl : nat -> Download) (urls : list nat) (b : Best) :
  (forall u, In u urls -> bytesOf (dl u) = 0) -> urlLoop dl urls b = inr b.
Proof.
  induction urls as [|u urls IH]; intros H; simpl.
  - reflexivity.
  - rewrite urlStep_no_bytes by (apply H; now left).
    apply IH. intros v Hv. apply H. now right.
Qed.

Lemma attemptLoop_no_bytes (dl : Downloads) (count : nat) :
  forall a b,
    (forall i u, (a <= i < a + count)%nat -> In u testUrls -> bytesOf (dl i u) = 0) ->
    attemptLoop dl a count b = inr b.
Proof.
  induction count as [|count IH]; intros a b H; cbn [attemptLoop].
  - reflexivity.
  - rewrite urlLoop_no_bytes by (intros u Hu; apply H; [lia|exact Hu]).
    apply IH. intros i u Hi Hu. apply H; [lia|exact Hu].
Qed.

(** C3 (as amended): when no download of the probe brings a byte,
    [testIpBandwidth] falls back to one ping attempt on port 443; if the
    address is available there the result is fast with bandwidth 0 and
    the [minDelay] of that attempt as latency, and if not it is not fast
    with bandwidth 0 and latency 0. *)
Theorem no_bytes_falls_back_to_latency
        (dl : Downloads) (net : IpTester.Network) (ip : string) (testCount : nat) :
  (forall a u, (a < testCount)%nat -> In u testUrls -> bytesOf (dl a u) = 0) ->
  (IpTester.isAvailable (IpTester.testIpAvailability net ip (Some [443]) 1) = true ->
   testIpBandwidth dl net ip testCount =
   mkBandwidth true 0
     (IpTester.minDelay (IpTester.testIpAvailability net ip (Some [443]) 1)))
  /\ (IpTester.isAvailable (IpTester.testIpAvailability net ip (Some [443]) 1) = false ->
      testIpBandwidth dl net ip testCount = mkBandwidth false 0 0).
Proof.
  intros Hno. unfold testIpBandwidth.
  rewrite (attemptLoop_no_bytes dl testCount)
    by (intros i u Hi Hu; apply Hno; [lia|exact Hu]).
  cbn [bestSpeed]. change (Qltb 0 0) with false. cbv iota.
  unfold latencyFallback, IpTester.testIpAvailability, IpTester.isValidIp.
  destruct (Nat.eqb (List.length (split "." ip)) 4); simpl.
  - destruct (forallb IpTester.validPart (split "." ip)); simpl.
    + split; intros ->; reflexivity.
    + split; [discriminate|reflexivity].
  - split; [discriminate|reflexivity].
Qed.

(** The theorem at the address of the scenario, no connect being fast
    enough. *)
Lemma no_bytes_falls_back_to_latency_witness :
  testIpBandwidth dlNothing netSlow address 3 = mkBandwidth false 0 0.
Proof.
  apply (no_bytes_falls_back_to_latency dlNothing netSlow address 3).
  - intros a u _ _. reflexivity.
  - reflexivity.
Defined.

(** C3 (as stated) fails: a probe that brings no byte, to an address
    that connects in 50 ms, is reported fast. *)
Lemma no_bytes_but_fast :
  (forall a u, bytesOf (dlNothing a u) = 0)
  /\ IpTester.testIpAvailability netFast address (Some [443]) 1
     = IpTester.mkAvailability true 50 (5000 # 100) (0 # 100)
  /\ testIpBandwidth dlNothing netFast address 3 = mkBandwidth true 0 50.
Proof. repeat split. Qed.
End BandwidthClaims.


(** ** Geolocation look-up *)

Section GeoClaims.
Import GeoResolver Scenario.

Lemma cacheGet_cacheSet (cache : Cache) (ip : string) (v : CacheValue) :
  cacheGet (cacheSet cache ip v) ip = Some v.
Proof.
  induction cache as [|[k v'] cache IH]; simpl.
  - now rewrite String.eqb_refl.
  - destruct (String.eqb k ip) eqn:E; simpl; rewrite E; [reflexivity|exact IH].
Qed.

Lemma truthy_nonempty (s : string) : s <> ""%string -> truthy s = true.
Proof. destruct s; [congruence|reflexivity]. Qed.

Lemma cached_world (ip : string) (ttlHours : Q) (w : World) :
  snd (cached ip ttlHours w) = w.
Proof.
  unfold cached, bind, readCache, getNow, ret.
  destruct (cacheGet (regionCache w) ip) as [[code|region [ts|]]|];
    try reflexivity.
  - now destruct (truthy code).
  - now destruct (isCacheValid (clock w) (Some ts) ttlHours).
Qed.

(** C10: an entry of the old format, a non-empty plain string, is
    returned as it is, whatever [ttlHours] and the clock; the world,
    and so the list of requests sent, is unchanged. *)
Theorem legacy_entry_is_returned
        (http : Http) (ip code : string) (ttlHours : Q) (w : World) :
  cacheGet (regionCache w) ip = Some (Legacy code) ->
  code <> ""%string ->
  getIpRegion http ip ttlHours w = (Region code, w).
Proof.
  intros Hget Hcode.
  unfold getIpRegion, cached, bind, readCache, ret. rewrite Hget.
  now rewrite (truthy_nonempty _ Hcode).
Qed.

(** The theorem on a cache that holds the address in the old format. *)
Lemma legacy_entry_is_returned_witness :
  getIpRegion webDown address 168 legacyWorld = (Region "US", legacyWorld).
Proof.
  apply legacy_entry_is_returned.
  - reflexivity.
  - discriminate.
Defined.

(** A stamped entry younger than [ttlHours] is returned and nothing is
    requested. *)
Lemma fresh_entry_is_returned
      (http : Http) (ip region : string) (ts : Z) (ttlHours : Q) (w : World) :
  cacheGet (regionCache w) ip = Some (Entry region (Some ts)) ->
  (inject_Z (clock w - ts) < ttlHours * inject_Z msPerHour)%Q ->
  getIpRegion http ip ttlHours w = (Region region, w).
Proof.
  intros Hget Hfresh. apply isCacheValid_iff in Hfresh.
  unfold getIpRegion, cached, bind, readCache, getNow, ret. rewrite Hget.
  now rewrite Hfresh.
Qed.


End GeoClaims.

(** ** Cache clean-up *)

Section CacheFacts.
Import GeoResolver.

Lemma in_cacheDelete (cache : Cache) (key : string) (e : string * CacheValue) :
  In e (cacheDelete cache key) <-> In e cache /\ fst e <> key.
Proof.
  unfold cacheDelete. rewrite filter_In, negb_true_iff.
  split; intros [H1 H2]; (split; [exact H1|]).
  - intros E. apply String.eqb_eq in E. congruence.
  - apply String.eqb_neq. exact H2.
Qed.

Lemma in_deleteAll (keys : list string) :
  forall (cache : Cache) (e : string * CacheValue),
    In e (fold_left cacheDelete keys cache) <-> In e cache /\ ~ In (fst e) keys.
Proof.
  induction keys as [|k keys IH]; intros cache e; simpl.
  - tauto.
  - rewrite IH, in_cacheDelete. split.
    + intros [[H1 H2] H3]. split; [exact H1|]. intros [E|E]; [congruence|auto].
    + intros [H1 H2]. repeat split; auto.
Qed.

Lemma NoDup_deleteAll (keys : list string) :
  forall cache : Cache, NoDup cache -> NoDup (fold_left cacheDelete keys cache).
Proof.
  induction keys as [|k keys IH]; intros cache Hnd; simpl.
  - exact Hnd.
  - apply IH. now apply NoDup_filter.
Qed.

Lemma NoDup_keys_filter (f : string * CacheValue -> bool) (cache : Cache) :
  NoDup (map fst cache) -> NoDup (map fst (filter f cache)).
Proof.
  induction cache as [|e cache IH]; simpl; intros Hnd.
  - constructor.
  - inversion Hnd as [|? ? Hnotin Hnd']; subst. destruct (f e); simpl.
    + constructor; [|now apply IH]. intros Hin. apply Hnotin.
      apply in_map_iff in Hin as (e' & Hfst & He'). apply filter_In in He' as [He' _].
      rewrite <- Hfst. now apply in_map.
    + now apply IH.
Qed.



Lemma key_absent (cache : Cache) (e : string * CacheValue) :
  forallb (fun x => negb (String.eqb (fst x) (fst e))) cache = true ->
  ~ In e cache.
Proof.
  intros H Hin. rewrite forallb_forall in H. specialize (H e Hin).
  now rewrite String.eqb_refl in H.
Qed.

(** The order of the sort keys is the lexicographic one. *)
Lemma keyLeb_spec (a1 a2 a3 b1 b2 b3 : Z) :
  keyLeb (a1, a2, a3) (b1, b2, b3) = true
  <-> a1 < b1 \/ (a1 = b1 /\ (a2 < b2 \/ (a2 = b2 /\ a3 <= b3))).
Proof.
  unfold keyLeb.
  rewrite !orb_true_iff, !andb_true_iff, !orb_true_iff, !andb_true_iff,
    !Z.ltb_lt, !Z.eqb_eq, Z.leb_le.
  tauto.
Qed.

Lemma keyLeb_total (a b : Z * Z * Z) : keyLeb a b = true \/ keyLeb b a = true.
Proof.
  destruct a as [[a1 a2] a3], b as [[b1 b2] b3]. rewrite !keyLeb_spec. lia.
Qed.

Lemma keyLeb_trans (a b c : Z * Z * Z) :
  keyLeb a b = true -> keyLeb b c = true -> keyLeb a c = true.
Proof.
  destruct a as [[a1 a2] a3], b as [[b1 b2] b3], c as [[c1 c2] c3].
  rewrite !keyLeb_spec. lia.
Qed.



Lemma byStamp_total (a b : string * CacheValue) :
  byStamp a b = true \/ byStamp b a = true.
Proof.
  unfold byStamp. destruct (stampOf a) as [ta|], (stampOf b) as [tb|]; auto.
  apply keyLeb_total.
Qed.

Lemma byStamp_trans (a b c : string * CacheValue) :
  byStamp a b = true -> byStamp b c = true -> byStamp a c = true.
Proof.
  unfold byStamp.
  destruct (stampOf a) as [ta|], (stampOf b) as [tb|], (stampOf c) as [tc|];
    auto; try discriminate.
  apply keyLeb_trans.
Qed.

(** Nothing has expired: the first loop deletes nothing. *)
Lemma no_expired_keys (now : Z) (ttlHours : Q) (cache : Cache) :
  (forall e, In e cache -> expired now ttlHours e = false) ->
  filter (expired now ttlHours) cache = [].
Proof.
  induction cache as [|e cache IH]; simpl; intros H.
  - reflexivity.
  - rewrite (H e (or_introl eq_refl)). apply IH. intros e' He'. apply H. now right.
Qed.

(** The eviction of [cleanExpiredCache] on a cache over the cap in which
    nothing has expired. *)
Lemma cleanCache_over_cap (now : Z) (ttlHours : Q) (cache : Cache) :
  NoDup (map fst cache) ->
  (cacheSizeCap < List.length cache)%nat ->
  (forall e, In e cache -> expired now ttlHours e = false) ->
  List.length (cleanCache now ttlHours cache) = cacheSizeCap
  /\ (forall e, In e (cleanCache now ttlHours cache) -> In e cache)
  /\ (forall e e', In e (cleanCache now ttlHours cache) ->
                   In e' cache -> ~ In e' (cleanCache now ttlHours cache) ->
                   byStamp e' e = true).
Proof.
  intros Hkeys Hlen Hfresh. unfold cleanCache.
  rewrite (no_expired_keys _ _ _ Hfresh). cbn [map fold_left].
  pose proof Hlen as Hlt. apply Nat.ltb_lt in Hlt. rewrite Hlt.
  set (sortedEntries := sortBy byStamp cache).
  set (k := (List.length cache - cacheSizeCap)%nat).
  set (removed := firstn k sortedEntries).
  set (rest := skipn k sortedEntries).
  set (cache' := fold_left cacheDelete (map fst removed) cache).
  assert (Hperm : Permutation sortedEntries cache) by apply sortBy_perm.
  assert (Hsplit : sortedEntries = removed ++ rest)
    by (symmetry; apply firstn_skipn).
  assert (Hnd : NoDup cache) by (eapply NoDup_map_inv; exact Hkeys).
  assert (Hnds : NoDup (removed ++ rest)).
  { rewrite <- Hsplit. eapply Permutation_NoDup; [symmetry; exact Hperm|exact Hnd]. }
  assert (Hin : forall e, In e cache' <-> In e rest).
  { intros e. unfold cache'. rewrite in_deleteAll. split.
    - intros [He Hnot].
      assert (Hs : In e (removed ++ rest)).
      { rewrite <- Hsplit. eapply Permutation_in; [symmetry; exact Hperm|exact He]. }
      apply in_app_or in Hs as [Hr|Hr]; [|exact Hr].
      exfalso. apply Hnot. now apply in_map.
    - intros He.
      assert (Hc : In e cache).
      { eapply Permutation_in; [exact Hperm|]. rewrite Hsplit.
        apply in_or_app. now right. }
      split; [exact Hc|]. intros Hk. apply in_map_iff in Hk as (e' & Hfst & He').
      assert (Hc' : In e' cache).
      { eapply Permutation_in; [exact Hperm|]. rewrite Hsplit.
        apply in_or_app. now left. }
      assert (e' = e) by (eapply NoDup_map_injective; eauto). subst e'.
      apply NoDup_app_remove_l in Hnds as Hr.
      clear - Hnds He He'.
      induction removed as [|x removed IH]; [destruct He'|].
      simpl in Hnds. inversion Hnds as [|? ? Hnotin Hnds']; subst.
      destruct He' as [<-|He']; [|auto].
      apply Hnotin, in_or_app. now right. }
  assert (Hlenrest : List.length rest = cacheSizeCap).
  { unfold rest. rewrite length_skipn. unfold sortedEntries.
    rewrite sortBy_length. unfold k. lia. }
  split; [|split].
  - rewrite <- Hlenrest. apply Permutation_length. apply NoDup_Permutation.
    + now apply NoDup_deleteAll.
    + now apply NoDup_app_remove_l in Hnds.
    + exact Hin.
  - intros e He. apply in_deleteAll in He. tauto.
  - intros e e' He He' Hnot. apply Hin in He.
    assert (Hs : In e' (removed ++ rest)).
    { rewrite <- Hsplit. eapply Permutation_in; [symmetry; exact Hperm|exact He']. }
    apply in_app_or in Hs as [Hr|Hr]; [|now apply Hin in Hr].
    apply (StronglySorted_app_cross (fun a b => byStamp a b = true) removed rest);
      [|exact Hr|exact He].
    rewrite <- Hsplit. apply sortBy_sorted; [apply byStamp_total|apply byStamp_trans].
Qed.




End CacheFacts.

(* ================================================================== *)
(** * Part III: further properties of the code                         *)
(* ================================================================== *)

(** ** The range and the shape of the composite score *)

Section ScoreFacts.
Import BandwidthTester.

Lemma Math_round_mono (x y : Q) : (x <= y)%Q -> Math_round x <= Math_round y.
Proof.
  intros H. unfold Math_round. apply Qfloor_resp_le. lra.
Qed.

Lemma round2_mono (x y : Q) : (x <= y)%Q -> (round2 x <= round2 y)%Q.
Proof.
  intros H. unfold round2.
  assert (Hk : Math_round (x * 100) <= Math_round (y * 100))
    by (apply Math_round_mono; lra).
  rewrite Zle_Qle in Hk.
  unfold Qdiv. change (/ 100)%Q with (1 # 100)%Q. lra.
Qed.

(** The three components, before weighting. *)
Lemma latencyScore_range (avgDelay : Q) :
  (0 <= Qmax 0 (100 - avgDelay / 2))%Q
  /\ ((0 <= avgDelay)%Q -> (Qmax 0 (100 - avgDelay / 2) <= 100)%Q).
Proof.
  unfold Qdiv. change (/ 2)%Q with (1 # 2)%Q.
  destruct (Q.max_spec 0 (100 - avgDelay * (1 # 2))) as [[H E]|[H E]];
    rewrite E; split; intros; lra.
Qed.

Lemma bandwidthScore_range (bandwidth : Q) :
  (Qmin 100 (bandwidth * 10) <= 100)%Q
  /\ ((0 <= bandwidth)%Q -> (0 <= Qmin 100 (bandwidth * 10))%Q).
Proof.
  destruct (Q.min_spec 100 (bandwidth * 10)) as [[H E]|[H E]];
    rewrite E; split; intros; lra.
Qed.

Lemma stabilityScore_range (stability : Q) :
  (0 <= Qmax 0 (100 - stability / 10))%Q
  /\ ((0 <= stability)%Q -> (Qmax 0 (100 - stability / 10) <= 100)%Q).
Proof.
  unfold Qdiv. change (/ 10)%Q with (1 # 10)%Q.
  destruct (Q.max_spec 0 (100 - stability * (1 # 10))) as [[H E]|[H E]];
    rewrite E; split; intros; lra.
Qed.

Lemma score_range (minDelay avgDelay bandwidth stability : Q) :
  (0 <= avgDelay)%Q -> (0 <= bandwidth)%Q -> (0 <= stability)%Q ->
  (0 <= calculateScore minDelay avgDelay bandwidth stability)%Q
  /\ (calculateScore minDelay avgDelay bandwidth stability <= 100)%Q.
Proof.
  intros Ha Hb Hs. unfold calculateScore.
  destruct (latencyScore_range avgDelay) as [Hl0 Hl1].
  destruct (bandwidthScore_range bandwidth) as [Hb1 Hb0].
  destruct (stabilityScore_range stability) as [Hs0 Hs1].
  specialize (Hl1 Ha). specialize (Hb0 Hb). specialize (Hs1 Hs).
  set (l := Qmax 0 (100 - avgDelay / 2)) in *.
  set (b := Qmin 100 (bandwidth * 10)) in *.
  set (s := Qmax 0 (100 - stability / 10)) in *.
  assert (H0 : (round2 0 == 0)%Q) by reflexivity.
  assert (H100 : (round2 100 == 100)%Q) by reflexivity.
  split.
  - rewrite <- H0. apply round2_mono. lra.
  - rewrite <- H100. apply round2_mono. lra.
Qed.

(** X1: for a delay, a bandwidth and a stability that are not negative,
    the score lies between 0 and 100. *)
Theorem calculateScore_range (minDelay avgDelay bandwidth stability : Q) :
  (0 <= avgDelay)%Q -> (0 <= bandwidth)%Q -> (0 <= stability)%Q ->
  (0 <= calculateScore minDelay avgDelay bandwidth stability)%Q
  /\ (calculateScore minDelay avgDelay bandwidth stability <= 100)%Q.
Proof. apply score_range. Qed.

Lemma calculateScore_range_witness :
  (0 <= calculateScore 50 50 8 (8 # 5))%Q
  /\ (calculateScore 50 50 8 (8 # 5) <= 100)%Q.
Proof.
  apply (calculateScore_range 50 50 8 (8 # 5)); apply Qle_bool_imp_le; reflexivity.
Defined.

(** Without bandwidth the score is at most 70. *)
Lemma score_without_bandwidth (minDelay avgDelay bandwidth stability : Q) :
  (0 <= avgDelay)%Q -> (0 <= stability)%Q -> (bandwidth == 0)%Q ->
  (calculateScore minDelay avgDelay bandwidth stability <= 70)%Q.
Proof.
  intros Ha Hs Hb. unfold calculateScore.
  destruct (latencyScore_range avgDelay) as [_ Hl1].
  destruct (stabilityScore_range stability) as [_ Hs1].
  specialize (Hl1 Ha). specialize (Hs1 Hs).
  assert (Hw : (Qmin 100 (bandwidth * 10) == 0)%Q).
  { rewrite Q.min_r; lra. }
  assert (H70 : (round2 70 == 70)%Q) by reflexivity.
  rewrite <- H70. apply round2_mono. rewrite Hw.
  set (l := Qmax 0 (100 - avgDelay / 2)) in *.
  set (t := Qmax 0 (100 - stability / 10)) in *. lra.
Qed.

(** X2: a lower average delay, a higher bandwidth and a lower stability
    figure never lower the score, and [minDelay] has no part in it. *)
Theorem calculateScore_monotone
        (minDelay minDelay' avgDelay avgDelay' bandwidth bandwidth'
         stability stability' : Q) :
  (avgDelay <= avgDelay')%Q -> (bandwidth' <= bandwidth)%Q ->
  (stability <= stability')%Q ->
  (calculateScore minDelay' avgDelay' bandwidth' stability'
   <= calculateScore minDelay avgDelay bandwidth stability)%Q.
Proof.
  intros Ha Hb Hs. unfold calculateScore. apply round2_mono.
  assert (Hl : (Qmax 0 (100 - avgDelay' / 2) <= Qmax 0 (100 - avgDelay / 2))%Q).
  { apply Q.max_le_compat_l. unfold Qdiv. change (/ 2)%Q with (1 # 2)%Q. lra. }
  assert (Hw : (Qmin 100 (bandwidth' * 10) <= Qmin 100 (bandwidth * 10))%Q).
  { apply Q.min_le_compat_l. lra. }
  assert (Ht : (Qmax 0 (100 - stability' / 10) <= Qmax 0 (100 - stability / 10))%Q).
  { apply Q.max_le_compat_l. unfold Qdiv. change (/ 10)%Q with (1 # 10)%Q. lra. }
  lra.
Qed.

Lemma calculateScore_monotone_witness :
  (calculateScore 20 40 6 2 <= calculateScore 10 30 8 1)%Q.
Proof.
  apply (calculateScore_monotone 10 20 30 40 8 6 1 2);
    apply Qle_bool_imp_le; reflexivity.
Defined.

Lemma round2_comp_eq (x y : Q) : (x == y)%Q -> (round2 x == round2 y)%Q.
Proof. intros H. rewrite (round2_comp x y H). reflexivity. Qed.

(** X3: the score saturates: a bandwidth above 10 Mbps counts as 10, an
    average delay above 200 ms as 200, a stability figure above 1000 as
    1000. *)
Theorem calculateScore_saturates (minDelay avgDelay bandwidth stability : Q) :
  ((10 <= bandwidth)%Q ->
   (calculateScore minDelay avgDelay bandwidth stability
    == calculateScore minDelay avgDelay 10 stability)%Q)
  /\ ((200 <= avgDelay)%Q ->
      (calculateScore minDelay avgDelay bandwidth stability
       == calculateScore minDelay 200 bandwidth stability)%Q)
  /\ ((1000 <= stability)%Q ->
      (calculateScore minDelay avgDelay bandwidth stability
       == calculateScore minDelay avgDelay bandwidth 1000)%Q).
Proof.
  unfold calculateScore. repeat split; intros H; apply round2_comp_eq.
  - assert (E : (Qmin 100 (bandwidth * 10) == Qmin 100 (10 * 10))%Q).
    { rewrite !Q.min_l; [reflexivity|lra|lra]. }
    rewrite E. reflexivity.
  - assert (E : (Qmax 0 (100 - avgDelay / 2) == Qmax 0 (100 - 200 / 2))%Q).
    { unfold Qdiv. change (/ 2)%Q with (1 # 2)%Q.
      rewrite !Q.max_l; [reflexivity|lra|lra]. }
    rewrite E. reflexivity.
  - assert (E : (Qmax 0 (100 - stability / 10) == Qmax 0 (100 - 1000 / 10))%Q).
    { unfold Qdiv. change (/ 10)%Q with (1 # 10)%Q.
      rewrite !Q.max_l; [reflexivity|lra|lra]. }
    rewrite E. reflexivity.
Qed.
End ScoreFacts.

(** ** Cache clean-up on any cache *)

Section CleanupFacts.
Import GeoResolver.

Lemma filter_twice {A : Type} (f g : A -> bool) (l : list A) :
  filter f (filter g l) = filter (fun x => g x && f x) l.
Proof.
  induction l as [|x l IH]; simpl; [reflexivity|].
  destruct (g x); simpl; [destruct (f x)|]; now rewrite IH.
Qed.

Lemma deleteAll_filter (keys : list string) :
  forall cache : Cache,
    fold_left cacheDelete keys cache
    = filter (fun e => negb (existsb (String.eqb (fst e)) keys)) cache.
Proof.
  induction keys as [|k keys IH]; intros cache; simpl.
  - symmetry. apply filter_all. reflexivity.
  - rewrite IH. unfold cacheDelete. rewrite filter_twice.
    apply filter_ext. intros e. now rewrite negb_orb.
Qed.

Lemma expired_key (now : Z) (ttlHours : Q) (cache : Cache) (e : string * CacheValue) :
  NoDup (map fst cache) -> In e cache ->
  existsb (String.eqb (fst e)) (map fst (filter (expired now ttlHours) cache))
  = expired now ttlHours e.
Proof.
  intros Hnd He. destruct (expired now ttlHours e) eqn:Ex.
  - apply existsb_exists. exists (fst e). split; [|apply String.eqb_refl].
    apply in_map, filter_In. auto.
  - apply not_true_is_false. intros H.
    apply existsb_exists in H as (k & Hk & Heq). apply String.eqb_eq in Heq. subst k.
    apply in_map_iff in Hk as (e' & Hfst & He'). apply filter_In in He' as [He' Hx].
    assert (e' = e) by (eapply NoDup_map_injective; eauto). subst e'. congruence.
Qed.

(** With each key once, the first loop removes the expired entries and
    nothing else. *)
Lemma expiry_pass (now : Z) (ttlHours : Q) (cache : Cache) :
  NoDup (map fst cache) ->
  fold_left cacheDelete (map fst (filter (expired now ttlHours) cache)) cache
  = filter (fun e => negb (expired now ttlHours e)) cache.
Proof.
  intros Hnd. rewrite deleteAll_filter. apply filter_ext_in.
  intros e He. now rewrite expired_key.
Qed.

Lemma cleanCache_within_cap (now : Z) (ttlHours : Q) (cache : Cache) :
  (forall e, In e cache -> expired now ttlHours e = false) ->
  (List.length cache <= cacheSizeCap)%nat ->
  cleanCache now ttlHours cache = cache.
Proof.
  intros Hfresh Hlen. unfold cleanCache.
  rewrite (no_expired_keys _ _ _ Hfresh). cbn [map fold_left].
  apply Nat.ltb_ge in Hlen. now rewrite Hlen.
Qed.

Lemma cleanCache_after_expiry (now : Z) (ttlHours : Q) (cache : Cache) :
  NoDup (map fst cache) ->
  cleanCache now ttlHours cache
  = cleanCache now ttlHours (filter (fun e => negb (expired now ttlHours e)) cache).
Proof.
  intros Hnd.
  set (cache1 := filter (fun e => negb (expired now ttlHours e)) cache).
  assert (Hfresh : forall e, In e cache1 -> expired now ttlHours e = false).
  { intros e He. apply filter_In in He as [_ He]. now apply negb_true_iff in He. }
  unfold cleanCache at 2. rewrite (no_expired_keys _ _ _ Hfresh). cbn [map fold_left].
  unfold cleanCache. now rewrite (expiry_pass _ _ _ Hnd).
Qed.





Lemma cleanCache_result (now : Z) (ttlHours : Q) (cache : Cache) :
  NoDup (map fst cache) ->
  (forall e, In e (cleanCache now ttlHours cache) -> expired now ttlHours e = false)
  /\ (List.length (cleanCache now ttlHours cache) <= cacheSizeCap)%nat.
Proof.
  intros Hnd. rewrite (cleanCache_after_expiry _ _ _ Hnd).
  set (cache1 := filter (fun e => negb (expired now ttlHours e)) cache).
  assert (Hnd1 : NoDup (map fst cache1)) by now apply NoDup_keys_filter.
  assert (Hfresh : forall e, In e cache1 -> expired now ttlHours e = false).
  { intros e He. apply filter_In in He as [_ He]. now apply negb_true_iff in He. }
  destruct (Nat.le_gt_cases (List.length cache1) cacheSizeCap) as [Hle|Hgt].
  - rewrite (cleanCache_within_cap _ _ _ Hfresh Hle). auto.
  - destruct (cleanCache_over_cap now ttlHours cache1 Hnd1 Hgt Hfresh)
      as (Hsize & Hin & _).
    split; [auto|lia].
Qed.

(** X6: cleaning twice at the same instant is cleaning once. *)
Theorem cleanup_is_idempotent (ttlHours : Q) (w : World) :
  NoDup (map fst (regionCache w)) ->
  snd (cleanExpiredCache ttlHours (snd (cleanExpiredCache ttlHours w)))
  = snd (cleanExpiredCache ttlHours w).
Proof.
  intros Hnd. cbn [cleanExpiredCache snd regionCache clock requests].
  destruct (cleanCache_result (clock w) ttlHours (regionCache w) Hnd) as [Hfresh Hle].
  now rewrite (cleanCache_within_cap _ _ _ Hfresh Hle).
Qed.

Lemma cleanup_is_idempotent_witness :
  snd (cleanExpiredCache 168 (snd (cleanExpiredCache 168 Cases.mixedWorld)))
  = snd (cleanExpiredCache 168 Cases.mixedWorld).
Proof.
  apply (cleanup_is_idempotent 168 Cases.mixedWorld).
  apply (distinctb_NoDup String.eqb); [apply String.eqb_eq|reflexivity].
Defined.

(** X7: entries without a timestamp (the old format) are the first to
    go when the cache is over the cap: if one of them is left, every
    entry that was evicted and had not expired was without timestamp
    too. *)
Theorem cleanup_evicts_unstamped_first
        (ttlHours : Q) (w : World) (e e' : string * CacheValue) :
  NoDup (map fst (regionCache w)) ->
  In e (regionCache (snd (cleanExpiredCache ttlHours w))) ->
  stampOf e = None ->
  In e' (regionCache w) ->
  expired (clock w) ttlHours e' = false ->
  ~ In e' (regionCache (snd (cleanExpiredCache ttlHours w))) ->
  stampOf e' = None.
Proof.
  intros Hnd. cbn [cleanExpiredCache snd regionCache].
  rewrite (cleanCache_after_expiry _ _ _ Hnd).
  set (cache1 := filter (fun x => negb (expired (clock w) ttlHours x)) (regionCache w)).
  intros He Hstamp He' Hexp Hnot.
  assert (Hnd1 : NoDup (map fst cache1)) by now apply NoDup_keys_filter.
  assert (Hfresh : forall x, In x cache1 -> expired (clock w) ttlHours x = false).
  { intros x Hx. apply filter_In in Hx as [_ Hx]. now apply negb_true_iff in Hx. }
  assert (He1 : In e' cache1).
  { apply filter_In. split; [exact He'|]. now rewrite Hexp. }
  destruct (Nat.le_gt_cases (List.length cache1) cacheSizeCap) as [Hle|Hgt].
  - rewrite (cleanCache_within_cap _ _ _ Hfresh Hle) in Hnot. contradiction.
  - destruct (cleanCache_over_cap (clock w) ttlHours cache1 Hnd1 Hgt Hfresh)
      as (_ & _ & Hord).
    specialize (Hord e e' He He1 Hnot). unfold byStamp in Hord.
    rewrite Hstamp in Hord. now destruct (stampOf e').
Qed.

Lemma cleanup_evicts_unstamped_first_witness :
  stampOf ("192.0.2.1"%string, Legacy "US") = None.
Proof.
  apply (cleanup_evicts_unstamped_first
           168 Cases.crowdedWorld
           ("192.0.2.2"%string, Legacy "DE") ("192.0.2.1"%string, Legacy "US")).
  - apply (distinctb_NoDup String.eqb); [apply String.eqb_eq|].
    vm_compute. reflexivity.
  - apply (nth_error_In _ 0). vm_compute. reflexivity.
  - reflexivity.
  - left. reflexivity.
  - reflexivity.
  - apply key_absent. vm_compute. reflexivity.
Defined.

Lemma cacheGet_In (cache : Cache) (ip : string) (v : CacheValue) :
  cacheGet cache ip = Some v -> In (ip, v) cache.
Proof.
  induction cache as [|[k v'] cache IH]; simpl; [discriminate|].
  destruct (String.eqb k ip) eqn:E.
  - apply String.eqb_eq in E. intros H. injection H as <-. subst. now left.
  - intros H. right. now apply IH.
Qed.

Lemma not_expired_valid (now ts : Z) (ttlHours : Q) (ip region : string) :
  expired now ttlHours (ip, Entry region (Some ts)) = false ->
  isCacheValid now (Some ts) ttlHours = true.
Proof.
  unfold expired, isCacheValid, Qltb. cbn [snd]. now intros ->.
Qed.

(** X8: after [cleanExpiredCache(ttlHours)], a look-up with the same
    [ttlHours] at that instant of an address that still has a stamped
    entry is answered from the cache: nothing is requested and nothing
    changes. *)
Theorem cleanup_leaves_only_fresh_entries
        (http : Http) (ttlHours : Q) (w : World) (ip region : string) (ts : Z) :
  NoDup (map fst (regionCache w)) ->
  cacheGet (regionCache (snd (cleanExpiredCache ttlHours w))) ip
  = Some (Entry region (Some ts)) ->
  getIpRegion http ip ttlHours (snd (cleanExpiredCache ttlHours w))
  = (Region region, snd (cleanExpiredCache ttlHours w)).
Proof.
  intros Hnd Hget.
  destruct (cleanCache_result (clock w) ttlHours (regionCache w) Hnd) as [Hfresh _].
  apply fresh_entry_is_returned with (ts := ts); [exact Hget|].
  apply isCacheValid_iff.
  cbn [cleanExpiredCache snd regionCache clock] in *.
  apply (not_expired_valid _ _ _ ip region). apply Hfresh. now apply cacheGet_In.
Qed.

Lemma cleanup_leaves_only_fresh_entries_witness :
  getIpRegion Scenario.webDown "192.0.2.3" 168
              (snd (cleanExpiredCache 168 Cases.mixedWorld))
  = (Region "JP", snd (cleanExpiredCache 168 Cases.mixedWorld)).
Proof.
  apply (cleanup_leaves_only_fresh_entries
           Scenario.webDown 168 Cases.mixedWorld "192.0.2.3" "JP" 900000).
  - apply (distinctb_NoDup String.eqb); [apply String.eqb_eq|reflexivity].
  - reflexivity.
Defined.
End CleanupFacts.

(** ** One look-up, whatever the web answers *)

Section LookupFacts.
Import GeoResolver.

Lemma cacheGet_cacheSet_other (cache : Cache) (ip ip' : string) (v : CacheValue) :
  ip' <> ip -> cacheGet (cacheSet cache ip v) ip' = cacheGet cache ip'.
Proof.
  intros Hne. induction cache as [|[k v'] cache IH]; simpl.
  - destruct (String.eqb ip ip') eqn:E; [|reflexivity].
    apply String.eqb_eq in E. congruence.
  - destruct (String.eqb k ip) eqn:E; simpl.
    + apply String.eqb_eq in E. subst k.
      destruct (String.eqb ip ip') eqn:E'; [|reflexivity].
      apply String.eqb_eq in E'. congruence.
    + now rewrite IH.
Qed.

Lemma cacheSet_keys (cache : Cache) (ip : string) (v : CacheValue) :
  map fst (cacheSet cache ip v)
  = if existsb (String.eqb ip) (map fst cache) then map fst cache
    else map fst cache ++ [ip].
Proof.
  induction cache as [|[k v'] cache IH]; simpl; [reflexivity|].
  rewrite (String.eqb_sym ip k). destruct (String.eqb k ip); simpl; [reflexivity|].
  rewrite IH. now destruct (existsb (String.eqb ip) (map fst cache)).
Qed.

Lemma cacheSet_NoDup (cache : Cache) (ip : string) (v : CacheValue) :
  NoDup (map fst cache) -> NoDup (map fst (cacheSet cache ip v)).
Proof.
  intros Hnd. rewrite cacheSet_keys.
  destruct (existsb (String.eqb ip) (map fst cache)) eqn:E; [exact Hnd|].
  apply NoDup_app; [exact Hnd|repeat constructor; intros []|].
  intros k Hk [Heq|[]]. subst k.
  assert (existsb (String.eqb ip) (map fst cache) = true); [|congruence].
  apply existsb_exists. exists ip. split; [exact Hk|apply String.eqb_refl].
Qed.

Lemma cacheSet_length (cache : Cache) (ip : string) (v : CacheValue) :
  (List.length cache <= List.length (cacheSet cache ip v) <= S (List.length cache))%nat.
Proof.
  induction cache as [|[k v'] cache IH]; simpl; [lia|].
  destruct (String.eqb k ip); simpl; lia.
Qed.

Lemma upperChar_idem (c : ascii) : upperChar (upperChar c) = upperChar c.
Proof.
  destruct c as [[] [] [] [] [] [] [] []]; reflexivity.
Qed.

Lemma toUpperCase_idem (s : string) : toUpperCase (toUpperCase s) = toUpperCase s.
Proof.
  induction s as [|c s IH]; simpl; [reflexivity|].
  now rewrite upperChar_idem, IH.
Qed.

Lemma upperCode_Some (code : option string) (u : string) :
  upperCode code = Some u -> u <> ""%string /\ toUpperCase u = u.
Proof.
  destruct code as [c|]; simpl; [|discriminate].
  destruct (truthy (toUpperCase c)) eqn:E; [|discriminate].
  intros H. injection H as <-. split; [|apply toUpperCase_idem].
  intros E'. rewrite E' in E. discriminate.
Qed.

Lemma primaryCode_Some (r : HttpResult) (u : string) :
  primaryCode r = Some u -> u <> ""%string /\ toUpperCase u = u.
Proof.
  destruct r as [|st [data|]]; simpl; try discriminate.
  destruct (st =? 200); [apply upperCode_Some|discriminate].
Qed.

Lemma secondaryCode_Some (r : HttpResult) (u : string) :
  secondaryCode r = Some u -> u <> ""%string /\ toUpperCase u = u.
Proof.
  destruct r as [|st [data|]]; simpl; try discriminate.
  destruct (status data) as [s|]; [|discriminate].
  destruct (String.eqb s "success"); [apply upperCode_Some|discriminate].
Qed.

(** What the part of [getIpRegion] that asks the services leaves. *)
Lemma lookup_outcome (http : Http) (ip : string) (w : World) :
  exists (code : string) (sent : list string) (now : Z),
    lookup http ip w
    = (Region code,
       mkWorld (cacheSet (regionCache w) ip (Entry code (Some now))) now
               (requests w ++ sent))
    /\ (sent = [primaryUrl ip] \/ sent = [primaryUrl ip; secondaryUrl ip])
    /\ code <> ""%string
    /\ (code = "Unknown"%string \/ toUpperCase code = code).
Proof.
  unfold lookup, store, httpGet, getNow, writeCache, ret, bind.
  cbn [regionCache clock requests].
  destruct (primaryCode (result (http (primaryUrl ip) (clock w)))) as [c|] eqn:Hp.
  - destruct (primaryCode_Some _ _ Hp) as [Hne Hup].
    exists c, [primaryUrl ip]. eexists. cbn [regionCache clock requests].
    split; [reflexivity|]. auto.
  - cbn [regionCache clock requests].
    destruct (secondaryCode
                (result (http (secondaryUrl ip)
                              (settledAt (http (primaryUrl ip) (clock w))))))
      as [c|] eqn:Hs.
    + destruct (secondaryCode_Some _ _ Hs) as [Hne Hup].
      exists c, [primaryUrl ip; secondaryUrl ip]. eexists.
      cbn [regionCache clock requests]. rewrite <- app_assoc.
      split; [reflexivity|]. auto.
    + exists "Unknown"%string, [primaryUrl ip; secondaryUrl ip]. eexists.
      cbn [regionCache clock requests]. rewrite <- app_assoc.
      split; [reflexivity|]. repeat split; auto. discriminate.
Qed.

Lemma getIpRegion_cases (http : Http) (ip : string) (ttlHours : Q) (w : World) :
  (exists answer, fst (cached ip ttlHours w) = Some answer /\
                  getIpRegion http ip ttlHours w = (answer, w))
  \/ (fst (cached ip ttlHours w) = None /\
      getIpRegion http ip ttlHours w = lookup http ip w).
Proof.
  unfold getIpRegion, bind.
  pose proof (cached_world ip ttlHours w) as Hw.
  destruct (cached ip ttlHours w) as [[answer|] w']; simpl in *; subst w'.
  - left. eauto.
  - right. auto.
Qed.

Lemma getIpRegion_effects
        (http : Http) (ip : string) (ttlHours : Q) (w : World) :
  (exists sent,
      requests (snd (getIpRegion http ip ttlHours w)) = requests w ++ sent
      /\ (sent = [] \/ sent = [primaryUrl ip]
          \/ sent = [primaryUrl ip; secondaryUrl ip]))
  /\ (forall ip', ip' <> ip ->
                  cacheGet (regionCache (snd (getIpRegion http ip ttlHours w))) ip'
                  = cacheGet (regionCache w) ip')
  /\ (List.length (regionCache (snd (getIpRegion http ip ttlHours w)))
      <= S (List.length (regionCache w)))%nat
  /\ (NoDup (map fst (regionCache w)) ->
      NoDup (map fst (regionCache (snd (getIpRegion http ip ttlHours w))))).
Proof.
  destruct (getIpRegion_cases http ip ttlHours w) as [(answer & _ & ->)|[_ ->]].
  - cbn [snd]. split; [exists []; rewrite app_nil_r; auto|].
    repeat split; auto.
  - destruct (lookup_outcome http ip w) as (code & sent & now & -> & Hsent & _).
    cbn [snd regionCache requests]. split; [exists sent; split; [reflexivity|tauto]|].
    split; [intros ip' Hne; now apply cacheGet_cacheSet_other|].
    split; [apply cacheSet_length|apply cacheSet_NoDup].
Qed.

(** X9: one call of [getIpRegion] sends at most two requests, the first
    service before the second; it touches no entry of another address,
    adds at most one entry, and keeps each key once. *)
Theorem getIpRegion_frame
        (http : Http) (ip : string) (ttlHours : Q) (w : World) :
  (exists sent,
      requests (snd (getIpRegion http ip ttlHours w)) = requests w ++ sent
      /\ (sent = [] \/ sent = [primaryUrl ip]
          \/ sent = [primaryUrl ip; secondaryUrl ip]))
  /\ (forall ip', ip' <> ip ->
                  cacheGet (regionCache (snd (getIpRegion http ip ttlHours w))) ip'
                  = cacheGet (regionCache w) ip')
  /\ (List.length (regionCache (snd (getIpRegion http ip ttlHours w)))
      <= S (List.length (regionCache w)))%nat
  /\ (NoDup (map fst (regionCache w)) ->
      NoDup (map fst (regionCache (snd (getIpRegion http ip ttlHours w))))).
Proof. apply getIpRegion_effects. Qed.

(** X10: when the cache gives no answer, the code that [getIpRegion]
    returns is never empty, is "Unknown" or in upper case, and is stored
    for the address with the instant of the clock; asked again in the
    world it leaves, with a positive [ttlHours], it gives the same code
    and sends nothing. *)
Theorem getIpRegion_stores_what_it_returns
        (http : Http) (ip : string) (ttlHours : Q) (w : World) :
  fst (cached ip ttlHours w) = None ->
  (0 < ttlHours)%Q ->
  exists code,
    fst (getIpRegion http ip ttlHours w) = Region code
    /\ code <> ""%string
    /\ (code = "Unknown"%string \/ toUpperCase code = code)
    /\ cacheGet (regionCache (snd (getIpRegion http ip ttlHours w))) ip
       = Some (Entry code (Some (clock (snd (getIpRegion http ip ttlHours w)))))
    /\ forall http',
         getIpRegion http' ip ttlHours (snd (getIpRegion http ip ttlHours w))
         = (Region code, snd (getIpRegion http ip ttlHours w)).
Proof.
  intros Hmiss Httl.
  destruct (getIpRegion_cases http ip ttlHours w) as [(answer & Hhit & _)|[_ ->]];
    [congruence|].
  destruct (lookup_outcome http ip w) as (code & sent & now & -> & _ & Hne & Hup).
  exists code. cbn [fst snd regionCache clock].
  rewrite cacheGet_cacheSet. repeat split; auto.
  intros http'. apply fresh_entry_is_returned with (ts := now).
  - cbn [regionCache]. apply cacheGet_cacheSet.
  - cbn [clock]. rewrite Z.sub_diag.
    change (inject_Z msPerHour) with 3600000%Q. change (inject_Z 0) with 0%Q. lra.
Qed.

Lemma getIpRegion_stores_what_it_returns_witness :
  exists code,
    fst (getIpRegion Scenario.webDown Scenario.address 168 Scenario.emptyWorld)
    = Region code
    /\ code <> ""%string
    /\ (code = "Unknown"%string \/ toUpperCase code = code)
    /\ cacheGet (regionCache
                   (snd (getIpRegion Scenario.webDown Scenario.address 168
                                     Scenario.emptyWorld)))
                Scenario.address
       = Some (Entry code
                     (Some (clock (snd (getIpRegion Scenario.webDown Scenario.address
                                                    168 Scenario.emptyWorld)))))
    /\ forall http',
         getIpRegion http' Scenario.address 168
                     (snd (getIpRegion Scenario.webDown Scenario.address 168
                                       Scenario.emptyWorld))
         = (Region code,
            snd (getIpRegion Scenario.webDown Scenario.address 168
                             Scenario.emptyWorld)).
Proof.
  apply (getIpRegion_stores_what_it_returns
           Scenario.webDown Scenario.address 168 Scenario.emptyWorld);
    reflexivity.
Defined.
End LookupFacts.

(** ** The quick filter *)

Section QuickFacts.
Import IpTester QuickFilter Notions2.

Lemma answers_weaken (good good' : Z -> Prop) conn pos ports :
  (forall d, good d -> good' d) ->
  answers good conn pos ports -> answers good' conn pos ports.
Proof.
  intros H (i & port & d & H1 & H2 & H3 & H4). exists i, port, d. auto.
Qed.

(** What the port loop of [quickFilterIp] returns, started with a
    running minimum that is not below 200. *)
Lemma quickLoop_spec (conn : nat -> ConnResult) (ports : list Z) :
  forall pos m,
    (forall x, m = Some x -> 200 <= x) ->
    match quickLoop conn pos ports m with
    | inl r =>
        isGood r = true /\ delay r < 200
        /\ answers (fun d => d = delay r) conn pos ports
    | inr m' =>
        (forall d, answers (fun d' => d' = d) conn pos ports ->
                   exists x, m' = Some x /\ x <= d)
        /\ (forall x, m' = Some x ->
                      200 <= x /\
                      (m = Some x \/ answers (fun d => d = x) conn pos ports))
        /\ (forall y, m = Some y -> exists x, m' = Some x /\ x <= y)
    end.
Proof.
  induction ports as [|port rest IH]; intros pos m Hm; simpl.
  - split; [|split].
    + intros d H. now apply answers_nil in H.
    + intros x Hx. split; [now apply Hm|now left].
    + intros y Hy. exists y. split; [exact Hy|lia].
  - destruct (validPort port) eqn:Hv; simpl.
    + destruct (conn pos) as [delay|] eqn:Hc.
      * destruct (delay <? 200) eqn:Hd.
        -- apply Z.ltb_lt in Hd. split; [reflexivity|]. split; [exact Hd|].
           apply answers_cons. left. split; [exact Hv|]. exists delay. auto.
        -- apply Z.ltb_ge in Hd.
           assert (Hm' : forall x, Some (minWith m delay) = Some x -> 200 <= x).
           { intros x Hx. injection Hx as <-. destruct m as [y|]; simpl; [|exact Hd].
             specialize (Hm y eq_refl). lia. }
           specialize (IH (S pos) (Some (minWith m delay)) Hm').
           destruct (quickLoop conn (S pos) rest (Some (minWith m delay))) as [r|m'].
           ++ destruct IH as (H1 & H2 & H3). repeat split; auto.
              apply answers_cons. now right.
           ++ destruct IH as (H1 & H2 & H3).
              destruct (H3 _ eq_refl) as (x0 & Hx0 & Hle0).
              split; [|split].
              ** intros d Hans. apply answers_cons in Hans
                   as [[_ (d' & Hd' & ->)]|Hans]; [|now apply H1].
                 rewrite Hc in Hd'. injection Hd' as <-.
                 exists x0. split; [exact Hx0|].
                 destruct m as [y|]; simpl in Hle0; lia.
              ** intros x Hx. destruct (H2 x Hx) as [Hx200 [Hx'|Hx']].
                 --- split; [exact Hx200|]. injection Hx' as Hx'.
                     destruct m as [y|]; simpl in Hx'.
                     +++ destruct (Z.min_spec y delay) as [[_ E]|[_ E]];
                           rewrite E in Hx'; subst x.
                         *** now left.
                         *** right. apply answers_cons. left.
                             split; [exact Hv|]. exists delay. auto.
                     +++ subst x. right. apply answers_cons. left.
                         split; [exact Hv|]. exists delay. auto.
                 --- split; [exact Hx200|]. right. apply answers_cons. now right.
              ** intros y Hy. subst m. exists x0. split; [exact Hx0|].
                 simpl in Hle0. lia.
      * specialize (IH (S pos) m Hm).
        destruct (quickLoop conn (S pos) rest m) as [r|m'].
        -- destruct IH as (H1 & H2 & H3). repeat split; auto.
           apply answers_cons. now right.
        -- destruct IH as (H1 & H2 & H3). split; [|split]; [| |exact H3].
           ++ intros d Hans. apply answers_cons in Hans
                as [[_ (d' & Hd' & _)]|Hans]; [congruence|now apply H1].
           ++ intros x Hx. destruct (H2 x Hx) as [Hx200 [Hx'|Hx']]; split; auto.
              right. apply answers_cons. now right.
    + specialize (IH (S pos) m Hm).
      destruct (quickLoop conn (S pos) rest m) as [r|m'].
      * destruct IH as (H1 & H2 & H3). repeat split; auto.
        apply answers_cons. now right.
      * destruct IH as (H1 & H2 & H3). split; [|split]; [| |exact H3].
        -- intros d Hans. apply answers_cons in Hans
             as [[Hv' _]|Hans]; [congruence|now apply H1].
        -- intros x Hx. destruct (H2 x Hx) as [Hx200 [Hx'|Hx']]; split; auto.
           right. apply answers_cons. now right.
Qed.

(** X11: for a valid address, [quickFilterIp] accepts exactly when some
    valid configured port answers the connect within 500 ms; the delay it
    reports is then the delay of such a connect, and it is 0 when the
    address is rejected. *)
Theorem quickFilterIp_accepts_within_500
        (conn : nat -> ConnResult) (ip : string) (ports : list Z) :
  isValidIp ip = true ->
  (isGood (quickFilterIp conn ip (Some ports)) = true
   <-> answers (fun d => d <= 500) conn 0 ports)
  /\ (isGood (quickFilterIp conn ip (Some ports)) = true ->
      delay (quickFilterIp conn ip (Some ports)) <= 500
      /\ answers (fun d => d = delay (quickFilterIp conn ip (Some ports)))
                 conn 0 ports)
  /\ (isGood (quickFilterIp conn ip (Some ports)) = false ->
      delay (quickFilterIp conn ip (Some ports)) = 0).
Proof.
  intros Hip. unfold quickFilterIp. rewrite Hip. cbn [negb].
  pose proof (quickLoop_spec conn ports 0 None) as Hspec.
  destruct (quickLoop conn 0 ports None) as [r|[m|]].
  - destruct Hspec as (Hg & Hd & Hans); [discriminate|].
    split; [|split].
    + split; [|auto]. intros _. eapply answers_weaken; [|exact Hans].
      intros d ->. lia.
    + intros _. split; [lia|exact Hans].
    + congruence.
  - destruct Hspec as (H1 & H2 & _); [discriminate|].
    destruct (H2 m eq_refl) as [_ [Hm|Hans]]; [discriminate|].
    destruct (m >? 500) eqn:E.
    + apply Z.gtb_lt in E. cbn [isGood delay]. split; [|split].
      * split; [discriminate|]. intros (i & port & d & Hi & Hv & Hc & Hd).
        destruct (H1 d) as (x & Hx & Hle); [exists i, port, d; auto|].
        injection Hx as <-. lia.
      * discriminate.
      * reflexivity.
    + assert (Hm : m <= 500) by (destruct (Z.gtb_spec m 500); [discriminate|lia]).
      cbn [isGood delay]. split; [|split].
      * split; [|auto]. intros _. eapply answers_weaken; [|exact Hans].
        intros d ->. exact Hm.
      * intros _. split; [exact Hm|exact Hans].
      * discriminate.
  - destruct Hspec as (H1 & _ & _); [discriminate|].
    cbn [isGood delay]. split; [|split].
    + split; [discriminate|]. intros (i & port & d & Hi & Hv & Hc & Hd).
      destruct (H1 d) as (x & Hx & _); [exists i, port, d; auto|]. discriminate.
    + discriminate.
    + reflexivity.
Qed.

Lemma quickFilterIp_accepts_within_500_witness :
  isGood (quickFilterIp Cases.connSlow Scenario.address (Some Scenario.testPorts))
  = true
  <-> answers (fun d => d <= 500) Cases.connSlow 0 Scenario.testPorts.
Proof.
  apply (quickFilterIp_accepts_within_500
           Cases.connSlow Scenario.address Scenario.testPorts).
  reflexivity.
Defined.

Lemma no_fast_connect_unavailable
      (net : Network) (ip : string) (ports : list Z) (n : nat) :
  (forall a, (a < n)%nat -> ~ connectsFast (net a) ports) ->
  testIpAvailability net ip (Some ports) n = unavailable.
Proof.
  intros Hno. unfold testIpAvailability.
  destruct (isValidIp ip); [|reflexivity]. cbn [negb].
  assert (Hz : (0 <? successCount (probe net ports n))%nat = false).
  { apply Nat.ltb_ge. apply Nat.nlt_ge. intros H.
    apply probe_success_iff in H as (a & Ha & Hf). exact (Hno a Ha Hf). }
  unfold summarize. now rewrite Hz.
Qed.

(** X12: the two filters do not agree: an address that [quickFilterIp]
    accepts with a delay of 200 ms or more is unavailable for
    [testIpAvailability], whatever the number of attempts, when every
    attempt meets the network the quick filter met. *)
Theorem quick_filter_accepts_what_the_stability_pass_rejects
        (conn : nat -> ConnResult) (net : Network) (ip : string)
        (ports : list Z) (pingCount : nat) :
  isGood (quickFilterIp conn ip (Some ports)) = true ->
  200 <= delay (quickFilterIp conn ip (Some ports)) ->
  (forall a i, net a i = conn i) ->
  testIpAvailability net ip (Some ports) pingCount = unavailable.
Proof.
  unfold quickFilterIp. destruct (isValidIp ip); [|discriminate]. cbn [negb].
  pose proof (quickLoop_spec conn ports 0 None) as Hspec.
  destruct (quickLoop conn 0 ports None) as [r|[m|]].
  - destruct Hspec as (_ & Hd & _); [discriminate|]. intros _ H. lia.
  - destruct Hspec as (H1 & H2 & _); [discriminate|].
    destruct (H2 m eq_refl) as [Hm _].
    intros _ _ Hnet. apply no_fast_connect_unavailable.
    intros a _ (i & port & d & Hi & Hv & Hc & Hd).
    rewrite Hnet in Hc.
    destruct (H1 d) as (x & Hx & Hle); [exists i, port, d; auto|].
    injection Hx as <-. lia.
  - discriminate.
Qed.

Lemma quick_filter_accepts_what_the_stability_pass_rejects_witness :
  testIpAvailability Scenario.netSlow Scenario.address (Some Scenario.testPorts) 5
  = unavailable.
Proof.
  apply (quick_filter_accepts_what_the_stability_pass_rejects
           Cases.connSlow Scenario.netSlow Scenario.address Scenario.testPorts 5).
  - reflexivity.
  - vm_compute. discriminate.
  - intros a i. reflexivity.
Defined.

Lemma quickFilterLoop_acc nets testPorts (ips : list string) :
  forall i acc,
    quickFilterLoop nets testPorts i ips acc
    = acc ++ quickFilterLoop nets testPorts i ips [].
Proof.
  induction ips as [|ip rest IH]; intros i acc; simpl.
  - now rewrite app_nil_r.
  - destruct (isGood (quickFilterIp (nets i) ip testPorts)).
    + rewrite IH, (IH _ [ip]). now rewrite app_assoc.
    + apply IH.
Qed.

Lemma quickFilterLoop_spec nets testPorts (ips : list string) :
  forall i,
    Subseq (quickFilterLoop nets testPorts i ips []) ips
    /\ forall ip,
         In ip (quickFilterLoop nets testPorts i ips []) <->
         exists j, nth_error ips j = Some ip /\
                   isGood (quickFilterIp (nets (i + j)%nat) ip testPorts) = true.
Proof.
  induction ips as [|ip0 rest IH]; intros i; simpl.
  - split; [constructor|]. intros ip. split; [intros []|].
    intros (j & Hj & _). destruct j; discriminate.
  - destruct (IH (S i)) as [Hsub Hin].
    destruct (isGood (quickFilterIp (nets i) ip0 testPorts)) eqn:Hg.
    + rewrite quickFilterLoop_acc. simpl. split; [now constructor|].
      intros ip. split.
      * intros [<-|H].
        -- exists 0%nat. rewrite Nat.add_0_r. auto.
        -- apply Hin in H as (j & Hj & Hgj). exists (S j).
           rewrite Nat.add_succ_r. auto.
      * intros ([|j] & Hj & Hgj); simpl in Hj.
        -- injection Hj as <-. now left.
        -- right. apply Hin. exists j. rewrite Nat.add_succ_r in Hgj. auto.
    + split; [now constructor|]. intros ip. split.
      * intros H. apply Hin in H as (j & Hj & Hgj). exists (S j).
        rewrite Nat.add_succ_r. auto.
      * intros ([|j] & Hj & Hgj); simpl in Hj.
        -- injection Hj as <-. rewrite Nat.add_0_r in Hgj. congruence.
        -- apply Hin. exists j. rewrite Nat.add_succ_r in Hgj. auto.
Qed.

Lemma quickFilterIp_good_valid conn ip testPorts :
  isGood (quickFilterIp conn ip testPorts) = true ->
  isValidIp ip = true /\ exists ports, testPorts = Some ports.
Proof.
  unfold quickFilterIp. destruct (isValidIp ip); [|discriminate].
  destruct testPorts as [ports|]; [eauto|discriminate].
Qed.

Lemma indexed_cons {A : Type} (i : nat) (x : A) (l : list A) :
  indexed i (x :: l) = (i, x) :: indexed (S i) l.
Proof. reflexivity. Qed.

Lemma quickFilterLoop_indexed nets testPorts (ips : list string) :
  forall i,
    quickFilterLoop nets testPorts i ips []
    = map snd
          (filter (fun ji => isGood (quickFilterIp (nets (fst ji)) (snd ji) testPorts))
                  (indexed i ips)).
Proof.
  induction ips as [|ip rest IH]; intros i.
  - reflexivity.
  - rewrite indexed_cons. cbn [quickFilterLoop filter fst snd].
    destruct (isGood (quickFilterIp (nets i) ip testPorts)).
    + rewrite quickFilterLoop_acc, IH. reflexivity.
    + apply IH.
Qed.

(** X13: [quickFilterIps] returns, in the order of the input, the
    addresses at exactly the indices where [quickFilterIp] accepts: an
    address that is in the input twice is kept as often as it is
    accepted.  The result is the input with addresses left out, and each
    address it keeps is valid. *)
Theorem quickFilterIps_keeps_accepted
        (nets : nat -> nat -> ConnResult) (ips : list string)
        (testPorts : option (list Z)) :
  quickFilterIps nets ips testPorts = map snd (accepted nets testPorts ips)
  /\ Subseq (quickFilterIps nets ips testPorts) ips
  /\ (forall ip, In ip (quickFilterIps nets ips testPorts) -> isValidIp ip = true).
Proof.
  unfold quickFilterIps, accepted.
  destruct (quickFilterLoop_spec nets testPorts ips 0) as [Hsub Hin].
  split; [apply quickFilterLoop_indexed|]. split; [exact Hsub|].
  intros ip H. apply Hin in H as (j & _ & Hg).
  now apply quickFilterIp_good_valid in Hg.
Qed.
End QuickFacts.

(** ** The batches of [testIpsConcurrently] *)

Section BatchFacts.
Import IpTester QuickFilter Notions2.

Lemma batchResults_spec nets testPorts (batchIps : list string) :
  forall k acc,
    batchResults nets testPorts k batchIps acc
    = acc ++ availableFrom nets testPorts k batchIps.
Proof.
  induction batchIps as [|ip rest IH]; intros k acc; simpl.
  - now rewrite app_nil_r.
  - destruct (isAvailable (testIpAvailability (nets k) ip testPorts 5)).
    + rewrite IH. now rewrite <- app_assoc.
    + apply IH.
Qed.

Lemma availableFrom_app nets testPorts (l1 l2 : list string) :
  forall k,
    availableFrom nets testPorts k (l1 ++ l2)
    = availableFrom nets testPorts k l1
      ++ availableFrom nets testPorts (k + List.length l1) l2.
Proof.
  induction l1 as [|ip l1 IH]; intros k; simpl.
  - now rewrite Nat.add_0_r.
  - rewrite IH, <- app_assoc. now rewrite Nat.add_succ_r.
Qed.

Lemma availableFrom_batch nets testPorts (l : list string) (k b : nat) :
  availableFrom nets testPorts k l
  = availableFrom nets testPorts k (firstn b l)
    ++ availableFrom nets testPorts (k + b) (skipn b l).
Proof.
  rewrite <- (firstn_skipn b l) at 1. rewrite availableFrom_app, length_firstn.
  destruct (Nat.le_gt_cases b (List.length l)) as [H|H].
  - now rewrite Nat.min_l.
  - rewrite skipn_all2 by lia. reflexivity.
Qed.

Lemma batchLoop_enough nets testPorts (batchSize : nat) (ips : list string) :
  (0 < batchSize)%nat ->
  forall fuel i acc,
    (List.length ips - i <= fuel)%nat ->
    batchLoop fuel nets testPorts batchSize ips i acc
    = Some (acc ++ availableFrom nets testPorts i (skipn i ips)).
Proof.
  intros Hb. induction fuel as [|fuel IH]; intros i acc Hfuel.
  - simpl. assert (Hi : (i <? List.length ips)%nat = false)
      by (apply Nat.ltb_ge; lia).
    rewrite Hi, skipn_all2 by lia. now rewrite app_nil_r.
  - simpl. destruct (i <? List.length ips)%nat eqn:Hi.
    + apply Nat.ltb_lt in Hi. rewrite IH by lia.
      rewrite batchResults_spec. unfold slice.
      replace (i + batchSize - i)%nat with batchSize by lia.
      rewrite (availableFrom_batch nets testPorts (skipn i ips) i batchSize).
      rewrite skipn_skipn, <- app_assoc, (Nat.add_comm batchSize i). reflexivity.
    + apply Nat.ltb_ge in Hi. rewrite skipn_all2 by lia. now rewrite app_nil_r.
Qed.

(** X14: with a batch size of at least 1, [testIpsConcurrently] is over
    after at most as many rounds as there are addresses, and what it
    returns does not depend on the batch size: the available addresses
    with their statistics, in the order of the input. *)
Theorem testIpsConcurrently_any_batch_size
        (fuel : nat) (nets : nat -> Network) (ips : list string)
        (testPorts : option (list Z)) (batchSize : nat) :
  (0 < batchSize)%nat ->
  (List.length ips <= fuel)%nat ->
  testIpsConcurrently fuel nets ips testPorts batchSize
  = Some (availableFrom nets testPorts 0 ips).
Proof.
  intros Hb Hfuel. unfold testIpsConcurrently.
  rewrite (batchLoop_enough nets testPorts batchSize ips Hb) by lia.
  reflexivity.
Qed.

Lemma testIpsConcurrently_any_batch_size_witness :
  testIpsConcurrently 2 (fun _ => Scenario.netFast) Cases.twoAddresses
                      (Some Scenario.testPorts) 10
  = Some (availableFrom (fun _ => Scenario.netFast) (Some Scenario.testPorts) 0
                        Cases.twoAddresses).
Proof.
  apply (testIpsConcurrently_any_batch_size
           2 (fun _ => Scenario.netFast) Cases.twoAddresses
           (Some Scenario.testPorts) 10).
  - lia.
  - vm_compute. lia.
Defined.

Lemma batchLoop_zero nets testPorts (ips : list string) (i : nat) :
  (i < List.length ips)%nat ->
  forall fuel acc, batchLoop fuel nets testPorts 0 ips i acc = None.
Proof.
  intros Hi. apply Nat.ltb_lt in Hi.
  induction fuel as [|fuel IH]; intros acc; simpl; rewrite Hi; [reflexivity|].
  rewrite Nat.add_0_r. apply IH.
Qed.

(** X15: with a batch size of 0 and at least one address, the loop of
    [testIpsConcurrently] never ends: no number of rounds gives a
    result. *)
Theorem testIpsConcurrently_batch_size_zero
        (fuel : nat) (nets : nat -> Network) (ips : list string)
        (testPorts : option (list Z)) :
  ips <> [] ->
  testIpsConcurrently fuel nets ips testPorts 0 = None.
Proof.
  intros Hne. apply batchLoop_zero. destruct ips; [congruence|simpl; lia].
Qed.

Lemma testIpsConcurrently_batch_size_zero_witness :
  testIpsConcurrently 1000 (fun _ => Scenario.netFast) Cases.twoAddresses
                      (Some Scenario.testPorts) 0
  = None.
Proof.
  apply (testIpsConcurrently_batch_size_zero
           1000 (fun _ => Scenario.netFast) Cases.twoAddresses
           (Some Scenario.testPorts)).
  discriminate.
Defined.
End BatchFacts.

(** ** What the bandwidth probe reports *)

Section ProbeReport.
Import BandwidthTester Notions2.

Lemma urlStep_speedOf (d : Download) (b : Best) :
  urlStep d b =
  match speedOf d with
  | None => inr b
  | Some s =>
      match d with
      | Response _ (Some t) =>
          let latency := startDownload t - startTime t in
          let bestLatency' :=
            if bestLatency b =? 0 then latency else Z.min (bestLatency b) latency in
          if Qltb 5 s
          then inl (mkBandwidth true (Qmax (bestSpeed b) s) bestLatency')
          else inr (mkBest (Qmax (bestSpeed b) s) bestLatency')
      | _ => inr b
      end
  end.
Proof.
  destruct d as [|status [t|]]; simpl; try reflexivity.
  - destruct (status =? 200); simpl; [|reflexivity].
    destruct (Qltb 0 _ && (0 <? dataDownloaded t)); reflexivity.
  - now destruct (status =? 200).
Qed.

Lemma speedOf_positive (d : Download) (s : Q) : speedOf d = Some s -> (0 < s)%Q.
Proof.
  destruct d as [|status [t|]]; simpl; try discriminate.
  destruct (status =? 200); simpl; [|discriminate].
  destruct (Qltb 0 _) eqn:Ht; simpl; [|discriminate].
  destruct (0 <? dataDownloaded t) eqn:Hb; [|discriminate].
  intros H. injection H as <-.
  apply Qltb_lt in Ht. apply Z.ltb_lt in Hb.
  apply Qlt_shift_div_l.
  - apply Qmult_lt_0_compat; [exact Ht|reflexivity].
  - rewrite Qmult_0_l. change 0%Q with (inject_Z 0). rewrite <- Zlt_Qlt. lia.
Qed.

Lemma urlStep_inl (d : Download) (b : Best) (r : Bandwidth) :
  urlStep d b = inl r ->
  isFast r = true /\ (5 < bandwidth r)%Q
  /\ exists s, speedOf d = Some s /\ (5 < s)%Q.
Proof.
  rewrite urlStep_speedOf. destruct (speedOf d) as [s|]; [|discriminate].
  destruct d as [|status [t|]]; try discriminate. cbv zeta.
  destruct (Qltb 5 s) eqn:E; [|discriminate].
  intros H. injection H as <-. apply Qltb_lt in E. cbn [isFast bandwidth].
  split; [reflexivity|]. split; [|eauto].
  eapply Qlt_le_trans; [exact E|apply Q.le_max_r].
Qed.

Lemma urlStep_inr (d : Download) (b b' : Best) :
  urlStep d b = inr b' ->
  (bestSpeed b <= bestSpeed b')%Q
  /\ forall s, speedOf d = Some s -> (s <= 5)%Q /\ (s <= bestSpeed b')%Q.
Proof.
  rewrite urlStep_speedOf. destruct (speedOf d) as [s|] eqn:Hs.
  - destruct d as [|status [t|]]; try discriminate. cbv zeta.
    destruct (Qltb 5 s) eqn:E; [discriminate|].
    intros H. injection H as <-. cbn [bestSpeed].
    split; [apply Q.le_max_l|]. intros s' Hs'. injection Hs' as <-.
    split; [|apply Q.le_max_r].
    apply Qnot_lt_le. intros Hlt. apply Qltb_lt in Hlt. congruence.
  - intros H. injection H as <-. split; [apply Qle_refl|discriminate].
Qed.

Lemma urlLoop_inl (dl : nat -> Download) (urls : list nat) :
  forall b r,
    urlLoop dl urls b = inl r ->
    isFast r = true /\ (5 < bandwidth r)%Q.
Proof.
  induction urls as [|u urls IH]; intros b r; simpl; [discriminate|].
  destruct (urlStep (dl u) b) as [r'|b'] eqn:E.
  - intros H. injection H as <-. apply urlStep_inl in E. tauto.
  - apply IH.
Qed.

Lemma urlLoop_inr (dl : nat -> Download) (urls : list nat) :
  forall b b',
    urlLoop dl urls b = inr b' ->
    (bestSpeed b <= bestSpeed b')%Q
    /\ forall u s, In u urls -> speedOf (dl u) = Some s ->
                   (s <= 5)%Q /\ (s <= bestSpeed b')%Q.
Proof.
  induction urls as [|u urls IH]; intros b b'; simpl.
  - intros H. injection H as <-. split; [apply Qle_refl|]. intros u s [].
  - destruct (urlStep (dl u) b) as [r'|b1] eqn:E; [discriminate|].
    intros H. destruct (IH _ _ H) as [Hle Hall].
    destruct (urlStep_inr _ _ _ E) as [Hle1 Hs1].
    split; [eapply Qle_trans; eauto|].
    intros v s [<-|Hv] Hs.
    + destruct (Hs1 s Hs) as [H5 Hb]. split; [exact H5|eapply Qle_trans; eauto].
    + eapply Hall; eauto.
Qed.

Lemma attemptLoop_inl (dl : Downloads) (count : nat) :
  forall a b r,
    attemptLoop dl a count b = inl r ->
    isFast r = true /\ (5 < bandwidth r)%Q.
Proof.
  induction count as [|count IH]; intros a b r; cbn [attemptLoop]; [discriminate|].
  destruct (urlLoop (dl a) testUrls b) as [r'|b'] eqn:E.
  - intros H. injection H as <-. now apply urlLoop_inl in E.
  - apply IH.
Qed.

Lemma attemptLoop_inr (dl : Downloads) (count : nat) :
  forall a b b',
    attemptLoop dl a count b = inr b' ->
    (bestSpeed b <= bestSpeed b')%Q
    /\ forall i u s, (a <= i < a + count)%nat -> In u testUrls ->
                     speedOf (dl i u) = Some s ->
                     (s <= 5)%Q /\ (s <= bestSpeed b')%Q.
Proof.
  induction count as [|count IH]; intros a b b'; cbn [attemptLoop].
  - intros H. injection H as <-. split; [apply Qle_refl|]. intros i u s Hi. lia.
  - destruct (urlLoop (dl a) testUrls b) as [r'|b1] eqn:E; [discriminate|].
    intros H. destruct (IH _ _ _ H) as [Hle Hall].
    destruct (urlLoop_inr _ _ _ _ E) as [Hle1 Hs1].
    split; [eapply Qle_trans; eauto|].
    intros i u s Hi Hu Hs. destruct (Nat.eq_dec i a) as [->|Hne].
    + destruct (Hs1 u s Hu Hs) as [H5 Hb]. split; [exact H5|eapply Qle_trans; eauto].
    + apply (Hall i u s); auto. lia.
Qed.

Lemma inline_validity (ip : string) :
  negb (Nat.eqb (List.length (split "." ip)) 4)
  || negb (forallb IpTester.validPart (split "." ip))
  = negb (IpTester.isValidIp ip).
Proof.
  unfold IpTester.isValidIp.
  now destruct (Nat.eqb (List.length (split "." ip)) 4).
Qed.

(** The report of the probe in general. *)
Lemma testIpBandwidth_report
      (dl : Downloads) (net : IpTester.Network) (ip : string) (testCount : nat) :
  (isFast (testIpBandwidth dl net ip testCount) = false ->
   testIpBandwidth dl net ip testCount = mkBandwidth false 0 0)
  /\ (0 <= bandwidth (testIpBandwidth dl net ip testCount))%Q
  /\ (IpTester.isValidIp ip = true ->
      forall a u s,
        (a < testCount)%nat -> In u testUrls -> speedOf (dl a u) = Some s ->
        isFast (testIpBandwidth dl net ip testCount) = true
        /\ (Qmin s 5 <= bandwidth (testIpBandwidth dl net ip testCount))%Q
        /\ ((5 < s)%Q -> (5 < bandwidth (testIpBandwidth dl net ip testCount))%Q)).
Proof.
  unfold testIpBandwidth. rewrite inline_validity.
  destruct (IpTester.isValidIp ip); cbn [negb].
  2:{ repeat split; try discriminate; try apply Qle_refl. }
  destruct (attemptLoop dl 0 testCount (mkBest 0 0)) as [r|b] eqn:E.
  - destruct (attemptLoop_inl _ _ _ _ _ E) as [Hf H5].
    split; [congruence|]. split; [lra|].
    intros _ a u s _ _ _. split; [exact Hf|]. split; [|auto].
    eapply Qle_trans; [apply Q.le_min_r|lra].
  - destruct (attemptLoop_inr _ _ _ _ _ E) as [H0 Hall]. cbn [bestSpeed] in H0.
    destruct (Qltb 0 (bestSpeed b)) eqn:Hpos.
    + cbn [isFast bandwidth]. split; [discriminate|]. split; [exact H0|].
      intros _ a u s Ha Hu Hs. destruct (Hall a u s) as [H5 Hb]; auto; [lia|].
      split; [reflexivity|]. split; [|lra].
      eapply Qle_trans; [apply Q.le_min_l|exact Hb].
    + assert (Hnone : forall a u s, (a < testCount)%nat -> In u testUrls ->
                                    speedOf (dl a u) = Some s -> False).
      { intros a u s Ha Hu Hs. destruct (Hall a u s) as [_ Hb]; auto; [lia|].
        apply speedOf_positive in Hs.
        assert (Hlt : (0 < bestSpeed b)%Q) by lra.
        apply Qltb_lt in Hlt. congruence. }
      unfold latencyFallback.
      destruct (IpTester.isAvailable
                  (IpTester.testIpAvailability net ip (Some [443]) 1));
        cbn [isFast bandwidth].
      * split; [discriminate|]. split; [apply Qle_refl|].
        intros _ a u s Ha Hu Hs. destruct (Hnone a u s Ha Hu Hs).
      * split; [reflexivity|]. split; [apply Qle_refl|].
        intros _ a u s Ha Hu Hs. destruct (Hnone a u s Ha Hu Hs).
Qed.

(** X16: [testIpBandwidth] reports not-fast only with bandwidth 0 and
    latency 0, and never a negative bandwidth.  For a valid address, a
    download that is measured makes the result fast, with a bandwidth of
    at least the measured speed or 5 Mbps, whichever is less; a speed
    above 5 Mbps gives a bandwidth above 5 Mbps. *)
Theorem testIpBandwidth_reports_the_best_speed
        (dl : Downloads) (net : IpTester.Network) (ip : string) (testCount : nat) :
  (isFast (testIpBandwidth dl net ip testCount) = false ->
   testIpBandwidth dl net ip testCount = mkBandwidth false 0 0)
  /\ (0 <= bandwidth (testIpBandwidth dl net ip testCount))%Q
  /\ (IpTester.isValidIp ip = true ->
      forall a u s,
        (a < testCount)%nat -> In u testUrls -> speedOf (dl a u) = Some s ->
        isFast (testIpBandwidth dl net ip testCount) = true
        /\ (Qmin s 5 <= bandwidth (testIpBandwidth dl net ip testCount))%Q
        /\ ((5 < s)%Q -> (5 < bandwidth (testIpBandwidth dl net ip testCount))%Q)).
Proof. apply testIpBandwidth_report. Qed.
End ProbeReport.

(** ** The batch of bandwidth probes *)

Section BatchReport.
Import BandwidthTester Notions2.

Lemma bandwidthLoop_acc dls nets (ipData : list IpLatency) :
  forall i acc,
    BandwidthBatch.bandwidthLoop dls nets i ipData acc
    = acc ++ BandwidthBatch.bandwidthLoop dls nets i ipData [].
Proof.
  induction ipData as [|item rest IH]; intros i acc; simpl.
  - now rewrite app_nil_r.
  - destruct (isFast (BandwidthBatch.testIpBandwidthOnly (dls i) (nets i) (ip item))).
    + rewrite IH, (IH _ [_]). now rewrite app_assoc.
    + apply IH.
Qed.

Lemma bandwidthLoop_spec dls nets (ipData : list IpLatency) :
  forall i,
    Subseq (map BandwidthBatch.ip (BandwidthBatch.bandwidthLoop dls nets i ipData []))
           (map ip ipData)
    /\ forall r,
         In r (BandwidthBatch.bandwidthLoop dls nets i ipData []) ->
         exists j item,
           nth_error ipData j = Some item
           /\ isFast (testIpBandwidth (dls (i + j)%nat) (nets (i + j)%nat) (ip item) 3)
              = true
           /\ r = BandwidthBatch.mkRanked
                    (ip item) (minDelay item) (avgDelay item) (stability item)
                    (bandwidth (testIpBandwidth (dls (i + j)%nat) (nets (i + j)%nat)
                                                (ip item) 3))
                    (latency (testIpBandwidth (dls (i + j)%nat) (nets (i + j)%nat)
                                              (ip item) 3))
                    (calculateScore
                       (minDelay item) (avgDelay item)
                       (bandwidth (testIpBandwidth (dls (i + j)%nat) (nets (i + j)%nat)
                                                   (ip item) 3))
                       (stability item)).
Proof.
  induction ipData as [|item rest IH]; intros i; simpl.
  - split; [constructor|]. intros r [].
  - destruct (IH (S i)) as [Hsub Hin].
    unfold BandwidthBatch.testIpBandwidthOnly.
    destruct (isFast (testIpBandwidth (dls i) (nets i) (ip item) 3)) eqn:Hf.
    + rewrite bandwidthLoop_acc. simpl. split; [now constructor|].
      intros r [<-|Hr].
      * exists 0%nat, item. rewrite Nat.add_0_r. auto.
      * destruct (Hin r Hr) as (j & it & Hj & Hfj & Hr').
        exists (S j), it. rewrite Nat.add_succ_r. auto.
    + split; [now constructor|]. intros r Hr.
      destruct (Hin r Hr) as (j & it & Hj & Hfj & Hr').
      exists (S j), it. rewrite Nat.add_succ_r. auto.
Qed.

Lemma bandwidthLoop_indexed dls nets (ipData : list IpLatency) :
  forall i,
    Forall2 (recordOf dls nets)
            (BandwidthBatch.bandwidthLoop dls nets i ipData [])
            (filter (fun ji => isFast (probeOf dls nets ji)) (indexed i ipData)).
Proof.
  induction ipData as [|item rest IH]; intros i.
  - constructor.
  - rewrite indexed_cons. cbn [BandwidthBatch.bandwidthLoop filter].
    unfold BandwidthBatch.testIpBandwidthOnly, probeOf at 1. cbn [fst snd].
    destruct (isFast (testIpBandwidth (dls i) (nets i) (ip item) 3)).
    + rewrite bandwidthLoop_acc. cbn [app]. constructor; [|apply IH].
      unfold recordOf, probeOf. cbn. repeat split.
    + apply IH.
Qed.

(** X17: [batchBandwidthTest] returns, in the order of its input,
    exactly one record for each candidate whose probe is fast and none
    for the others.  A record carries the address, the delays and the
    stability of its candidate and the bandwidth and latency of its
    probe; the bandwidth is not negative, and when the delay and the
    stability are not negative the score is between 0 and 100, within a
    hundredth of the weighted composite of the record, and at most 70
    when the bandwidth is 0. *)
Theorem batchBandwidthTest_records
        (dls : nat -> Downloads) (nets : nat -> IpTester.Network)
        (ipData : list IpLatency) :
  Forall2 (recordOf dls nets)
          (BandwidthBatch.batchBandwidthTest dls nets ipData)
          (fastCandidates dls nets ipData)
  /\ forall r,
       In r (BandwidthBatch.batchBandwidthTest dls nets ipData) ->
       (0 <= BandwidthBatch.bandwidth r)%Q
       /\ ((0 <= BandwidthBatch.avgDelay r)%Q -> (0 <= BandwidthBatch.stability r)%Q ->
           (0 <= BandwidthBatch.score r)%Q /\ (BandwidthBatch.score r <= 100)%Q
           /\ (Qabs (BandwidthBatch.score r
                     - weightedComposite (BandwidthBatch.avgDelay r)
                                         (BandwidthBatch.bandwidth r)
                                         (BandwidthBatch.stability r))
               <= 1 # 100)%Q
           /\ ((BandwidthBatch.bandwidth r == 0)%Q -> (BandwidthBatch.score r <= 70)%Q)).
Proof.
  unfold BandwidthBatch.batchBandwidthTest, fastCandidates.
  split; [apply bandwidthLoop_indexed|].
  destruct (bandwidthLoop_spec dls nets ipData 0) as [_ Hin].
  intros r Hr.
  destruct (Hin r Hr) as (j & item & Hj & Hf & ->). simpl in Hf.
  cbn [BandwidthBatch.ip BandwidthBatch.minDelay BandwidthBatch.avgDelay
       BandwidthBatch.stability BandwidthBatch.bandwidth BandwidthBatch.latency
       BandwidthBatch.score plus].
  destruct (testIpBandwidth_report (dls j) (nets j) (ip item) 3) as (_ & Hb & _).
  split; [exact Hb|].
  intros Ha Hs. destruct (score_range (minDelay item) _ _ _ Ha Hb Hs) as [H0 H100].
  split; [exact H0|]. split; [exact H100|]. split.
  - destruct (calculateScore_rounds_composite
                (minDelay item) (avgDelay item)
                (bandwidth (testIpBandwidth (dls j) (nets j) (ip item) 3))
                (stability item)) as [_ Hnear].
    eapply Qle_trans; [exact Hnear|]. apply Qle_bool_imp_le. reflexivity.
  - intros Hz. now apply score_without_bandwidth.
Qed.
End BatchReport.

(** ** Resolution of a domain *)

Section DnsFacts.
Import DnsResolver Notions2.

Lemma validAddress_isValidIp (ip : string) :
  validAddress ip = IpTester.isValidIp ip.
Proof.
  unfold validAddress, IpTester.isValidIp.
  now destruct (Nat.eqb (List.length (split "." ip)) 4).
Qed.

Lemma in_setAdd (s : list string) (x y : string) :
  In y (setAdd s x) <-> In y s \/ y = x.
Proof.
  unfold setAdd. destruct (existsb (String.eqb x) s) eqn:E.
  - split; [auto|]. intros [H| ->]; [exact H|].
    apply existsb_exists in E as (z & Hz & Heq). apply String.eqb_eq in Heq.
    now subst z.
  - rewrite in_app_iff. simpl. split; intros [H|H]; auto.
    + destruct H as [<-|[]]. now right.
Qed.

Lemma NoDup_setAdd (s : list string) (x : string) : NoDup s -> NoDup (setAdd s x).
Proof.
  intros Hnd. unfold setAdd. destruct (existsb (String.eqb x) s) eqn:E; [exact Hnd|].
  apply NoDup_app; [exact Hnd|repeat constructor; intros []|].
  intros y Hy [Heq|[]]. subst y.
  assert (existsb (String.eqb x) s = true); [|congruence].
  apply existsb_exists. exists x. split; [exact Hy|apply String.eqb_refl].
Qed.

Lemma addAll_spec (xs : list string) :
  forall s,
    (forall y, In y (fold_left setAdd xs s) <-> In y s \/ In y xs)
    /\ (NoDup s -> NoDup (fold_left setAdd xs s)).
Proof.
  induction xs as [|x xs IH]; intros s; simpl.
  - split; [tauto|auto].
  - destruct (IH (setAdd s x)) as [Hin Hnd]. split.
    + intros y. rewrite Hin, in_setAdd. split; intros H.
      * destruct H as [[H|H]|H]; auto.
      * destruct H as [H|[H|H]]; auto.
    + intros H. apply Hnd. now apply NoDup_setAdd.
Qed.

Lemma critical_In (server : string) :
  existsb (String.eqb server) criticalServers = true <-> In server criticalServers.
Proof.
  rewrite existsb_exists. split.
  - intros (x & Hx & Heq). apply String.eqb_eq in Heq. now subst x.
  - intros H. exists server. split; [exact H|apply String.eqb_refl].
Qed.

Lemma nonempty_ltb {A : Type} (l : list A) :
  (0 <? List.length l)%nat = false -> l = [].
Proof. destruct l; [reflexivity|discriminate]. Qed.

(** The addresses after one server. *)
Lemma queryServer_allIps (dns : Dns) (i : nat) (entry : string * string)
      (st : Resolution) :
  (forall ip, In ip (allIps (queryServer dns i entry st)) <->
              In ip (allIps st)
              \/ (IpTester.isValidIp ip = true /\ gives dns i entry ip))
  /\ (NoDup (allIps st) -> NoDup (allIps (queryServer dns i entry st))).
Proof.
  unfold queryServer, gives.
  destruct (dns i 0%nat) as [ips|] eqn:E0.
  - destruct (0 <? List.length (filter validAddress ips))%nat eqn:Hn;
      cbn [succeed fail allIps].
    + destruct (addAll_spec (filter validAddress ips) (allIps st)) as [Hin Hnd].
      split; [|exact Hnd]. intros ip. rewrite Hin, filter_In, validAddress_isValidIp.
      split; intros [H|H]; auto.
      * right. split; [tauto|]. left. exists ips. tauto.
      * destruct H as [Hv [(ips' & Hi & Hin')|(Hc & _)]]; [|discriminate].
        injection Hi as <-. auto.
    + apply nonempty_ltb in Hn. split; [|auto]. intros ip. split; [auto|].
      intros [H|[Hv [(ips' & Hi & Hin')|(Hc & _)]]]; [exact H| |discriminate].
      injection Hi as <-.
      assert (Hf : In ip (filter validAddress ips)).
      { apply filter_In. now rewrite validAddress_isValidIp. }
      rewrite Hn in Hf. destruct Hf.
  - destruct (existsb (String.eqb (fst entry)) criticalServers) eqn:Hc.
    + apply critical_In in Hc.
      destruct (dns i 1%nat) as [ips|] eqn:E1.
      * destruct (0 <? List.length (filter validAddress ips))%nat eqn:Hn;
          cbn [succeed fail allIps].
        -- destruct (addAll_spec (filter validAddress ips) (allIps st)) as [Hin Hnd].
           split; [|exact Hnd]. intros ip.
           rewrite Hin, filter_In, validAddress_isValidIp.
           split; intros [H|H]; auto.
           ++ right. split; [tauto|]. right. repeat split; auto. exists ips. tauto.
           ++ destruct H as [Hv [(ips' & Hi & _)|(_ & _ & ips' & Hi & Hin')]];
                [discriminate|].
              injection Hi as <-. auto.
        -- apply nonempty_ltb in Hn. split; [|auto]. intros ip. split; [auto|].
           intros [H|[Hv [(ips' & Hi & _)|(_ & _ & ips' & Hi & Hin')]]];
             [exact H|discriminate|].
           injection Hi as <-.
           assert (Hf : In ip (filter validAddress ips)).
           { apply filter_In. now rewrite validAddress_isValidIp. }
           rewrite Hn in Hf. destruct Hf.
      * cbn [fail allIps]. split; [|auto]. intros ip. split; [auto|].
        intros [H|[Hv [(ips' & Hi & _)|(_ & _ & ips' & Hi & _)]]];
          [exact H|discriminate|discriminate].
    + cbn [fail allIps]. split; [|auto]. intros ip. split; [auto|].
      intros [H|[Hv [(ips' & Hi & _)|(_ & Hcr & _)]]]; [exact H|discriminate|].
      apply critical_In in Hcr. congruence.
Qed.

Lemma serverLoop_allIps (dns : Dns) (serverEntries : list (string * string)) :
  forall i st,
    (forall ip, In ip (allIps (serverLoop dns i serverEntries st)) <->
                In ip (allIps st)
                \/ (IpTester.isValidIp ip = true
                    /\ exists j entry, nth_error serverEntries j = Some entry
                                       /\ gives dns (i + j) entry ip))
    /\ (NoDup (allIps st) -> NoDup (allIps (serverLoop dns i serverEntries st))).
Proof.
  induction serverEntries as [|entry rest IH]; intros i st; simpl.
  - split; [|auto]. intros ip. split; [auto|].
    intros [H|(_ & j & e & Hj & _)]; [exact H|]. destruct j; discriminate.
  - destruct (IH (S i) (queryServer dns i entry st)) as [Hin Hnd].
    destruct (queryServer_allIps dns i entry st) as [Hq Hqnd].
    split; [|auto]. intros ip. rewrite Hin, Hq. split.
    + intros [[H|[Hv Hg]]|(Hv & j & e & Hj & Hg)]; auto.
      * right. split; [exact Hv|]. exists 0%nat, entry. rewrite Nat.add_0_r. auto.
      * right. split; [exact Hv|]. exists (S j), e. rewrite Nat.add_succ_r. auto.
    + intros [H|(Hv & [|j] & e & Hj & Hg)]; auto; simpl in Hj.
      * injection Hj as <-. rewrite Nat.add_0_r in Hg. auto.
      * right. split; [exact Hv|]. exists j, e. rewrite Nat.add_succ_r in Hg. auto.
Qed.

(** X18: [resolveDomain] returns each address once, and only addresses
    that pass the validity check. *)
Theorem resolveDomain_unique_and_valid (dns : Dns) (dnsServers : list (string * string)) :
  NoDup (resolveDomain dns dnsServers)
  /\ forall ip, In ip (resolveDomain dns dnsServers) -> IpTester.isValidIp ip = true.
Proof.
  unfold resolveDomain, resolveReport.
  destruct (serverLoop_allIps dns dnsServers 0 (mkResolution [] [] [])) as [Hin Hnd].
  split; [apply Hnd; constructor|].
  intros ip H. apply Hin in H as [[]|[Hv _]]. exact Hv.
Qed.

(** X19: [resolveDomain] returns exactly the valid addresses that some
    server gives: at its first try, or, when the first try throws and the
    server is one of the three critical ones, at its retry.  A server
    that is not critical is not asked again, and none is asked again
    after an answer without a valid address. *)
Theorem resolveDomain_collects_what_servers_give
        (dns : Dns) (dnsServers : list (string * string)) (ip : string) :
  In ip (resolveDomain dns dnsServers) <->
  IpTester.isValidIp ip = true
  /\ exists i server provider,
       nth_error dnsServers i = Some (server, provider)
       /\ ((exists ips, dns i 0%nat = Some ips /\ In ip ips)
           \/ (dns i 0%nat = None /\ In server criticalServers
               /\ exists ips, dns i 1%nat = Some ips /\ In ip ips)).
Proof.
  unfold resolveDomain, resolveReport.
  destruct (serverLoop_allIps dns dnsServers 0 (mkResolution [] [] [])) as [Hin _].
  rewrite Hin. cbn [allIps]. split.
  - intros [[]|(Hv & j & [server provider] & Hj & Hg)]. split; [exact Hv|].
    exists j, server, provider. split; [exact Hj|exact Hg].
  - intros (Hv & i & server & provider & Hi & Hg). right. split; [exact Hv|].
    exists i, (server, provider). split; [exact Hi|exact Hg].
Qed.

Lemma queryServer_lists (dns : Dns) (i : nat) (entry : string * string)
      (st : Resolution) :
  List.length (failedServers (queryServer dns i entry st))
  = (List.length (failedServers st) + (if firstTryFails dns i then 1 else 0))%nat
  /\ (List.length (successfulServers (queryServer dns i entry st))
      + List.length (failedServers (queryServer dns i entry st))
      = S (List.length (successfulServers st) + List.length (failedServers st))
        + (if retrySucceeds dns (i, entry) then 1 else 0))%nat.
Proof.
  unfold queryServer, firstTryFails, retrySucceeds, succeed, fail. cbn [fst snd].
  destruct (dns i 0%nat) as [ips|].
  - destruct (0 <? List.length (filter validAddress ips))%nat;
      cbn [failedServers successfulServers negb]; rewrite ?length_app; simpl; lia.
  - destruct (existsb (String.eqb (fst entry)) criticalServers); cbn [andb].
    + destruct (dns i 1%nat) as [ips|];
        [destruct (0 <? List.length (filter validAddress ips))%nat|];
        cbn [failedServers successfulServers]; rewrite ?length_app; simpl; lia.
    + cbn [failedServers successfulServers]; rewrite ?length_app; simpl; lia.
Qed.

Lemma serverLoop_lists (dns : Dns) (serverEntries : list (string * string)) :
  forall i st,
    List.length (failedServers (serverLoop dns i serverEntries st))
    = (List.length (failedServers st)
       + List.length (filter (firstTryFails dns) (seq i (List.length serverEntries))))%nat
    /\ (List.length (successfulServers (serverLoop dns i serverEntries st))
        + List.length (failedServers (serverLoop dns i serverEntries st))
        = List.length serverEntries
          + (List.length (successfulServers st) + List.length (failedServers st))
          + List.length
              (filter (retrySucceeds dns)
                      (combine (seq i (List.length serverEntries)) serverEntries)))%nat.
Proof.
  induction serverEntries as [|entry rest IH]; intros i st; simpl.
  - lia.
  - destruct (IH (S i) (queryServer dns i entry st)) as [Hf Hs].
    destruct (queryServer_lists dns i entry st) as [Hqf Hqs].
    split.
    + rewrite Hf, Hqf. destruct (firstTryFails dns i); simpl; lia.
    + rewrite Hs, Hqs. destruct (retrySucceeds dns (i, entry)); simpl; lia.
Qed.

(** X20: in the report of [resolveDomain] the failed list has one entry
    for each server whose first try throws or gives no valid address, and
    keeps it when the retry succeeds: the two lists together are longer
    than the list of servers by the number of retries that succeeded. *)
Theorem resolveReport_counts_retries_twice
        (dns : Dns) (dnsServers : list (string * string)) :
  List.length (failedServers (resolveReport dns dnsServers))
  = List.length (filter (firstTryFails dns) (seq 0 (List.length dnsServers)))
  /\ (List.length (successfulServers (resolveReport dns dnsServers))
      + List.length (failedServers (resolveReport dns dnsServers))
      = List.length dnsServers
        + List.length
            (filter (retrySucceeds dns)
                    (combine (seq 0 (List.length dnsServers)) dnsServers)))%nat.
Proof.
  unfold resolveReport.
  destruct (serverLoop_lists dns dnsServers 0 (mkResolution [] [] [])) as [Hf Hs].
  cbn [failedServers successfulServers List.length] in Hf, Hs. split; [exact Hf|lia].
Qed.
End DnsFacts.

(** ** Addresses in decimal notation *)

Section AddressFacts.
Import IpTester Notions2 Scenario.

Lemma digitsValue_step (c : ascii) (v : Z) (s : string) (acc : Z) :
  digitValue c = Some v ->
  digitsValue (String c s) (Some acc) = digitsValue s (Some (10 * acc + v)).
Proof. intros H. simpl. now rewrite H. Qed.

Lemma digitsValue_uint (d : Decimal.uint) :
  forall a : nat,
    digitsValue (DecimalString.NilEmpty.string_of_uint d) (Some (Z.of_nat a))
    = Some (Z.of_nat (Nat.of_uint_acc d a)).
Proof.
  induction d; intros a; cbn [DecimalString.NilEmpty.string_of_uint Nat.of_uint_acc];
    rewrite ?Nat.tail_mul_spec; try reflexivity;
    (erewrite digitsValue_step by reflexivity);
    match goal with
    | |- digitsValue _ (Some (_ + ?v)) = _ =>
        let v' := eval vm_compute in v in change v with v'
    end;
    match goal with
    | |- digitsValue _ (Some ?z) = Some (Z.of_nat (Nat.of_uint_acc _ ?n)) =>
        replace z with (Z.of_nat n) by lia; apply IHd
    end.
Qed.

Lemma allDigits_uint (d : Decimal.uint) :
  allDigits (DecimalString.NilEmpty.string_of_uint d) = true.
Proof. induction d; simpl; auto. Qed.

Lemma to_uint_nonnil (n : nat) : Nat.to_uint n <> Decimal.Nil.
Proof.
  intros H. pose proof (DecimalNat.Unsigned.of_to n) as E. rewrite H in E.
  simpl in E. subst n. discriminate.
Qed.

Lemma decimal_string (n : nat) :
  decimal n = DecimalString.NilEmpty.string_of_uint (Nat.to_uint n).
Proof.
  unfold decimal, DecimalString.NilZero.string_of_uint.
  pose proof (to_uint_nonnil n). now destruct (Nat.to_uint n).
Qed.

Lemma decimal_allDigits (n : nat) : allDigits (decimal n) = true.
Proof. rewrite decimal_string. apply allDigits_uint. Qed.

Lemma decimal_nonempty (n : nat) : decimal n <> ""%string.
Proof.
  rewrite decimal_string. pose proof (to_uint_nonnil n).
  destruct (Nat.to_uint n); simpl; congruence.
Qed.

Lemma digit_not_space (c : ascii) (v : Z) :
  digitValue c = Some v ->
  isWhiteSpace c = false /\ c <> "-"%char /\ c <> "+"%char /\ c <> "."%char
  /\ c <> "#"%char.
Proof.
  destruct c as [[] [] [] [] [] [] [] []]; vm_compute; intros H;
    try discriminate; repeat split; discriminate.
Qed.

(** On a string that starts with a digit, nothing is trimmed and there
    is no sign. *)
Lemma parseInt_digits (c : ascii) (s : string) (v : Z) :
  digitValue c = Some v ->
  parseInt (String c s) = digitsValue s (Some v).
Proof.
  intros Hc. destruct (digit_not_space c v Hc) as (Hw & Hm & Hp & _).
  unfold parseInt. cbn [trimStart]. rewrite Hw.
  destruct (Ascii.eqb_spec c "-"%char) as [E|_]; [congruence|].
  destruct (Ascii.eqb_spec c "+"%char) as [E|_]; [congruence|].
  assert (Hd : digitsValue (String c s) None = digitsValue s (Some v)).
  { simpl. rewrite Hc. reflexivity || (f_equal; f_equal; lia). }
  rewrite <- Hd.
  destruct c as [[] [] [] [] [] [] [] []]; try reflexivity; congruence.
Qed.

Lemma parseInt_uint (d : Decimal.uint) :
  d <> Decimal.Nil ->
  parseInt (DecimalString.NilEmpty.string_of_uint d) = Some (Z.of_nat (Nat.of_uint d)).
Proof.
  intros Hd. unfold Nat.of_uint.
  destruct d as [|u|u|u|u|u|u|u|u|u|u]; [congruence|..];
    cbn [DecimalString.NilEmpty.string_of_uint];
    (erewrite parseInt_digits by reflexivity).
  - exact (digitsValue_uint u 0).
  - exact (digitsValue_uint u 1).
  - exact (digitsValue_uint u 2).
  - exact (digitsValue_uint u 3).
  - exact (digitsValue_uint u 4).
  - exact (digitsValue_uint u 5).
  - exact (digitsValue_uint u 6).
  - exact (digitsValue_uint u 7).
  - exact (digitsValue_uint u 8).
  - exact (digitsValue_uint u 9).
Qed.

(** Reading back a number written in decimal. *)
Lemma parseInt_decimal (n : nat) : parseInt (decimal n) = Some (Z.of_nat n).
Proof.
  rewrite decimal_string, parseInt_uint by apply to_uint_nonnil.
  now rewrite DecimalNat.Unsigned.of_to.
Qed.

Lemma allDigits_no_dot (s : string) : allDigits s = true -> split "." s = [s].
Proof.
  induction s as [|c s IH]; simpl; [reflexivity|].
  destruct (digitValue c) as [v|] eqn:Hc; [|discriminate].
  intros H. destruct (digit_not_space c v Hc) as (_ & _ & _ & Hdot & _).
  destruct (Ascii.eqb_spec c "."%char) as [E|_]; [congruence|].
  now rewrite (IH H).
Qed.

Lemma split_app_dot (s t : string) :
  allDigits s = true ->
  split "." (s ++ String "." t) = s :: split "." t.
Proof.
  induction s as [|c s IH]; simpl; [reflexivity|].
  destruct (digitValue c) as [v|] eqn:Hc; [|discriminate].
  intros H. destruct (digit_not_space c v Hc) as (_ & _ & _ & Hdot & _).
  destruct (Ascii.eqb_spec c "."%char) as [E|_]; [congruence|].
  now rewrite (IH H).
Qed.

Lemma validPart_decimal (n : nat) : validPart (decimal n) = (n <=? 255)%nat.
Proof.
  unfold validPart. rewrite parseInt_decimal.
  destruct (Nat.leb_spec n 255).
  - apply andb_true_iff. split; [apply Z.leb_le|apply Z.leb_le]; lia.
  - apply andb_false_iff. right. apply Z.leb_gt. lia.
Qed.

(** X21: an address written as four decimal numbers separated by dots
    is valid exactly when each number is at most 255. *)
Theorem isValidIp_dotted (a b c d : nat) :
  isValidIp (dotted a b c d) = true
  <-> (a <= 255 /\ b <= 255 /\ c <= 255 /\ d <= 255)%nat.
Proof.
  unfold isValidIp, dotted. cbn [append].
  rewrite !split_app_dot by apply decimal_allDigits.
  rewrite allDigits_no_dot by apply decimal_allDigits.
  cbn [List.length Nat.eqb negb forallb]. rewrite !validPart_decimal.
  rewrite !andb_true_iff, !Nat.leb_le. tauto.
Qed.

Lemma digitsValue_app (r t : string) :
  match t with String c _ => digitValue c = None | EmptyString => True end ->
  forall acc, digitsValue (r ++ t) acc = digitsValue r acc.
Proof.
  intros Ht. induction r as [|c r IH]; intros acc; simpl.
  - destruct t as [|c t]; [reflexivity|]. simpl. now rewrite Ht.
  - destruct (digitValue c); [apply IH|reflexivity].
Qed.

Lemma trimStart_app (s t : string) (c : ascii) (r : string) :
  trimStart s = String c r -> trimStart (s ++ t) = String c (r ++ t).
Proof.
  induction s as [|x s IH]; simpl; [discriminate|].
  destruct (isWhiteSpace x); [exact IH|].
  intros H. injection H as -> ->. reflexivity.
Qed.

Lemma parseInt_app (s t : string) (v : Z) :
  match t with String c _ => digitValue c = None | EmptyString => True end ->
  parseInt s = Some v -> parseInt (s ++ t) = Some v.
Proof.
  intros Ht. unfold parseInt.
  destruct (trimStart s) as [|c r] eqn:E; [discriminate|].
  rewrite (trimStart_app s t c r E).
  destruct (Ascii.eqb_spec c "-"%char) as [->|Hm].
  - now rewrite digitsValue_app.
  - destruct (Ascii.eqb_spec c "+"%char) as [->|Hp].
    + now rewrite digitsValue_app.
    + assert (Hs : forall u : string,
                 match String c u with
                 | String "-" r0 => option_map Z.opp (digitsValue r0 None)
                 | String "+" r0 => digitsValue r0 None
                 | r0 => digitsValue r0 None
                 end = digitsValue (String c u) None).
      { intros u. destruct c as [[] [] [] [] [] [] [] []]; try reflexivity; congruence. }
      rewrite !Hs. change (String c (r ++ t)) with (String c r ++ t)%string.
      now rewrite digitsValue_app.
Qed.

Lemma split_app_last (s t : string) :
  split "." t = [t] ->
  exists parts last,
    split "." s = parts ++ [last] /\ split "." (s ++ t) = parts ++ [(last ++ t)%string].
Proof.
  intros Ht. induction s as [|c s (parts & last & Hs & Hst)]; simpl.
  - exists [], ""%string. simpl. auto.
  - destruct (Ascii.eqb c "."%char).
    + exists (""%string :: parts), last. rewrite Hs, Hst. auto.
    + rewrite Hs, Hst. destruct parts as [|p parts]; simpl.
      * exists [], (String c last). auto.
      * exists (String c p :: parts), last. auto.
Qed.

(** X22: the validity check reads each part as [parseInt] does, so it
    does not see what follows the last number: a valid address stays
    valid when text without a dot that does not start with a digit is
    put after it. *)
Theorem isValidIp_ignores_trailing_text (ip text : string) :
  isValidIp ip = true ->
  split "." text = [text] ->
  match text with String c _ => digitValue c = None | EmptyString => True end ->
  isValidIp (ip ++ text) = true.
Proof.
  unfold isValidIp. intros Hip Hdot Hstart.
  destruct (split_app_last ip text Hdot) as (parts & last & Hs & Hst).
  rewrite Hs in Hip. rewrite Hst.
  rewrite !length_app in *. cbn [List.length] in *.
  destruct (Nat.eqb (List.length parts + 1) 4); [|discriminate].
  cbn [negb] in *. rewrite forallb_app in *. cbn [forallb] in *.
  apply andb_true_iff in Hip as [Hparts Hlast]. rewrite Hparts. cbn [andb].
  rewrite andb_true_r in *. unfold validPart in *.
  destruct (parseInt last) as [v|] eqn:Hv; [|discriminate].
  now rewrite (parseInt_app last text v Hstart Hv).
Qed.

Lemma isValidIp_ignores_trailing_text_witness :
  isValidIp (Scenario.address ++ " and more") = true.
Proof.
  apply (isValidIp_ignores_trailing_text Scenario.address " and more").
  - reflexivity.
  - reflexivity.
  - reflexivity.
Defined.
End AddressFacts.

(** ** The list of domains *)

Section DomainFacts.
Import FileUtils Notions2.

Lemma trimStart_head (s : string) :
  trimStart s = EmptyString
  \/ exists c r, trimStart s = String c r /\ isWhiteSpace c = false.
Proof.
  induction s as [|c s IH]; simpl; [now left|].
  destruct (isWhiteSpace c) eqn:E; [exact IH|]. right. eauto.
Qed.

Lemma trimStart_fixed (c : ascii) (r : string) :
  isWhiteSpace c = false -> trimStart (String c r) = String c r.
Proof. intros H. simpl. now rewrite H. Qed.

Lemma trimEnd_head (c : ascii) (r : string) :
  isWhiteSpace c = false -> exists r', trimEnd (String c r) = String c r'.
Proof.
  intros H. simpl. destruct (trimEnd r); [rewrite H|]; eauto.
Qed.

Lemma trimEnd_idem (s : string) : trimEnd (trimEnd s) = trimEnd s.
Proof.
  induction s as [|c s IH]; simpl; [reflexivity|].
  destruct (trimEnd s) as [|x r] eqn:E.
  - destruct (isWhiteSpace c) eqn:Hc; simpl; [reflexivity|now rewrite Hc].
  - simpl in *. now rewrite IH.
Qed.

Lemma trim_head (s : string) :
  trim s = EmptyString
  \/ exists c r, trim s = String c r /\ isWhiteSpace c = false.
Proof.
  unfold trim. destruct (trimStart_head s) as [->|(c & r & -> & Hc)]; [now left|].
  right. destruct (trimEnd_head c r Hc) as (r' & ->). eauto.
Qed.

Lemma trim_idem (s : string) : trim (trim s) = trim s.
Proof.
  destruct (trim_head s) as [E|(c & r & E & Hc)].
  - rewrite E. reflexivity.
  - unfold trim at 1. rewrite E, (trimStart_fixed c r Hc), <- E.
    unfold trim. apply trimEnd_idem.
Qed.

Lemma hasChar_trimStart (c : ascii) (s : string) :
  hasChar c (trimStart s) = true -> hasChar c s = true.
Proof.
  induction s as [|x s IH]; simpl; [auto|].
  destruct (isWhiteSpace x); [|auto]. intros H. rewrite (IH H). apply orb_true_r.
Qed.

Lemma hasChar_trimEnd (c : ascii) (s : string) :
  hasChar c (trimEnd s) = true -> hasChar c s = true.
Proof.
  induction s as [|x s IH]; simpl; [auto|].
  destruct (trimEnd s) as [|y r] eqn:E.
  - destruct (isWhiteSpace x); simpl; [discriminate|].
    rewrite orb_false_r. intros ->. reflexivity.
  - simpl in *. intros H. apply orb_true_iff in H as [H|H].
    + now rewrite H.
    + rewrite (IH H). apply orb_true_r.
Qed.

Lemma hasChar_trim (c : ascii) (s : string) :
  hasChar c (trim s) = true -> hasChar c s = true.
Proof. intros H. now apply hasChar_trimStart, hasChar_trimEnd. Qed.

(** The parts of a split hold no separator and only characters of the
    string. *)
Lemma split_parts (sep : ascii) (s : string) :
  split sep s <> []
  /\ forall part, In part (split sep s) ->
                  hasChar sep part = false
                  /\ forall c, hasChar c part = true -> hasChar c s = true.
Proof.
  induction s as [|x s [Hne IH]]; simpl.
  - split; [discriminate|]. intros part [<-|[]]. simpl. auto.
  - destruct (Ascii.eqb x sep) eqn:E.
    + split; [discriminate|]. intros part [<-|Hp].
      * simpl. split; [reflexivity|discriminate].
      * destruct (IH part Hp) as [H1 H2]. split; [exact H1|].
        intros c Hc. rewrite (H2 c Hc). apply orb_true_r.
    + destruct (split sep s) as [|h t] eqn:Es; [congruence|].
      split; [discriminate|]. intros part [<-|Hp].
      * destruct (IH h (or_introl eq_refl)) as [H1 H2]. simpl. rewrite E, H1.
        split; [reflexivity|]. intros c Hc. apply orb_true_iff in Hc as [Hc|Hc].
        -- now rewrite Hc.
        -- rewrite (H2 c Hc). apply orb_true_r.
      * destruct (IH part (or_intror Hp)) as [H1 H2]. split; [exact H1|].
        intros c Hc. rewrite (H2 c Hc). apply orb_true_r.
Qed.

Lemma firstPart_head (sep x : ascii) (r : string) :
  Ascii.eqb x sep = false ->
  exists r', firstPart sep (String x r) = String x r'.
Proof.
  intros H. unfold firstPart. simpl. rewrite H.
  destruct (split sep r); eauto.
Qed.

Lemma firstPart_in (sep : ascii) (s : string) : In (firstPart sep s) (split sep s).
Proof.
  unfold firstPart. destruct (split_parts sep s) as [Hne _].
  destruct (split sep s); [congruence|now left].
Qed.

(** The inner test of the loop never fails: a line that is neither
    blank nor a comment gives a domain. *)
Lemma domainOf_entry (line : string) :
  domainOf line = if isEntry line
                  then Some (trim (firstPart "#" (trim line)))
                  else None.
Proof.
  unfold domainOf, isEntry.
  destruct (trim_head line) as [E|(c & r & E & Hc)].
  - rewrite E. reflexivity.
  - rewrite E. cbn [truthy startsWith andb].
    destruct (Ascii.eqb c "#") eqn:Hh; [reflexivity|]. cbn [negb].
    destruct (firstPart_head "#" c r Hh) as (r' & ->).
    unfold trim at 1. rewrite (trimStart_fixed c r' Hc).
    destruct (trimEnd_head c r' Hc) as (r'' & ->). reflexivity.
Qed.

Lemma lineLoop_acc (lines : list string) :
  forall acc, lineLoop lines acc = acc ++ lineLoop lines [].
Proof.
  induction lines as [|line rest IH]; intros acc; simpl.
  - now rewrite app_nil_r.
  - destruct (domainOf line); [|apply IH].
    rewrite IH, (IH [_]). now rewrite app_assoc.
Qed.

Lemma lineLoop_map (lines : list string) :
  lineLoop lines []
  = map (fun line => trim (firstPart "#" (trim line))) (filter isEntry lines).
Proof.
  induction lines as [|line rest IH]; simpl; [reflexivity|].
  rewrite domainOf_entry. destruct (isEntry line); simpl; [|exact IH].
  rewrite lineLoop_acc, IH. reflexivity.
Qed.

(** X23: [loadDomainList] gives one domain for each line that is
    neither blank nor a comment, in the order of the file: the text of
    the line before its first [#], trimmed.  A file that is missing or
    cannot be read gives no domain. *)
Theorem loadDomainList_one_per_entry (data : string) :
  loadDomainList (Some data)
  = map (fun line => trim (firstPart "#" (trim line)))
        (filter isEntry (split newline data))
  /\ loadDomainList None = [].
Proof. split; [apply lineLoop_map|reflexivity]. Qed.

(** X24: a domain that [loadDomainList] returns is not empty, holds no
    [#] and no line break, and has no white space at either end. *)
Theorem loadDomainList_domains_are_clean (file : option string) (domain : string) :
  In domain (loadDomainList file) ->
  domain <> ""%string
  /\ hasChar "#" domain = false
  /\ hasChar newline domain = false
  /\ trim domain = domain.
Proof.
  destruct file as [data|]; [|intros []]. unfold loadDomainList.
  rewrite lineLoop_map, in_map_iff. intros (line & <- & Hline).
  apply filter_In in Hline as [Hline Hentry].
  split; [|split; [|split]].
  - pose proof (domainOf_entry line) as H. rewrite Hentry in H.
    unfold domainOf in H. unfold isEntry in Hentry. rewrite Hentry in H.
    cbv zeta in H. destruct (truthy (trim (firstPart "#" (trim line)))) eqn:Ht;
      [|discriminate].
    intros E. rewrite E in Ht. discriminate.
  - apply not_true_is_false. intros H. apply hasChar_trim in H.
    destruct (split_parts "#" (trim line)) as [_ Hparts].
    destruct (Hparts _ (firstPart_in "#" (trim line))) as [Hno _]. congruence.
  - apply not_true_is_false. intros H. apply hasChar_trim in H.
    destruct (split_parts "#" (trim line)) as [_ Hparts].
    destruct (Hparts _ (firstPart_in "#" (trim line))) as [_ Hsub].
    apply Hsub, hasChar_trim in H.
    destruct (split_parts newline data) as [_ Hlines].
    destruct (Hlines line Hline) as [Hno _]. congruence.
  - apply trim_idem.
Qed.

Lemma loadDomainList_domains_are_clean_witness :
  "example.com"%string <> ""%string
  /\ hasChar "#" "example.com" = false
  /\ hasChar newline "example.com" = false
  /\ trim "example.com" = "example.com"%string.
Proof.
  apply (loadDomainList_domains_are_clean (Some Cases.domainFile) "example.com").
  left. reflexivity.
Defined.
End DomainFacts.

(** ** A pass over a list of addresses *)

Section PassFacts.
Import GeoResolver GeoBatch Notions2.

Lemma cached_answer (ip : string) (ttlHours : Q) (w : World) :
  cached ip ttlHours w = (cachedAnswer (regionCache w) (clock w) ip ttlHours, w).
Proof.
  unfold cached, cachedAnswer, bind, readCache, getNow, ret.
  destruct (cacheGet (regionCache w) ip) as [[code|region [ts|]]|]; try reflexivity.
  - now destruct (truthy code).
  - now destruct (isCacheValid (clock w) (Some ts) ttlHours).
Qed.

Lemma getIpRegion_hit (http : Http) (ip : string) (ttlHours : Q) (w : World)
      (answer : Answer) :
  cachedAnswer (regionCache w) (clock w) ip ttlHours = Some answer ->
  getIpRegion http ip ttlHours w = (answer, w).
Proof.
  intros H. unfold getIpRegion, bind. now rewrite cached_answer, H.
Qed.

Lemma cachedAnswer_answerable cache now ip ttlHours answer :
  cachedAnswer cache now ip ttlHours = Some answer ->
  answerable (cacheGet cache ip).
Proof.
  unfold cachedAnswer, answerable.
  destruct (cacheGet cache ip) as [[code|region ts]|]; try discriminate; auto.
  destruct code; [discriminate|]. intros _. discriminate.
Qed.

(** One call leaves an answerable entry for its address, and keeps the
    entries of the other addresses answerable. *)
Lemma getIpRegion_answerable (http : Http) (ip : string) (ttlHours : Q) (w : World) :
  answerable (cacheGet (regionCache (snd (getIpRegion http ip ttlHours w))) ip)
  /\ forall ip', answerable (cacheGet (regionCache w) ip') ->
                 answerable (cacheGet (regionCache (snd (getIpRegion http ip ttlHours w)))
                                      ip').
Proof.
  destruct (getIpRegion_cases http ip ttlHours w) as [(answer & Hhit & ->)|[_ ->]].
  - cbn [snd]. split; [|auto]. rewrite cached_answer in Hhit.
    now apply cachedAnswer_answerable in Hhit.
  - destruct (lookup_outcome http ip w) as (code & sent & now & -> & _).
    cbn [snd regionCache]. split.
    + rewrite cacheGet_cacheSet. exact I.
    + intros ip' H. destruct (String.eqb_spec ip' ip) as [->|Hne].
      * rewrite cacheGet_cacheSet. exact I.
      * now rewrite cacheGet_cacheSet_other.
Qed.

Lemma sleep_world (timer : Timer) (ms : Z) (i : nat) (w : World) :
  (if ((i + 1) mod 10 =? 0)%nat then sleep timer ms else ret tt) w
  = (tt, mkWorld (regionCache w)
                 (if ((i + 1) mod 10 =? 0)%nat then timer (clock w) ms else clock w)
                 (requests w)).
Proof.
  destruct ((i + 1) mod 10 =? 0)%nat; unfold sleep, ret; [reflexivity|].
  now destruct w.
Qed.

Lemma regionLoop_cons (http : Http) (timer : Timer) (ms : Z) (i : nat)
      (item : Measured) (rest : list Measured) (results : list Located) (w : World) :
  regionLoop http timer ms i (item :: rest) results w
  = regionLoop http timer ms (S i) rest
               (results ++ [mkLocated (ip item)
                                      (fst (getIpRegion http (ip item) 168 w))
                                      (minDelay item) (avgDelay item)])
               (mkWorld (regionCache (snd (getIpRegion http (ip item) 168 w)))
                        (if ((i + 1) mod 10 =? 0)%nat
                         then timer (clock (snd (getIpRegion http (ip item) 168 w))) ms
                         else clock (snd (getIpRegion http (ip item) 168 w)))
                        (requests (snd (getIpRegion http (ip item) 168 w)))).
Proof.
  cbn [regionLoop]. unfold bind at 1.
  destruct (getIpRegion http (ip item) 168 w) as [code w1]. cbn [fst snd].
  unfold bind at 1. now rewrite sleep_world.
Qed.

(** The pass, step by step: what it returns and what it leaves. *)
Lemma regionLoop_effects (http : Http) (timer : Timer) (ms : Z)
      (ipData : list Measured) :
  forall i results w,
  exists located sent,
    fst (regionLoop http timer ms i ipData results w) = results ++ located
    /\ map locatedIp located = map ip ipData
    /\ map locatedMinDelay located = map minDelay ipData
    /\ map locatedAvgDelay located = map avgDelay ipData
    /\ requests (snd (regionLoop http timer ms i ipData results w))
       = requests w ++ sent
    /\ (List.length sent <= 2 * List.length ipData)%nat
    /\ (List.length (regionCache (snd (regionLoop http timer ms i ipData results w)))
        <= List.length (regionCache w) + List.length ipData)%nat
    /\ (NoDup (map fst (regionCache w)) ->
        NoDup (map fst (regionCache
                          (snd (regionLoop http timer ms i ipData results w)))))
    /\ (forall ip', answerable (cacheGet (regionCache w) ip') ->
                    answerable
                      (cacheGet (regionCache
                                   (snd (regionLoop http timer ms i ipData results w)))
                                ip'))
    /\ (forall item, In item ipData ->
                     answerable
                       (cacheGet (regionCache
                                    (snd (regionLoop http timer ms i ipData results w)))
                                 (ip item))).
Proof.
  induction ipData as [|item rest IH]; intros i results w.
  - exists [], []. cbn. rewrite !app_nil_r. repeat split; auto; try lia; try tauto.
  - rewrite regionLoop_cons.
    destruct (getIpRegion_effects http (ip item) 168 w)
      as ((sent1 & Hreq1 & Hsent1) & _ & Hlen1 & Hnd1).
    destruct (getIpRegion_answerable http (ip item) 168 w) as [Hans1 Hkeep1].
    destruct (getIpRegion http (ip item) 168 w) as [code w1].
    cbn [fst snd] in *.
    set (w2 := mkWorld (regionCache w1) _ (requests w1)).
    destruct (IH (S i) (results ++ [mkLocated (ip item) code (minDelay item) (avgDelay item)])
                 w2)
      as (located & sent & Hfst & Hip & Hmin & Havg & Hreq & Hsent & Hlen & Hnd
          & Hkeep & Hans).
    exists (mkLocated (ip item) code (minDelay item) (avgDelay item) :: located),
           (sent1 ++ sent).
    split; [rewrite Hfst, <- app_assoc; reflexivity|].
    split; [cbn; now rewrite Hip|].
    split; [cbn; now rewrite Hmin|].
    split; [cbn; now rewrite Havg|].
    split; [rewrite Hreq; subst w2; cbn [requests]; now rewrite Hreq1, app_assoc|].
    split.
    { rewrite length_app. cbn [List.length].
      assert (List.length sent1 <= 2)%nat
        by (destruct Hsent1 as [->|[->| ->]]; cbn; lia).
      lia. }
    split; [subst w2; cbn [regionCache List.length] in *; lia|].
    split; [intros H; apply Hnd; subst w2; cbn [regionCache]; auto|].
    split; [intros ip' H; apply Hkeep; subst w2; cbn [regionCache]; auto|].
    intros item' [<-|Hin]; [apply Hkeep; subst w2; cbn [regionCache]; exact Hans1|].
    now apply Hans.
Qed.

(** X25: one pass of [getRegionsConcurrently] returns one record for
    each record of its input, in the same order, with the address and
    the two delays copied; it sends at most two requests for each
    address, after those sent before; the cache grows by at most one
    entry for each address and keeps each key once. *)
Theorem getRegionsConcurrently_one_record_each
        (http : Http) (timer : Timer) (ipData : list Measured)
        (queryInterval : Z) (w : World) :
  map locatedIp (fst (getRegionsConcurrently http timer ipData queryInterval w))
  = map ip ipData
  /\ map locatedMinDelay (fst (getRegionsConcurrently http timer ipData queryInterval w))
     = map minDelay ipData
  /\ map locatedAvgDelay (fst (getRegionsConcurrently http timer ipData queryInterval w))
     = map avgDelay ipData
  /\ (exists sent,
         requests (snd (getRegionsConcurrently http timer ipData queryInterval w))
         = requests w ++ sent
         /\ (List.length sent <= 2 * List.length ipData)%nat)
  /\ (List.length
        (regionCache (snd (getRegionsConcurrently http timer ipData queryInterval w)))
      <= List.length (regionCache w) + List.length ipData)%nat
  /\ (NoDup (map fst (regionCache w)) ->
      NoDup (map fst (regionCache
                        (snd (getRegionsConcurrently http timer ipData
                                                     queryInterval w))))).
Proof.
  unfold getRegionsConcurrently.
  destruct (regionLoop_effects http timer queryInterval ipData 0 [] w)
    as (located & sent & Hfst & Hip & Hmin & Havg & Hreq & Hsent & Hlen & Hnd & _).
  rewrite Hfst. cbn [app]. repeat split; auto. exists sent. auto.
Qed.

Lemma clockAfter_le (timer : Timer) (ms : Z) :
  (forall t, t <= timer t ms) ->
  forall k i t, t <= clockAfter timer ms t i k.
Proof.
  intros Hmono. induction k as [|k IH]; intros i t; cbn [clockAfter]; [lia|].
  etransitivity; [|apply IH].
  destruct ((i + 1) mod 10 =? 0)%nat; [apply Hmono|lia].
Qed.

Lemma isCacheValid_earlier (now now' timestamp : Z) (ttlHours : Q) :
  now <= now' ->
  isCacheValid now' (Some timestamp) ttlHours = true ->
  isCacheValid now (Some timestamp) ttlHours = true.
Proof.
  intros Hle. rewrite !isCacheValid_iff. intros Hlt.
  eapply Qle_lt_trans; [|exact Hlt].
  rewrite <- Zle_Qle. lia.
Qed.

(** A pass over addresses that the cache answers until its last instant
    sends nothing and leaves the cache as it is. *)
Lemma regionLoop_all_hits (http : Http) (timer : Timer) (ms : Z) :
  (forall t, t <= timer t ms) ->
  forall (ipData : list Measured) i results cache t reqs,
    (forall item, In item ipData ->
                  answerable (cacheGet cache (ip item))
                  /\ forall region timestamp,
                      cacheGet cache (ip item) = Some (Entry region (Some timestamp)) ->
                      isCacheValid (clockAfter timer ms t i (List.length ipData))
                                   (Some timestamp) 168 = true) ->
    regionLoop http timer ms i ipData results (mkWorld cache t reqs)
    = (results
         ++ map (fun item => mkLocated (ip item) (answerOf (cacheGet cache (ip item)))
                                       (minDelay item) (avgDelay item))
                ipData,
       mkWorld cache (clockAfter timer ms t i (List.length ipData)) reqs).
Proof.
  intros Hmono. induction ipData as [|item rest IH]; intros i results cache t reqs Hall.
  - cbn. now rewrite app_nil_r.
  - rewrite regionLoop_cons. cbn [List.length clockAfter map].
    destruct (Hall item (or_introl eq_refl)) as [Hans Hfresh].
    assert (Hhit : cachedAnswer cache t (ip item) 168
                   = Some (answerOf (cacheGet cache (ip item)))).
    { unfold cachedAnswer, answerOf. unfold answerable in Hans.
      destruct (cacheGet cache (ip item)) as [[code|region [ts|]]|]; try tauto.
      - destruct code; [congruence|reflexivity].
      - rewrite (isCacheValid_earlier
                   t (clockAfter timer ms t i (List.length (item :: rest))) ts 168);
          [reflexivity| |now apply (Hfresh region ts)].
        cbn [List.length clockAfter].
        etransitivity; [|apply clockAfter_le; exact Hmono].
        destruct ((i + 1) mod 10 =? 0)%nat; [apply Hmono|lia]. }
    rewrite (getIpRegion_hit http (ip item) 168 (mkWorld cache t reqs) _ Hhit).
    cbn [fst snd regionCache clock requests].
    rewrite IH.
    + now rewrite <- app_assoc.
    + intros item' Hin. destruct (Hall item' (or_intror Hin)) as [Ha Hf].
      split; [exact Ha|]. intros region ts Hget.
      exact (Hf region ts Hget).
Qed.

(** X26: a second pass over the same addresses is answered by the cache
    alone.  After a pass of [getRegionsConcurrently], take the cache it
    left and run a pass over the same list, at any later instant, with
    any web and a timer that does not go back: if the stamped entries of
    these addresses are still within the 168 hours at the end of that
    pass, it sends no request, leaves the cache unchanged and answers
    each address from its entry. *)
Theorem getRegionsConcurrently_second_pass_is_cached
        (http http' : Http) (timer timer' : Timer) (ipData : list Measured)
        (queryInterval queryInterval' : Z) (w : World)
        (start : Z) (reqs : list string) :
  (forall t, t <= timer' t queryInterval') ->
  (forall item region timestamp,
      In item ipData ->
      cacheGet (regionCache (snd (getRegionsConcurrently http timer ipData
                                                         queryInterval w)))
               (ip item)
      = Some (Entry region (Some timestamp)) ->
      isCacheValid (clockAfter timer' queryInterval' start 0 (List.length ipData))
                   (Some timestamp) 168 = true) ->
  getRegionsConcurrently
    http' timer' ipData queryInterval'
    (mkWorld (regionCache (snd (getRegionsConcurrently http timer ipData
                                                       queryInterval w)))
             start reqs)
  = (map (fun item =>
            mkLocated (ip item)
                      (answerOf
                         (cacheGet
                            (regionCache (snd (getRegionsConcurrently
                                                 http timer ipData queryInterval w)))
                            (ip item)))
                      (minDelay item) (avgDelay item))
         ipData,
     mkWorld (regionCache (snd (getRegionsConcurrently http timer ipData
                                                       queryInterval w)))
             (clockAfter timer' queryInterval' start 0 (List.length ipData))
             reqs).
Proof.
  intros Hmono Hfresh.
  unfold getRegionsConcurrently at 1.
  rewrite regionLoop_all_hits; [reflexivity|exact Hmono|].
  intros item Hin. split.
  - unfold getRegionsConcurrently.
    destruct (regionLoop_effects http timer queryInterval ipData 0 [] w)
      as (located & sent & _ & _ & _ & _ & _ & _ & _ & _ & _ & Hans).
    now apply Hans.
  - intros region ts Hget. now apply (Hfresh item region ts).
Qed.

Lemma getRegionsConcurrently_second_pass_is_cached_witness :
  getRegionsConcurrently
    Scenario.webDown Cases.punctual Cases.oneMeasured 200
    (mkWorld (regionCache (snd (getRegionsConcurrently
                                  Scenario.webDown Cases.punctual Cases.oneMeasured
                                  200 Scenario.emptyWorld)))
             2000000 [])
  = (map (fun item =>
            mkLocated (ip item)
                      (answerOf
                         (cacheGet
                            (regionCache
                               (snd (getRegionsConcurrently
                                       Scenario.webDown Cases.punctual
                                       Cases.oneMeasured 200 Scenario.emptyWorld)))
                            (ip item)))
                      (minDelay item) (avgDelay item))
         Cases.oneMeasured,
     mkWorld (regionCache (snd (getRegionsConcurrently
                                  Scenario.webDown Cases.punctual Cases.oneMeasured
                                  200 Scenario.emptyWorld)))
             (clockAfter Cases.punctual 200 2000000 0 (List.length Cases.oneMeasured))
             []).
Proof.
  apply (getRegionsConcurrently_second_pass_is_cached
           Scenario.webDown Scenario.webDown Cases.punctual Cases.punctual
           Cases.oneMeasured 200 200 Scenario.emptyWorld 2000000 []).
  - intros t. unfold Cases.punctual. lia.
  - intros item region timestamp [<-|[]] H.
    vm_compute in H. injection H as _ <-. reflexivity.
Defined.

End PassFacts.

(** ** The number of candidates kept, in binary64 *)

Section KeepCountFacts.

(** X27: for up to 2000 candidates and a whole percentage from 0 to
    100, the binary64 [Math.floor(n * percentage / 100)] of
    [latencyFilterIps] is the quotient of the integers, rounded down:
    on these inputs the rounding of binary64 changes nothing. *)
Theorem keepCount_is_the_integer_quotient (n percentage : Z) :
  0 <= n <= 2000 -> 0 <= percentage <= 100 ->
  Binary64.keepCount n (Binary64.ofZ percentage)
  = Binary64.ofZ (Qfloor (inject_Z n * inject_Z percentage / 100)).
Proof.
  intros Hn Hp.
  assert (Hfloor : Qfloor (inject_Z n * inject_Z percentage / 100)
                   = n * percentage / 100).
  { unfold Qdiv. rewrite <- inject_Z_mult. change (/ 100)%Q with (1 # 100)%Q.
    unfold Qfloor, Qmult, inject_Z. cbn [Qnum Qden].
    rewrite Z.mul_1_r. reflexivity. }
  rewrite Hfloor. now apply keepCount_whole.
Qed.

(** The theorem on four candidates at 30 percent: one is kept. *)
Lemma keepCount_is_the_integer_quotient_witness :
  Binary64.keepCount 4 30 = 1%float.
Proof.
  pose proof (keepCount_is_the_integer_quotient 4 30 ltac:(lia) ltac:(lia)) as H.
  vm_compute in H. exact H.
Defined.
End KeepCountFacts.
